(** * Contacts backend: authentication, role checks and contact queries

    A shallow embedding of the FastAPI contacts service
    ([src/auth], [src/contacts]) and the properties of its
    token service, role checker and contacts repository.

    Conventions of the embedding:
    - a database table is the list of its rows, in storage order;
    - a Python exception is a value of [exn]; a call that may raise
      returns a [result];
    - the wall clock is an input of every function that reads it;
    - a Python [str] is held as its UTF-8 bytes ([string]); [PyInt.int]
      reads the code points back, the SQL text functions are exact on
      ASCII input. *)

From Stdlib Require Import ZArith Lia Bool List String Ascii.
From stdpp Require Import base option list gmap strings pretty.
Import ListNotations.

Local Open Scope string_scope.
Local Open Scope Z_scope.

(** ** Exceptions and results *)

Inductive exn : Type :=
| ValueError (msg : string)
| OverflowError
| AttributeError
| MultipleResultsFound
| JWTError
| IntegrityError
| ResponseValidationError
| HTTPException (status_code : Z) (detail : string).

Inductive result (A : Type) : Type :=
| Return (a : A)
| Raise (e : exn).

Arguments Return {A} a.
Arguments Raise {A} e.

#[global] Instance result_ret : MRet result := fun A a => Return a.

#[global] Instance result_bind : MBind result := fun A B k r =>
  match r with
  | Return a => k a
  | Raise e => Raise e
  end.

(** ** Python's [int(str)]

    [int] of a [str] in base 10, as CPython does it
    ([PyLong_FromUnicodeObject], then [PyLong_FromString]): the code points
    above ASCII that are white space or decimal digits are first replaced
    by a blank and by the ASCII digit of the same value; then leading and
    trailing ASCII white space is dropped, one sign is allowed, and the
    digits may be separated by single underscores; a literal of more than
    4300 digits is refused.  [None] stands for [ValueError]. *)

Module PyInt.

(** [sys.int_info.default_max_str_digits] *)
Definition MAX_STR_DIGITS : Z := 4300.

Definition continuation (b : Z) : bool := (0x80 <=? b) && (b <=? 0xBF).

(** The code points of a [str] held as its UTF-8 bytes; bytes that are
    not UTF-8 are the bytes of no [str]. *)
Fixpoint code_points (bs : list Z) : option (list Z) :=
  match bs with
  | [] => Some []
  | b0 :: r0 =>
      if b0 <? 0x80 then cons b0 <$> code_points r0
      else
        match r0 with
        | [] => None
        | b1 :: r1 =>
            if (0xC2 <=? b0) && (b0 <=? 0xDF) then
              if continuation b1
              then cons ((b0 - 0xC0) * 64 + (b1 - 0x80)) <$> code_points r1
              else None
            else
              match r1 with
              | [] => None
              | b2 :: r2 =>
                  if (0xE0 <=? b0) && (b0 <=? 0xEF) then
                    let cp :=
                      (b0 - 0xE0) * 4096 + (b1 - 0x80) * 64 + (b2 - 0x80) in
                    if continuation b1 && continuation b2 && (0x800 <=? cp)
                       && negb ((0xD800 <=? cp) && (cp <=? 0xDFFF))
                    then cons cp <$> code_points r2
                    else None
                  else
                    match r2 with
                    | [] => None
                    | b3 :: r3 =>
                        let cp :=
                          (b0 - 0xF0) * 262144 + (b1 - 0x80) * 4096
                          + (b2 - 0x80) * 64 + (b3 - 0x80) in
                        if (0xF0 <=? b0) && (b0 <=? 0xF4)
                           && continuation b1 && continuation b2
                           && continuation b3
                           && (0x10000 <=? cp) && (cp <=? 0x10FFFF)
                        then cons cp <$> code_points r3
                        else None
                    end
              end
        end
  end.

(** [Py_UNICODE_ISSPACE] above ASCII (Unicode 14, as in CPython 3.11) *)
Definition UNICODE_SPACES : list Z :=
  [0x85; 0xA0; 0x1680; 0x2000; 0x2001; 0x2002; 0x2003; 0x2004; 0x2005;
   0x2006; 0x2007; 0x2008; 0x2009; 0x200A; 0x2028; 0x2029; 0x202F; 0x205F;
   0x3000].

Definition unicode_space (cp : Z) : bool := existsb (Z.eqb cp) UNICODE_SPACES.

(** The digit zero of every script with decimal digits; its digits one
    to nine are the nine code points that follow it. *)
Definition DECIMAL_ZEROS : list Z :=
  [0x0660; 0x06F0; 0x07C0; 0x0966; 0x09E6; 0x0A66; 0x0AE6; 0x0B66;
   0x0BE6; 0x0C66; 0x0CE6; 0x0D66; 0x0DE6; 0x0E50; 0x0ED0; 0x0F20;
   0x1040; 0x1090; 0x17E0; 0x1810; 0x1946; 0x19D0; 0x1A80; 0x1A90;
   0x1B50; 0x1BB0; 0x1C40; 0x1C50; 0xA620; 0xA8D0; 0xA900; 0xA9D0;
   0xA9F0; 0xAA50; 0xABF0; 0xFF10; 0x104A0; 0x10D30; 0x11066; 0x110F0;
   0x11136; 0x111D0; 0x112F0; 0x11450; 0x114D0; 0x11650; 0x116C0;
   0x11730; 0x118E0; 0x11950; 0x11C50; 0x11D50; 0x11DA0; 0x16A60;
   0x16AC0; 0x16B50; 0x1D7CE; 0x1D7D8; 0x1D7E2; 0x1D7EC; 0x1D7F6;
   0x1E140; 0x1E2F0; 0x1E950; 0x1FBF0].

(** [Py_UNICODE_TODECIMAL] above ASCII *)
Definition unicode_decimal (cp : Z) : option Z :=
  (fun zero => cp - zero)
    <$> List.find (fun zero => (zero <=? cp) && (cp <? zero + 10))
          DECIMAL_ZEROS.

(** [_PyUnicode_TransformDecimalAndSpaceToASCII], one code point: a code
    point above ASCII that is neither white space nor a decimal digit
    becomes a question mark, which no literal contains. *)
Definition to_ascii (cp : Z) : option ascii :=
  if cp <? 127 then Some (ascii_of_N (Z.to_N cp))
  else if unicode_space cp then Some " "%char
  else (fun d => ascii_of_N (Z.to_N (48 + d))) <$> unicode_decimal cp.

Fixpoint transform (cps : list Z) : option (list ascii) :=
  match cps with
  | [] => Some []
  | cp :: cps' =>
      match to_ascii cp with
      | Some c => cons c <$> transform cps'
      | None => None
      end
  end.

(** [Py_ISSPACE]: the blank and the control characters 9 to 13 *)
Definition is_space (c : ascii) : bool :=
  let n := nat_of_ascii c in
  (((9 <=? n) && (n <=? 13)) || (n =? 32))%nat.

Definition digit_val (c : ascii) : option Z :=
  let n := nat_of_ascii c in
  if ((48 <=? n) && (n <=? 57))%nat then Some (Z.of_nat n - 48) else None.

Fixpoint lstrip (s : list ascii) : list ascii :=
  match s with
  | c :: s' => if is_space c then lstrip s' else s
  | [] => []
  end.

Definition strip (s : list ascii) : list ascii :=
  rev (lstrip (rev (lstrip s))).

(** [digits s acc after_digit]: [after_digit] says that the previous
    character was a digit, the only place where an underscore or the end
    of the literal may come. *)
Fixpoint digits (s : list ascii) (acc : Z) (after_digit : bool) : option Z :=
  match s with
  | [] => if after_digit then Some acc else None
  | c :: s' =>
      match digit_val c with
      | Some d => digits s' (10 * acc + d) true
      | None =>
          if Ascii.eqb c "_" && after_digit then digits s' acc false else None
      end
  end.

Definition is_digit (c : ascii) : bool :=
  match digit_val c with
  | Some _ => true
  | None => false
  end.

(** The digits of the literal, its underscores apart, are counted against
    the limit, leading zeros included. *)
Definition literal (r : list ascii) : option Z :=
  if MAX_STR_DIGITS <? Z.of_nat (length (List.filter is_digit r)) then None
  else digits r 0 false.

Definition int (s : string) : option Z :=
  cps ← code_points
          (map (fun c => Z.of_N (N_of_ascii c)) (list_ascii_of_string s));
  chars ← transform cps;
  match strip chars with
  | "+"%char :: r => literal r
  | "-"%char :: r => Z.opp <$> literal r
  | r => literal r
  end.

End PyInt.

(** ** Python's proleptic Gregorian calendar ([datetime])

    The arithmetic behind [date.toordinal], [date.fromordinal],
    [timetuple().tm_yday] and [date + timedelta(days)]. *)

Module Datetime.

Record date : Type := mkdate { year : Z; month : Z; day : Z }.

Definition MINYEAR : Z := 1.
Definition MAXYEAR : Z := 9999.
Definition MAXORDINAL : Z := 3652059.
Definition MAX_DELTA_DAYS : Z := 999999999.

Definition is_leap (y : Z) : bool :=
  (y mod 4 =? 0) && (negb (y mod 100 =? 0) || (y mod 400 =? 0)).

Definition DAYS_IN_MONTH (m : Z) : Z :=
  nth (Z.to_nat m) [-1; 31; 28; 31; 30; 31; 30; 31; 31; 30; 31; 30; 31] 0.

Definition DAYS_BEFORE_MONTH (m : Z) : Z :=
  nth (Z.to_nat m) [-1; 0; 31; 59; 90; 120; 151; 181; 212; 243; 273; 304; 334] 0.

Definition days_before_year (y : Z) : Z :=
  let y' := y - 1 in y' * 365 + y' / 4 - y' / 100 + y' / 400.

Definition days_in_month (y m : Z) : Z :=
  if (m =? 2) && is_leap y then 29 else DAYS_IN_MONTH m.

Definition days_before_month (y m : Z) : Z :=
  DAYS_BEFORE_MONTH m + (if (2 <? m) && is_leap y then 1 else 0).

Definition ymd2ord (d : date) : Z :=
  days_before_year (year d) + days_before_month (year d) (month d) + day d.

Definition DI400Y : Z := 146097.
Definition DI100Y : Z := 36524.
Definition DI4Y : Z := 1461.

Definition ord2ymd (n0 : Z) : date :=
  let n := n0 - 1 in
  let n400 := n / DI400Y in
  let n := n mod DI400Y in
  let y := n400 * 400 + 1 in
  let n100 := n / DI100Y in
  let n := n mod DI100Y in
  let n4 := n / DI4Y in
  let n := n mod DI4Y in
  let n1 := n / 365 in
  let n := n mod 365 in
  let y := y + n100 * 100 + n4 * 4 + n1 in
  if (n1 =? 4) || (n100 =? 4) then mkdate (y - 1) 12 31
  else
    let leapyear := (n1 =? 3) && (negb (n4 =? 24) || (n100 =? 3)) in
    let m := Z.shiftr (n + 50) 5 in
    let preceding :=
      DAYS_BEFORE_MONTH m + (if (2 <? m) && leapyear then 1 else 0) in
    if n <? preceding then
      let m' := m - 1 in
      let preceding' :=
        preceding
        - (DAYS_IN_MONTH m' + (if (m' =? 2) && leapyear then 1 else 0)) in
      mkdate y m' (n - preceding' + 1)
    else mkdate y m (n - preceding + 1).

(** The month and day of the [n]-th day (from 0) of a year: the last
    step of [ord2ymd], and the check of what it returns. *)
Definition month_day (leapyear : bool) (n : Z) : Z * Z :=
  let m := Z.shiftr (n + 50) 5 in
  let preceding :=
    DAYS_BEFORE_MONTH m + (if (2 <? m) && leapyear then 1 else 0) in
  if n <? preceding then
    let m' := m - 1 in
    let preceding' :=
      preceding
      - (DAYS_IN_MONTH m' + (if (m' =? 2) && leapyear then 1 else 0)) in
    (m', n - preceding' + 1)
  else (m, n - preceding + 1).

Definition month_day_ok (leapyear : bool) (n : Z) : bool :=
  let '(m, d) := month_day leapyear n in
  (1 <=? m) && (m <=? 12) && (1 <=? d)
  && (d <=? DAYS_IN_MONTH m + (if (m =? 2) && leapyear then 1 else 0))
  && (DAYS_BEFORE_MONTH m + (if (2 <? m) && leapyear then 1 else 0) + d =? n + 1).

(** The dates a [date] object can hold. *)
Definition valid_date (d : date) : bool :=
  (MINYEAR <=? year d) && (year d <=? MAXYEAR)
  && (1 <=? month d) && (month d <=? 12)
  && (1 <=? day d) && (day d <=? days_in_month (year d) (month d)).

(** [timetuple().tm_yday] *)
Definition tm_yday (d : date) : Z :=
  days_before_month (year d) (month d) + day d.

(** [d + timedelta(days=n)]; [None] stands for [OverflowError], raised
    when [n] does not fit a [timedelta] or the sum leaves the calendar. *)
Definition add_days (d : date) (n : Z) : option date :=
  let o := ymd2ord d + n in
  if (Z.abs n <=? MAX_DELTA_DAYS) && (0 <? o) && (o <=? MAXORDINAL)
  then Some (ord2ymd o) else None.

End Datetime.

(** ** The relational store

    A table is the list of its rows.  The three [id] columns are
    [role_pk], [user_pk] and [contact_pk]. *)

Import Datetime.

Inductive RoleEnum : Type := USER | ADMIN.

Definition value (r : RoleEnum) : string :=
  match r with
  | USER => "user"
  | ADMIN => "admin"
  end.

(** Modelled from the spec: the [Role] table of [src/auth/models.py],
    which is not among the sources: an id and a name, the name being the
    value of a [RoleEnum] member. *)
Record Role : Type := mkRole {
  role_pk : Z;
  name : string
}.

(** Modelled from the spec: the [User] table of [src/auth/models.py],
    which is not among the sources, with the columns of the spec's data
    model; [email] is unique and [role_id] refers to [Role]. *)
Record User : Type := mkUser {
  user_pk : Z;
  username : string;
  email : string;
  hashed_password : string;
  is_active : bool;
  avatar : option string;
  role_id : Z
}.

(** Modelled from the spec: the [Contact] table of
    [src/contacts/models.py], which is not among the sources, with the
    columns of the spec's data model; [email] (here [contact_email]) is
    unique across the table and [owner_id] refers to [User]. *)
Record Contact : Type := mkContact {
  contact_pk : Z;
  owner_id : Z;
  first_name : string;
  last_name : string;
  contact_email : string;
  phone_number : string;
  birthday : date;
  additional_info : option string
}.

(** The session's view of the database: the three tables and the two
    primary-key sequences. *)
Record Store : Type := mkStore {
  roles : list Role;
  users : list User;
  contacts : list Contact;
  user_seq : Z;
  contact_seq : Z
}.

(** ** SQL fragments used by the repositories *)

Module Sql.

(** [Result.scalar_one_or_none()] *)
Definition scalar_one_or_none {A : Type} (rows : list A) : result (option A) :=
  match rows with
  | [] => Return None
  | [a] => Return (Some a)
  | _ :: _ :: _ => Raise MultipleResultsFound
  end.

(** [column == value] where the Python value may be [None]: a comparison
    with [None] is rendered [IS NULL], which no row of a non-null column
    satisfies. *)
Definition eq_opt_Z (col : Z) (v : option Z) : bool :=
  match v with
  | Some n => col =? n
  | None => false
  end.

Definition eq_opt_string (col : string) (v : option string) : bool :=
  match v with
  | Some s => String.eqb col s
  | None => false
  end.

(** [LIKE]: [%] matches any run of characters, [_] any one character and
    a backslash quotes the character after it.  A pattern made of
    [%query%] never ends inside a quotation (see [dangling_escape]), so
    the last equation's reading of a final backslash is never reached by
    [search_contacts]. *)
Fixpoint like (p s : list ascii) {struct p} : bool :=
  match p with
  | [] => match s with [] => true | _ :: _ => false end
  | "%"%char :: p' =>
      (fix skip (s : list ascii) : bool :=
         like p' s || match s with [] => false | _ :: s' => skip s' end) s
  | "_"%char :: p' =>
      match s with [] => false | _ :: s' => like p' s' end
  | "\"%char :: c :: p' =>
      match s with [] => false | c' :: s' => Ascii.eqb c c' && like p' s' end
  | c :: p' =>
      match s with [] => false | c' :: s' => Ascii.eqb c c' && like p' s' end
  end.

(** Does the pattern end right after an unquoted backslash? *)
Fixpoint dangling_escape (p : list ascii) : bool :=
  match p with
  | [] => false
  | "\"%char :: [] => true
  | "\"%char :: _ :: p' => dangling_escape p'
  | _ :: p' => dangling_escape p'
  end.

Definition lower (c : ascii) : ascii :=
  let n := nat_of_ascii c in
  if ((65 <=? n) && (n <=? 90))%nat then ascii_of_nat (n + 32) else c.

(** [column ILIKE pattern] *)
Definition ilike (col pattern : string) : bool :=
  like (map lower (list_ascii_of_string pattern))
       (map lower (list_ascii_of_string col)).

End Sql.

(** ** [src/contacts/repo.py]: ContactsRepository *)

(** Modelled from the spec: the request body [ContactsCreate] of
    [src/contacts/schemas.py], which is not among the sources.  It carries
    the contact's columns, [additional_info] being the one that may be
    left unset. *)
Record ContactsCreate : Type := mkContactsCreate {
  cc_first_name : string;
  cc_last_name : string;
  cc_email : string;
  cc_phone_number : string;
  cc_birthday : date;
  cc_additional_info : option string
}.

Definition get_contacts (s : Store) (owner : Z) (limit offset : nat)
  : list Contact :=
  take limit
    (drop offset (List.filter (fun c => owner_id c =? owner) (contacts s))).

Definition get_contacts_all (s : Store) (limit offset : nat) : list Contact :=
  take limit (drop offset (contacts s)).

(** The table's unique constraint on [email] makes the insert fail with
    [IntegrityError] when the address is taken. *)
Definition create_contacts (s : Store) (contact : ContactsCreate) (owner : Z)
  : result (Contact * Store) :=
  let new_contact :=
    mkContact (contact_seq s + 1) owner
      (cc_first_name contact) (cc_last_name contact) (cc_email contact)
      (cc_phone_number contact) (cc_birthday contact)
      (cc_additional_info contact) in
  if existsb (fun c => String.eqb (contact_email c) (cc_email contact))
       (contacts s)
  then Raise IntegrityError
  else Return (new_contact,
               mkStore (roles s) (users s) (contacts s ++ [new_contact])
                 (user_seq s) (contact_seq s + 1)).

Definition search_match (owner : Z) (query : string) (c : Contact) : bool :=
  (owner_id c =? owner)
  && (Sql.ilike (first_name c) ("%" ++ query ++ "%")%string
      || Sql.ilike (last_name c) ("%" ++ query ++ "%")%string
      || Sql.ilike (contact_email c) ("%" ++ query ++ "%")%string).

Definition search_contacts (s : Store) (owner : Z) (query : string)
  : list Contact :=
  List.filter (search_match owner query) (contacts s).

Definition get_contact_by_id (s : Store) (contact_id : Z)
  : result (option Contact) :=
  Sql.scalar_one_or_none
    (List.filter (fun c => contact_pk c =? contact_id) (contacts s)).

Definition delete_contact (s : Store) (contact_id : Z) : Store :=
  mkStore (roles s) (users s)
    (List.filter (fun c => negb (contact_pk c =? contact_id)) (contacts s))
    (user_seq s) (contact_seq s).

Definition birthday_match (owner today_doy upcoming_doy : Z) (c : Contact)
  : bool :=
  if today_doy <=? upcoming_doy then
    (owner_id c =? owner)
    && ((today_doy <=? tm_yday (birthday c))
        && (tm_yday (birthday c) <=? upcoming_doy))
  else
    (owner_id c =? owner)
    && ((today_doy <=? tm_yday (birthday c))
        || (tm_yday (birthday c) <=? upcoming_doy)).

(** [today] is the value of [datetime.today()] read by the call. *)
Definition get_upcoming_birthdays (s : Store) (today : date) (owner : Z)
  (days : Z) : result (list Contact) :=
  match add_days today days with
  | None => Raise OverflowError
  | Some upcoming_date =>
      let today_day_of_year := tm_yday today in
      let upcoming_day_of_year := tm_yday upcoming_date in
      Return (List.filter
                (birthday_match owner today_day_of_year upcoming_day_of_year)
                (contacts s))
  end.

Definition find_match (owner : Z) (identifier : string) (c : Contact) : bool :=
  let contact_id := PyInt.int identifier in
  (owner_id c =? owner)
  && (Sql.eq_opt_Z (contact_pk c) contact_id
      || String.eqb (contact_email c) identifier
      || String.eqb (first_name c) identifier
      || String.eqb (first_name c ++ " " ++ last_name c)%string identifier).

Definition find_contact (s : Store) (owner : Z) (identifier : string)
  : result (option Contact) :=
  Sql.scalar_one_or_none (List.filter (find_match owner identifier) (contacts s)).

(** [contact_update.model_dump(exclude_unset=True)] written over a row:
    an unset [additional_info] keeps the stored one. *)
Definition apply_update (cu : ContactsCreate) (c : Contact) : Contact :=
  mkContact (contact_pk c) (owner_id c)
    (cc_first_name cu) (cc_last_name cu) (cc_email cu)
    (cc_phone_number cu) (cc_birthday cu)
    (match cc_additional_info cu with
     | Some i => Some i
     | None => additional_info c
     end).

Definition truthy (s : string) : bool := negb (String.eqb s "").

(** The [UPDATE] is subject to the unique constraint on [email], like the
    insert of [create_contacts]. *)
Definition update_contact (s : Store) (identifier : string) (owner : Z)
  (contact_update : ContactsCreate) : result (option Contact * Store) :=
  contact ← find_contact s owner identifier;
  match contact with
  | None => Return (None, s)
  | Some contact =>
      _ ← (if truthy (cc_email contact_update) then
             existing_contact ←
               Sql.scalar_one_or_none
                 (List.filter
                    (fun c => String.eqb (contact_email c)
                                (cc_email contact_update))
                    (contacts s));
             match existing_contact with
             | Some e =>
                 if negb (contact_pk e =? contact_pk contact)
                 then Raise (ValueError "Email already in use")
                 else Return tt
             | None => Return tt
             end
           else Return tt);
      let updated :=
        map (fun c => if contact_pk c =? contact_pk contact
                      then apply_update contact_update c else c)
            (contacts s) in
      if existsb
           (fun c => negb (contact_pk c =? contact_pk contact)
                     && String.eqb (contact_email c) (cc_email contact_update))
           (contacts s)
      then Raise IntegrityError
      else Return (Some (apply_update contact_update contact),
                   mkStore (roles s) (users s) updated
                     (user_seq s) (contact_seq s))
  end.

(** ** External services

    What the service takes from its environment: the signing secret read
    from [SECRET_KEY], the HMAC-SHA256 signature that python-jose puts on
    a header and payload, and passlib's bcrypt context (the salt that
    [hash] draws is part of the environment). *)

Inductive jvalue : Type :=
| JStr (s : string)
| JInt (n : Z).

Abbreviation claims := (gmap string jvalue).

Class Environment : Type := {
  SECRET_KEY : string;
  hs256 : string -> string -> claims -> string;
  pwd_hash : string -> string;
  pwd_verify : string -> string -> bool
}.

(** A toy environment, used to run the service on concrete requests. *)
Definition toy_signature (key alg : string) (payload : claims) : string :=
  (key ++ "/" ++ alg
   ++ "/" ++ match payload !! "sub" with
             | Some (JStr s) => s
             | Some (JInt n) => pretty n
             | None => ""
             end
   ++ "/" ++ match payload !! "exp" with
             | Some (JStr s) => s
             | Some (JInt n) => pretty n
             | None => ""
             end)%string.

Definition toy_env : Environment := {|
  SECRET_KEY := "secret";
  hs256 := toy_signature;
  pwd_hash := fun p => ("$2b$" ++ p)%string;
  pwd_verify := fun p h => String.eqb ("$2b$" ++ p)%string h
|}.

(** ** JSON Web Tokens, as python-jose's [jwt.encode] and [jwt.decode]
    treat them

    A token string is represented by what the compact-serialization parser
    finds in it: nothing ([Malformed]), or an algorithm name, a payload
    and a signature.  Of the registered claims the model validates the
    two that this service issues, [exp] and [sub]; every failure of
    [jwt.decode] is a [JWTError] ([ExpiredSignatureError] and
    [JWTClaimsError] are subclasses of it).  The clock counts microseconds
    since the epoch, [exp] whole seconds. *)

Inductive token : Type :=
| Malformed (raw : string)
| Compact (alg : string) (payload : claims) (signature : string).

Definition seconds (t : Z) : Z := t / 1000000.

Section Jwt.
Context {env : Environment}.

Definition jwt_encode (to_encode : claims) (key algorithm : string) : token :=
  Compact algorithm to_encode (hs256 key algorithm to_encode).

(** [int(claims["exp"])] *)
Definition claim_int (v : jvalue) : option Z :=
  match v with
  | JInt n => Some n
  | JStr s => PyInt.int s
  end.

Definition validate_exp (payload : claims) (now : Z) : result unit :=
  match payload !! "exp" with
  | None => Return tt
  | Some v =>
      match claim_int v with
      | None => Raise JWTError
      | Some exp => if exp <? seconds now then Raise JWTError else Return tt
      end
  end.

Definition validate_sub (payload : claims) : result unit :=
  match payload !! "sub" with
  | Some (JInt _) => Raise JWTError
  | _ => Return tt
  end.

Definition jwt_decode (t : token) (key : string) (algorithms : list string)
  (now : Z) : result claims :=
  match t with
  | Malformed _ => Raise JWTError
  | Compact alg payload signature =>
      if negb (existsb (String.eqb alg) algorithms) then Raise JWTError
      else if negb (String.eqb signature (hs256 key alg payload))
      then Raise JWTError
      else
        _ ← validate_exp payload now;
        _ ← validate_sub payload;
        Return payload
  end.

End Jwt.

(** ** [src/auth/utils.py]: the token service *)

Record TokenData : Type := mkTokenData { token_username : option string }.

Definition ALGORITHM : string := "HS256".
Definition ACCESS_TOKEN_EXPIRE_MINUTES : Z := 30.
Definition REFRESH_TOKEN_EXPIRE_DAYS : Z := 7.
Definition VERIFICATION_TOKEN_HOUSE : Z := 24.

(** [timedelta] values, in microseconds. *)
Definition minutes (n : Z) : Z := n * 60 * 1000000.
Definition hours (n : Z) : Z := n * 3600 * 1000000.
Definition days (n : Z) : Z := n * 86400 * 1000000.

(** A [timedelta] is false exactly when it is zero. *)
Definition timedelta_bool (d : Z) : bool := negb (d =? 0).

(** The claim value [jwt.encode] writes for a [datetime]. *)
Definition exp_claim (expire : Z) : jvalue := JInt (seconds expire).

Section TokenService.
Context {env : Environment}.

Definition create_verification_token (now : Z) (email : string) : token :=
  let expire := now + hours VERIFICATION_TOKEN_HOUSE in
  let to_encode : claims := <["sub" := JStr email]> {["exp" := exp_claim expire]} in
  jwt_encode to_encode SECRET_KEY ALGORITHM.

(** [payload.get("sub")]: the string under [sub], if any. *)
Definition get_sub (payload : claims) : option string :=
  match payload !! "sub" with
  | Some (JStr s) => Some s
  | _ => None
  end.

Definition decode_verification_token (now : Z) (t : token)
  : result (option string) :=
  match jwt_decode t SECRET_KEY [ALGORITHM] now with
  | Return payload =>
      match get_sub payload with
      | None => Return None
      | Some email => Return (Some email)
      end
  | Raise JWTError => Return None
  | Raise e => Raise e
  end.

Definition create_access_token (now : Z) (data : claims)
  (expires_delta : option Z) : token :=
  let to_encode := data in
  let expire :=
    match expires_delta with
    | Some d =>
        if timedelta_bool d then now + d
        else now + minutes ACCESS_TOKEN_EXPIRE_MINUTES
    | None => now + minutes ACCESS_TOKEN_EXPIRE_MINUTES
    end in
  let to_encode := <["exp" := exp_claim expire]> to_encode in
  jwt_encode to_encode SECRET_KEY ALGORITHM.

Definition create_refresh_token (now : Z) (data : claims)
  (expires_delta : option Z) : token :=
  let to_encode := data in
  let expire :=
    match expires_delta with
    | Some d =>
        if timedelta_bool d then now + d
        else now + days REFRESH_TOKEN_EXPIRE_DAYS
    | None => now + days REFRESH_TOKEN_EXPIRE_DAYS
    end in
  let to_encode := <["exp" := exp_claim expire]> to_encode in
  jwt_encode to_encode SECRET_KEY ALGORITHM.

Definition decode_access_token (now : Z) (t : token)
  : result (option TokenData) :=
  match jwt_decode t SECRET_KEY [ALGORITHM] now with
  | Return payload =>
      match get_sub payload with
      | None => Return None
      | Some username => Return (Some (mkTokenData (Some username)))
      end
  | Raise JWTError => Return None
  | Raise e => Raise e
  end.

End TokenService.

(** ** [src/auth/repo.py]: UserRepository and RoleRepository *)

Record UserCreate : Type := mkUserCreate {
  uc_username : string;
  uc_email : string;
  uc_password : string;
  uc_role : RoleEnum
}.

Definition get_role_by_name (s : Store) (r : RoleEnum) : result (option Role) :=
  Sql.scalar_one_or_none
    (List.filter (fun ro => String.eqb (name ro) (value r)) (roles s)).

Definition get_user_by_email (s : Store) (e : option string)
  : result (option User) :=
  Sql.scalar_one_or_none
    (List.filter (fun u => Sql.eq_opt_string (email u) e) (users s)).

Definition get_user (s : Store) (n : string) : result (option User) :=
  Sql.scalar_one_or_none
    (List.filter (fun u => String.eqb (username u) n) (users s)).

(** The ORM writes a changed attribute back to the row that has the
    object's primary key. *)
Definition set_is_active (b : bool) (u : User) : User :=
  mkUser (user_pk u) (username u) (email u) (hashed_password u)
    b (avatar u) (role_id u).

Definition set_avatar (url : string) (u : User) : User :=
  mkUser (user_pk u) (username u) (email u) (hashed_password u)
    (is_active u) (Some url) (role_id u).

Definition flush_user (f : User -> User) (pk : Z) (s : Store) : Store :=
  mkStore (roles s)
    (map (fun r => if user_pk r =? pk then f r else r) (users s))
    (contacts s) (user_seq s) (contact_seq s).

Definition activate_user (s : Store) (u : User) : Store :=
  flush_user (set_is_active true) (user_pk u) s.

Definition update_avatar (s : Store) (e : string) (url : string)
  : result (User * Store) :=
  user ← get_user_by_email s (Some e);
  match user with
  | None => Raise (HTTPException 404 "User not found")
  | Some u => Return (set_avatar url u, flush_user (set_avatar url) (user_pk u) s)
  end.

Section UserRepository.
Context {env : Environment}.

Definition get_password_hash (password : string) : string := pwd_hash password.

Definition verify_password (password hashed : string) : bool :=
  pwd_verify password hashed.

(** [user_role.id] on a missing role is an [AttributeError]; the unique
    constraint on [users.email] makes the insert of a taken address an
    [IntegrityError]. *)
Definition create_user (s : Store) (user_create : UserCreate)
  : result (User * Store) :=
  let hashed := get_password_hash (uc_password user_create) in
  user_role ← get_role_by_name s (uc_role user_create);
  match user_role with
  | None => Raise AttributeError
  | Some user_role =>
      let new_user :=
        mkUser (user_seq s + 1) (uc_username user_create)
          (uc_email user_create) hashed false None (role_pk user_role) in
      if existsb (fun u => String.eqb (email u) (uc_email user_create))
           (users s)
      then Raise IntegrityError
      else Return (new_user,
                   mkStore (roles s) (users s ++ [new_user]) (contacts s)
                     (user_seq s + 1) (contact_seq s))
  end.

(** ** [src/auth/utils.py]: the authentication dependencies *)

Definition forbidden : exn :=
  HTTPException 403 "You are not authorized to access this resource".

Definition credentials_exception : exn :=
  HTTPException 401 "Could not validate credentials".

Definition get_current_user (s : Store) (now : Z) (t : token) : result User :=
  token_data ← decode_access_token now t;
  match token_data with
  | None => Raise credentials_exception
  | Some token_data =>
      user ← get_user_by_email s (token_username token_data);
      match user with
      | None => Raise credentials_exception
      | Some user => Return user
      end
  end.

(** [user.role]: the row of [roles] that [role_id] refers to. *)
Definition role (s : Store) (u : User) : option Role :=
  List.find (fun ro => role_pk ro =? role_id u) (roles s).

Definition RoleChecker (allowed_roles : list RoleEnum) (s : Store) (now : Z)
  (t : token) : result User :=
  user ← get_current_user s now t;
  match role s user with
  | None => Raise AttributeError
  | Some r =>
      if negb (existsb (String.eqb (name r)) (map value allowed_roles))
      then Raise forbidden
      else Return user
  end.

End UserRepository.

(** ** [src/auth/routers.py] and [src/contacts/routers.py]

    A handler takes the store and the clock of the request and returns
    its value together with the store it leaves, or raises; every handler
    raises before it writes, so a raise leaves the store as it was.  The
    rate limiter and the mail transport are taken to accept. *)

Section Routers.
Context {env : Environment}.

(** The second component is the verification token mailed to the user. *)
Definition register (s : Store) (now : Z) (user_create : UserCreate)
  : result (User * token * Store) :=
  user ← get_user_by_email s (Some (uc_email user_create));
  match user with
  | Some _ => Raise (HTTPException 409 "Email already registered")
  | None =>
      '(user, s') ← create_user s user_create;
      let verification_token := create_verification_token now (email user) in
      Return (user, verification_token, s')
  end.

Definition verify_email (s : Store) (now : Z) (t : token)
  : result (string * Store) :=
  e ← decode_verification_token now t;
  user ← get_user_by_email s e;
  match user with
  | None => Raise (HTTPException 404 "User not found")
  | Some user => Return ("Email verified successfully", activate_user s user)
  end.

Definition login_for_token (s : Store) (now : Z) (form_username form_password : string)
  : result (token * token) :=
  user ← get_user_by_email s (Some form_username);
  match user with
  | None => Raise (HTTPException 401 "Incorrect email or password")
  | Some user =>
      if negb (verify_password form_password (hashed_password user))
      then Raise (HTTPException 401 "Incorrect email or password")
      else
        let access_token :=
          create_access_token now {["sub" := JStr (email user)]} None in
        let refresh_token :=
          create_refresh_token now {["sub" := JStr (email user)]} None in
        Return (access_token, refresh_token)
  end.

(** The handler returns [None], which is not a [Token]. *)
Definition refresh_token : result (token * token) :=
  Raise ResponseValidationError.

(** [upload] is the answer of the image host: the [secure_url] of the
    stored file, if it gave one, or the exception it raised.  Whatever is
    raised inside the handler leaves it as a 500. *)
Definition update_avatar_user (s : Store) (now : Z) (t : token)
  (upload : result (option string)) : result (User * Store) :=
  current_user ← get_current_user s now t;
  let attempt :=
    url ← upload;
    match url with
    | None => Raise (HTTPException 500 "Failed to upload image to Cloudinary")
    | Some url =>
        if truthy url then update_avatar s (email current_user) url
        else Raise (HTTPException 500 "Failed to upload image to Cloudinary")
    end in
  match attempt with
  | Return r => Return r
  | Raise _ => Raise (HTTPException 500 "Failed to update avatar")
  end.

Definition create_contacts_route (s : Store) (now : Z) (t : token)
  (contact : ContactsCreate) : result (Contact * Store) :=
  _ ← RoleChecker [USER; ADMIN] s now t;
  current_user ← get_current_user s now t;
  create_contacts s contact (user_pk current_user).

Definition get_contacts_route (s : Store) (now : Z) (t : token)
  (limit offset : nat) : result (list Contact) :=
  _ ← RoleChecker [USER; ADMIN] s now t;
  current_user ← get_current_user s now t;
  Return (get_contacts s (user_pk current_user) limit offset).

Definition get_contacts_all_route (s : Store) (now : Z) (t : token)
  (limit offset : nat) : result (list Contact) :=
  _ ← RoleChecker [ADMIN] s now t;
  Return (get_contacts_all s limit offset).

Definition search_contacts_route (s : Store) (now : Z) (t : token)
  (query : string) : result (list Contact) :=
  _ ← RoleChecker [USER; ADMIN] s now t;
  current_user ← get_current_user s now t;
  Return (search_contacts s (user_pk current_user) query).

Definition delete_contact_route (s : Store) (now : Z) (t : token)
  (contact_id : Z) : result (string * Store) :=
  _ ← RoleChecker [ADMIN] s now t;
  contact ← get_contact_by_id s contact_id;
  match contact with
  | None => Raise (HTTPException 404 "Contact not found")
  | Some _ =>
      Return (("Contact " ++ pretty contact_id ++ " deleted")%string,
              delete_contact s contact_id)
  end.

Definition get_upcoming_birthdays_route (s : Store) (now : Z) (today : date)
  (t : token) (n : Z) : result (list Contact) :=
  current_user ← get_current_user s now t;
  get_upcoming_birthdays s today (user_pk current_user) n.

Definition update_contact_route (s : Store) (now : Z) (t : token)
  (identifier : string) (contact_update : ContactsCreate)
  : result (Contact * Store) :=
  current_user ← get_current_user s now t;
  '(updated_contact, s') ←
    update_contact s identifier (user_pk current_user) contact_update;
  match updated_contact with
  | Some c => Return (c, s')
  | None => Raise (HTTPException 404 "Contact not found")
  end.

End Routers.

(** ** The HTTP surface

    The status line of a response: the route's success code, the code of
    an [HTTPException], or 500 for any other exception that leaves the
    handler. *)

Definition status_of {A : Type} (success : Z) (r : result A) : Z :=
  match r with
  | Return _ => success
  | Raise (HTTPException code _) => code
  | Raise _ => 500
  end.

Inductive request : Type :=
| PostRegister (user_create : UserCreate)
| GetVerifyEmail (t : token)
| PostToken (form_username form_password : string)
| PostRefresh
| PatchAvatar (t : token) (upload : result (option string))
| PostContacts (t : token) (contact : ContactsCreate)
| GetContacts (t : token) (limit offset : nat)
| GetContactsAll (t : token) (limit offset : nat)
| GetContactsSearch (t : token) (query : string)
| DeleteContact (t : token) (contact_id : Z)
| GetUpcomingBirthdays (t : token) (n : Z)
| PutContact (t : token) (identifier : string) (contact_update : ContactsCreate)
| GetPing.

Record clock : Type := mkClock { utc_now : Z; today : date }.

Section App.
Context {env : Environment}.

(** The store a handler leaves; a raise leaves the one it found. *)
Definition commit {A : Type} (s : Store) (r : result (A * Store)) : Store :=
  match r with
  | Return (_, s') => s'
  | Raise _ => s
  end.

(** One request: its status code and the store after it. *)
Definition serve (clk : clock) (req : request) (s : Store) : Z * Store :=
  let now := utc_now clk in
  match req with
  | PostRegister uc =>
      let r := register s now uc in
      (status_of 201 r,
       match r with Return (_, _, s') => s' | Raise _ => s end)
  | GetVerifyEmail t =>
      let r := verify_email s now t in (status_of 200 r, commit s r)
  | PostToken u p => (status_of 201 (login_for_token s now u p), s)
  | PostRefresh => (status_of 201 refresh_token, s)
  | PatchAvatar t upload =>
      let r := update_avatar_user s now t upload in (status_of 200 r, commit s r)
  | PostContacts t c =>
      let r := create_contacts_route s now t c in (status_of 201 r, commit s r)
  | GetContacts t l o => (status_of 200 (get_contacts_route s now t l o), s)
  | GetContactsAll t l o =>
      (status_of 200 (get_contacts_all_route s now t l o), s)
  | GetContactsSearch t q =>
      (status_of 200 (search_contacts_route s now t q), s)
  | DeleteContact t i =>
      let r := delete_contact_route s now t i in (status_of 200 r, commit s r)
  | GetUpcomingBirthdays t n =>
      (status_of 200 (get_upcoming_birthdays_route s now (today clk) t n), s)
  | PutContact t i cu =>
      let r := update_contact_route s now t i cu in (status_of 200 r, commit s r)
  | GetPing => (200, s)
  end.

End App.

(** ** Vocabulary of the properties *)

(** The constraints that the schema puts on a store: primary keys and
    the [email] columns are unique, role names are unique, keys come from
    their sequences and every user refers to a role. *)
Record wf_store (s : Store) : Prop := mk_wf_store {
  wf_user_pk : List.NoDup (map user_pk (users s));
  wf_user_email : List.NoDup (map email (users s));
  wf_user_seq : forall u, In u (users s) -> user_pk u <= user_seq s;
  wf_contact_pk : List.NoDup (map contact_pk (contacts s));
  wf_contact_email : List.NoDup (map contact_email (contacts s));
  wf_contact_seq : forall c, In c (contacts s) -> contact_pk c <= contact_seq s;
  wf_role_pk : List.NoDup (map role_pk (roles s));
  wf_role_name : List.NoDup (map name (roles s));
  wf_user_role :
    forall u, In u (users s) -> exists r, In r (roles s) /\ role_pk r = role_id u
}.

(** The reference rows of [roles] are in place. *)
Definition roles_seeded (s : Store) : Prop :=
  forall r : RoleEnum, exists ro, In ro (roles s) /\ name ro = value r.

(** [q] occurs in [s] as a substring. *)
Fixpoint is_prefix (q s : list ascii) : bool :=
  match q, s with
  | [], _ => true
  | _ :: _, [] => false
  | a :: q', b :: s' => Ascii.eqb a b && is_prefix q' s'
  end.

Fixpoint contains (q s : list ascii) : bool :=
  is_prefix q s || match s with [] => false | _ :: s' => contains q s' end.

(** [query] occurs in [field] as a substring, letter case apart. *)
Definition icontains (query field : string) : bool :=
  contains (map Sql.lower (list_ascii_of_string query))
           (map Sql.lower (list_ascii_of_string field)).

(** The characters that [LIKE] does not read literally. *)
Definition is_wildcard (c : ascii) : bool :=
  Ascii.eqb c "%" || Ascii.eqb c "_" || Ascii.eqb c "\".

Definition no_wildcards (query : string) : bool :=
  forallb (fun c => negb (is_wildcard c)) (list_ascii_of_string query).

(** The store after a sequence of requests, each with its clock. *)
Definition run {env : Environment} (trace : list (clock * request))
  (s : Store) : Store :=
  fold_left (fun s cr => snd (serve (fst cr) (snd cr) s)) trace s.

(** An executable check of the constraints. *)
Fixpoint distinct_Z (l : list Z) : bool :=
  match l with
  | [] => true
  | x :: l' => negb (existsb (Z.eqb x) l') && distinct_Z l'
  end.

Fixpoint distinct_string (l : list string) : bool :=
  match l with
  | [] => true
  | x :: l' => negb (existsb (String.eqb x) l') && distinct_string l'
  end.

Definition check_store (s : Store) : bool :=
  distinct_Z (map user_pk (users s))
  && distinct_string (map email (users s))
  && forallb (fun u => user_pk u <=? user_seq s) (users s)
  && distinct_Z (map contact_pk (contacts s))
  && distinct_string (map contact_email (contacts s))
  && forallb (fun c => contact_pk c <=? contact_seq s) (contacts s)
  && distinct_Z (map role_pk (roles s))
  && distinct_string (map name (roles s))
  && forallb (fun u => existsb (fun r => role_pk r =? role_id u) (roles s))
       (users s).

Definition check_seeded (s : Store) : bool :=
  forallb (fun r => existsb (fun ro => String.eqb (name ro) (value r)) (roles s))
    [USER; ADMIN].

(** The same store with other activation flags. *)
Definition with_flags (f : User -> bool) (s : Store) : Store :=
  mkStore (roles s) (map (fun u => set_is_active (f u) u) (users s))
    (contacts s) (user_seq s) (contact_seq s).

(** The lifetime [create_access_token] is asked for. *)
Definition requested_lifetime (expires_delta : option Z) : Z :=
  match expires_delta with
  | Some d => d
  | None => minutes ACCESS_TOKEN_EXPIRE_MINUTES
  end.

(** ** Sample data *)

Definition ann : Contact :=
  mkContact 1 1 "Ann" "Lee" "ann@example.com" "555-0101"
    (mkdate 1990 6 3) None.

Definition ann_lee : Contact :=
  mkContact 2 1 "Ann Lee" "Moss" "al@example.com" "555-0102"
    (mkdate 1984 1 2) None.

Definition bob : Contact :=
  mkContact 3 2 "Bob" "Ray" "bob@example.com" "555-0103"
    (mkdate 1979 12 30) (Some "gym").

Definition alice : User :=
  mkUser 1 "alice" "alice@example.com" "$2b$wonderland" false None 1.

Definition root : User :=
  mkUser 2 "root" "root@example.com" "$2b$toor" true None 2.

Definition sample_store : Store :=
  mkStore [mkRole 1 "user"; mkRole 2 "admin"] [alice; root]
    [ann; ann_lee; bob] 2 3.

(** ** Vocabulary of the token properties *)

Section TokenVocabulary.
Context {env : Environment}.

(** The token carries the service's algorithm and the signature that the
    service's secret gives its payload. *)
Definition validly_signed (t : token) : Prop :=
  exists payload,
    t = Compact ALGORITHM payload (hs256 SECRET_KEY ALGORITHM payload).

(** The payload's [exp], in whole seconds, is before the second of [now]. *)
Definition expired (payload : claims) (now : Z) : Prop :=
  exists v e,
    payload !! "exp" = Some v /\ claim_int v = Some e /\ e < seconds now.

End TokenVocabulary.

Definition sample_now : Z := 1700000000000000.

Definition sample_clock : clock := mkClock sample_now (mkdate 2023 11 14).

Definition alice_token : token :=
  @create_access_token toy_env sample_now {["sub" := JStr "alice@example.com"]}
    None.

Definition root_token : token :=
  @create_access_token toy_env sample_now {["sub" := JStr "root@example.com"]}
    None.


(** An update of contact 1 that asks for the address of contact 2. *)
Definition taken_email_update : ContactsCreate :=
  mkContactsCreate "Ann" "Lee" "al@example.com" "555-0101"
    (mkdate 1990 6 3) None.

Definition alice_verification_token : token :=
  @create_verification_token toy_env sample_now "alice@example.com".

(** ** Further repository functions and vocabulary *)

Definition get_contact_by_id_and_owner (s : Store) (owner contact_id : Z)
  : result (option Contact) :=
  Sql.scalar_one_or_none
    (List.filter
       (fun c => (owner_id c =? owner) && (contact_pk c =? contact_id))
       (contacts s)).

(** The token that a request presents, on the routes that authenticate. *)
Definition bearer (req : request) : option token :=
  match req with
  | PatchAvatar t _ | PostContacts t _ | GetContacts t _ _
  | GetContactsAll t _ _ | GetContactsSearch t _ | DeleteContact t _
  | GetUpcomingBirthdays t _ | PutContact t _ _ => Some t
  | PostRegister _ | GetVerifyEmail _ | PostToken _ _ | PostRefresh
  | GetPing => None
  end.

(** The number of days of a year. *)
Definition year_length (y : Z) : Z := if is_leap y then 366 else 365.

(** The rows of [contacts] after the update of the row with key [pk]. *)
Definition updated_rows (cu : ContactsCreate) (pk : Z) (l : list Contact)
  : list Contact :=
  map (fun c => if contact_pk c =? pk then apply_update cu c else c) l.

(** A page of a list of rows: [OFFSET offset LIMIT limit]. *)
Definition page {A : Type} (limit offset : nat) (rows : list A) : list A :=
  take limit (drop offset rows).

(** A string in lower case. *)
Definition lower_string (q : string) : string :=
  string_of_list_ascii (map Sql.lower (list_ascii_of_string q)).

(** The contacts of an owner, in table order. *)
Definition owned_contacts (s : Store) (owner : Z) : list Contact :=
  List.filter (fun c => owner_id c =? owner) (contacts s).

(** ** Further sample data *)

Definition alice_refresh_token : token :=
  @create_refresh_token toy_env sample_now {["sub" := JStr "alice@example.com"]}
    None.

Definition carol_create : UserCreate :=
  mkUserCreate "carol" "carol@example.com" "pw" USER.

Definition carol : User :=
  mkUser 3 "carol" "carol@example.com" "$2b$pw" false None 1.

Definition carol_verification_token : token :=
  @create_verification_token toy_env sample_now "carol@example.com".

Definition store_with_carol : Store :=
  mkStore (roles sample_store) [alice; root; carol] (contacts sample_store) 3 3.

Definition dan_create : ContactsCreate :=
  mkContactsCreate "Dan" "Poe" "dan@example.com" "555-0104"
    (mkdate 2001 2 28) (Some "met at work").

Definition dan : Contact :=
  mkContact 4 1 "Dan" "Poe" "dan@example.com" "555-0104"
    (mkdate 2001 2 28) (Some "met at work").

Definition store_with_dan : Store :=
  mkStore (roles sample_store) (users sample_store) [ann; ann_lee; bob; dan] 2 4.

(** An update of contact 1 that keeps its address. *)
Definition ann_update : ContactsCreate :=
  mkContactsCreate "Anne" "Lee" "ann@example.com" "555-0199"
    (mkdate 1990 6 3) None.

Definition anne : Contact :=
  mkContact 1 1 "Anne" "Lee" "ann@example.com" "555-0199"
    (mkdate 1990 6 3) None.

Definition store_with_anne : Store :=
  mkStore (roles sample_store) (users sample_store) [anne; ann_lee; bob] 2 3.

(** * Properties *)

(** ** Python text and calendar functions on known values *)

Example int_examples :
  PyInt.int " 42 " = Some 42 /\ PyInt.int "-1_000" = Some (-1000) /\
  PyInt.int "+7" = Some 7 /\ PyInt.int "4_" = None /\ PyInt.int "" = None /\
  PyInt.int "Ann" = None /\ PyInt.int "1__0" = None /\ PyInt.int "- 1" = None.
Proof. vm_compute. repeat split. Qed.

(** The white space of [int] is the blank and the characters 9 to 13:
    the separators 28 to 31, which [str.strip] drops, are not part of
    it.  Above ASCII the decimal digits of every script and the Unicode
    blanks are read; superscripts and other digits that are not decimal
    are not. *)
Example int_code_points :
  PyInt.int (String (ascii_of_nat 9) "2") = Some 2 /\
  PyInt.int (String (ascii_of_nat 13) "2") = Some 2 /\
  PyInt.int (String (ascii_of_nat 28) "2") = None /\
  PyInt.int (String (ascii_of_nat 31) "2") = None /\
  PyInt.int (String (ascii_of_nat 0) "2") = None /\
  PyInt.int "２" = Some 2 /\
  PyInt.int "-٣" = Some (-3) /\
  PyInt.int "1_٢" = Some 12 /\
  PyInt.int "　2　" = Some 2 /\
  PyInt.int "²" = None /\
  PyInt.int "2é" = None /\
  PyInt.int (String (ascii_of_nat 255) "2") = None.
Proof. vm_compute. repeat split. Qed.

(** A literal of 4300 digits is read and one of 4301 digits is refused;
    underscores and blanks do not count. *)
Example int_digit_limit :
  PyInt.int (string_of_list_ascii (repeat "0"%char 4300)) = Some 0 /\
  PyInt.int (string_of_list_ascii (repeat "0"%char 4301)) = None /\
  PyInt.int (string_of_list_ascii
               (repeat " "%char 4300 ++ repeat "0"%char 4300)) = Some 0 /\
  PyInt.int (string_of_list_ascii
               ("1"%char :: concat (repeat ["_"; "0"]%char 4300))) = None.
Proof. vm_compute. repeat split. Qed.

Example calendar_examples :
  ymd2ord (mkdate 9999 12 31) = MAXORDINAL /\
  ord2ymd 738000 = mkdate 2021 7 29 /\
  ord2ymd 730179 = mkdate 2000 2 29 /\
  ord2ymd 730910 = mkdate 2002 3 1 /\
  ord2ymd 1 = mkdate 1 1 1 /\
  tm_yday (mkdate 2024 12 31) = 366 /\
  add_days (mkdate 2023 12 28) 7 = Some (mkdate 2024 1 4) /\
  add_days (mkdate 9999 12 28) 7 = None.
Proof. vm_compute. repeat split. Qed.

(** ** The calendar

    [ord2ymd] inverts [ymd2ord] on the ordinals of the calendar and
    returns dates that exist. *)

Lemma month_day_table (leapyear : bool) :
  forallb (month_day_ok leapyear)
    (map Z.of_nat (seq 0 (if leapyear then 366 else 365))) = true.
Proof. destruct leapyear; vm_compute; reflexivity. Qed.

Lemma month_day_spec (leapyear : bool) (n : Z) :
  0 <= n < (if leapyear then 366 else 365) ->
  month_day_ok leapyear n = true.
Proof.
  intros Hn. pose proof (month_day_table leapyear) as H.
  rewrite List.forallb_forall in H. apply H.
  apply List.in_map_iff. exists (Z.to_nat n). split; [lia |].
  apply List.in_seq. destruct leapyear; lia.
Qed.

Lemma ord2ymd_eq (n0 : Z) :
  ord2ymd n0 =
  let n := n0 - 1 in
  let n400 := n / DI400Y in
  let n := n mod DI400Y in
  let n100 := n / DI100Y in
  let n := n mod DI100Y in
  let n4 := n / DI4Y in
  let n := n mod DI4Y in
  let n1 := n / 365 in
  let n := n mod 365 in
  let y := n400 * 400 + 1 + n100 * 100 + n4 * 4 + n1 in
  if (n1 =? 4) || (n100 =? 4) then mkdate (y - 1) 12 31
  else
    let leapyear := (n1 =? 3) && (negb (n4 =? 24) || (n100 =? 3)) in
    let '(m, d) := month_day leapyear n in mkdate y m d.
Proof.
  unfold ord2ymd, month_day. cbv zeta.
  destruct ((_ =? 4) || (_ =? 4)); [reflexivity |].
  match goal with |- context [if ?c then _ else _] => destruct c end; reflexivity.
Qed.


Lemma is_leap_true (y : Z) :
  is_leap y = true <-> y mod 4 = 0 /\ (y mod 100 <> 0 \/ y mod 400 = 0).
Proof.
  unfold is_leap.
  rewrite andb_true_iff, orb_true_iff, negb_true_iff, !Z.eqb_eq, Z.eqb_neq.
  tauto.
Qed.

(** The year that starts [365 * n1] days into the [n4]-th four-year
    cycle of the [n100]-th century of the [n400]-th 400-year cycle. *)
Lemma year_decomposition (n400 n100 n4 n1 : Z) :
  0 <= n400 -> 0 <= n100 <= 3 -> 0 <= n4 <= 24 -> 0 <= n1 <= 3 ->
  let y := n400 * 400 + 1 + n100 * 100 + n4 * 4 + n1 in
  days_before_year y = 146097 * n400 + 36524 * n100 + 1461 * n4 + 365 * n1 /\
  is_leap y = (n1 =? 3) && (negb (n4 =? 24) || (n100 =? 3)).
Proof.
  intros H400 H100 H4 H1 y. split.
  - unfold days_before_year. subst y. Z.div_mod_to_equations. lia.
  - apply Bool.eq_iff_eq_true.
    rewrite is_leap_true, andb_true_iff, orb_true_iff, negb_true_iff,
      !Z.eqb_eq, Z.eqb_neq.
    subst y. Z.div_mod_to_equations. lia.
Qed.

Theorem ymd2ord_ord2ymd (n0 : Z) :
  1 <= n0 <= MAXORDINAL ->
  valid_date (ord2ymd n0) = true /\ ymd2ord (ord2ymd n0) = n0.
Proof.
  intros Hn. rewrite ord2ymd_eq. cbv zeta.
  unfold DI400Y, DI100Y, DI4Y, MAXORDINAL in *.
  set (n := n0 - 1).
  set (n400 := n / 146097). set (r400 := n mod 146097).
  set (n100 := r400 / 36524). set (r100 := r400 mod 36524).
  set (n4 := r100 / 1461). set (r4 := r100 mod 1461).
  set (n1 := r4 / 365). set (r1 := r4 mod 365).
  assert (H400 : n = 146097 * n400 + r400 /\ 0 <= r400 < 146097)
    by (subst n400 r400; split; [apply Z.div_mod | apply Z.mod_pos_bound]; lia).
  assert (H100 : r400 = 36524 * n100 + r100 /\ 0 <= r100 < 36524)
    by (subst n100 r100; split; [apply Z.div_mod | apply Z.mod_pos_bound]; lia).
  assert (H4 : r100 = 1461 * n4 + r4 /\ 0 <= r4 < 1461)
    by (subst n4 r4; split; [apply Z.div_mod | apply Z.mod_pos_bound]; lia).
  assert (H1 : r4 = 365 * n1 + r1 /\ 0 <= r1 < 365)
    by (subst n1 r1; split; [apply Z.div_mod | apply Z.mod_pos_bound]; lia).
  clearbody n400 r400 n100 r100 n4 r4 n1 r1. subst n.
  change (DAYS_BEFORE_MONTH 12) with 334.
  assert (B400 : 0 <= n400 <= 24) by lia.
  assert (B100 : 0 <= n100 <= 4) by lia.
  assert (B4 : 0 <= n4 <= 24) by lia.
  assert (B1 : 0 <= n1 <= 4) by lia.
  destruct (Z.eqb_spec n1 4) as [E1 | E1]; simpl.
  - (* the last day of a leap year that ends a four-year cycle *)
    destruct (year_decomposition n400 n100 n4 3) as [Hd Hl]; try lia.
    cbv zeta in Hd, Hl.
    replace (n400 * 400 + 1 + n100 * 100 + n4 * 4 + n1 - 1)
      with (n400 * 400 + 1 + n100 * 100 + n4 * 4 + 3) by lia.
    assert (Hleap : is_leap (n400 * 400 + 1 + n100 * 100 + n4 * 4 + 3) = true).
    { rewrite Hl. simpl. destruct (Z.eqb_spec n4 24); simpl; [lia | reflexivity]. }
    unfold valid_date, ymd2ord, days_before_month, days_in_month,
      MINYEAR, MAXYEAR. simpl. rewrite Hd, Hleap.
    change (DAYS_BEFORE_MONTH 12) with 334.
    change (DAYS_IN_MONTH 12) with 31. simpl. split; [| lia].
    rewrite !andb_true_iff, !Z.leb_le. lia.
  - destruct (Z.eqb_spec n100 4) as [E100 | E100]; simpl.
    + (* the last day of a 400-year cycle *)
      assert (n4 = 0 /\ n1 = 0 /\ r1 = 0) as (-> & -> & ->) by lia.
      destruct (year_decomposition n400 3 24 3) as [Hd Hl]; try lia.
      cbv zeta in Hd, Hl. subst n100.
      replace (n400 * 400 + 1 + 4 * 100 + 0 * 4 + 0 - 1)
        with (n400 * 400 + 1 + 3 * 100 + 24 * 4 + 3) by lia.
      unfold valid_date, ymd2ord, days_before_month, days_in_month,
        MINYEAR, MAXYEAR. simpl. rewrite Hd, Hl.
      change (DAYS_BEFORE_MONTH 12) with 334.
    change (DAYS_IN_MONTH 12) with 31. simpl. split; [| lia].
      rewrite !andb_true_iff, !Z.leb_le. lia.
    + destruct (year_decomposition n400 n100 n4 n1) as [Hd Hl]; try lia.
      cbv zeta in Hd, Hl.
      set (leapyear := (n1 =? 3) && (negb (n4 =? 24) || (n100 =? 3))) in *.
      assert (Hmd : month_day_ok leapyear r1 = true)
        by (apply month_day_spec; destruct leapyear; lia).
      unfold month_day_ok in Hmd.
      destruct (month_day leapyear r1) as [m d].
      rewrite !andb_true_iff, !Z.leb_le, Z.eqb_eq in Hmd.
      destruct Hmd as ((((Hm1 & Hm12) & Hd1) & Hdm) & Hsum).
      unfold valid_date, ymd2ord, days_before_month, days_in_month,
        MINYEAR, MAXYEAR. simpl. rewrite Hd, Hl. split.
      * rewrite !andb_true_iff, !Z.leb_le. repeat split; try lia.
        destruct ((m =? 2) && leapyear) eqn:E2.
        -- apply andb_true_iff in E2. destruct E2 as [E2 _].
           apply Z.eqb_eq in E2. subst m.
           change (DAYS_IN_MONTH 2) with 28 in Hdm. lia.
        -- lia.
      * lia.
Qed.

(** Adding days moves the ordinal by that many days. *)
Corollary add_days_ordinal (d d' : date) (n : Z) :
  add_days d n = Some d' ->
  valid_date d' = true /\ ymd2ord d' = ymd2ord d + n.
Proof.
  unfold add_days.
  destruct (Z.leb_spec (Z.abs n) MAX_DELTA_DAYS); simpl; [| discriminate].
  destruct (Z.ltb_spec 0 (ymd2ord d + n)); simpl; [| discriminate].
  destruct (Z.leb_spec (ymd2ord d + n) MAXORDINAL); simpl; [| discriminate].
  intros Heq. inversion Heq; subst. apply ymd2ord_ord2ymd. lia.
Qed.

(** ** Generic facts about queries *)

Lemma filter_In_iff {A : Type} (f : A -> bool) (l : list A) (x : A) :
  In x (List.filter f l) <-> In x l /\ f x = true.
Proof. apply List.filter_In. Qed.

Lemma scalar_one_or_none_None {A : Type} (rows : list A) :
  Sql.scalar_one_or_none rows = Return None <-> rows = [].
Proof.
  destruct rows as [|a [|b rows]]; simpl; split; intros H;
    try reflexivity; try discriminate.
Qed.

Lemma scalar_one_or_none_Some {A : Type} (rows : list A) (a : A) :
  Sql.scalar_one_or_none rows = Return (Some a) <-> rows = [a].
Proof.
  destruct rows as [|b [|c rows]]; simpl; split; intros H;
    try discriminate; congruence.
Qed.

Lemma scalar_one_or_none_Raise {A : Type} (rows : list A) (e : exn) :
  Sql.scalar_one_or_none rows = Raise e <->
  e = MultipleResultsFound /\ (2 <= length rows)%nat.
Proof.
  destruct rows as [|b [|c rows]]; simpl; split.
  all: try (intros H; discriminate).
  all: try (intros [_ H]; lia).
  - intros H. inversion H. split; [reflexivity | lia].
  - intros [-> _]. reflexivity.
Qed.

Lemma existsb_eqb_In (x : string) (l : list string) :
  existsb (String.eqb x) l = true <-> In x l.
Proof.
  rewrite List.existsb_exists. split.
  - intros (y & Hy & He). apply String.eqb_eq in He. subst y. exact Hy.
  - intros Hx. exists x. split; [exact Hx | apply String.eqb_refl].
Qed.

Lemma NoDup_key_inj {A : Type} (key : A -> Z) (l : list A) (x y : A) :
  List.NoDup (map key l) -> In x l -> In y l -> key x = key y -> x = y.
Proof.
  induction l as [|a l IH]; intros Hnd Hx Hy Hk; [destruct Hx |].
  simpl in Hnd. apply List.NoDup_cons_iff in Hnd. destruct Hnd as [Hna Hnd].
  destruct Hx as [<- | Hx], Hy as [<- | Hy]; auto.
  - exfalso. apply Hna. rewrite Hk. apply List.in_map. exact Hy.
  - exfalso. apply Hna. rewrite <- Hk. apply List.in_map. exact Hx.
Qed.

(** ** The executable check of the constraints is sound *)

Lemma distinct_Z_NoDup (l : list Z) : distinct_Z l = true -> List.NoDup l.
Proof.
  induction l as [|x l IH]; simpl; intros H; [apply List.NoDup_nil |].
  apply andb_true_iff in H. destruct H as [Hx Hl].
  apply List.NoDup_cons; [| exact (IH Hl)].
  intros Hin. apply negb_true_iff in Hx.
  assert (existsb (Z.eqb x) l = true)
    by (apply List.existsb_exists; exists x; split; [exact Hin | apply Z.eqb_refl]).
  congruence.
Qed.

Lemma distinct_string_NoDup (l : list string) :
  distinct_string l = true -> List.NoDup l.
Proof.
  induction l as [|x l IH]; simpl; intros H; [apply List.NoDup_nil |].
  apply andb_true_iff in H. destruct H as [Hx Hl].
  apply List.NoDup_cons; [| exact (IH Hl)].
  intros Hin. apply negb_true_iff in Hx.
  assert (existsb (String.eqb x) l = true) by (apply existsb_eqb_In; exact Hin).
  congruence.
Qed.

Lemma check_store_sound (s : Store) : check_store s = true -> wf_store s.
Proof.
  unfold check_store. rewrite !andb_true_iff, !List.forallb_forall.
  intros ((((((((H1 & H2) & H3) & H4) & H5) & H6) & H7) & H8) & H9).
  constructor; auto using distinct_Z_NoDup, distinct_string_NoDup.
  - intros u Hu. apply Z.leb_le. auto.
  - intros c Hc. apply Z.leb_le. auto.
  - intros u Hu. specialize (H9 u Hu). apply List.existsb_exists in H9.
    destruct H9 as (r & Hr & He). apply Z.eqb_eq in He. exists r. auto.
Qed.

Lemma check_seeded_sound (s : Store) : check_seeded s = true -> roles_seeded s.
Proof.
  unfold check_seeded. rewrite List.forallb_forall. intros H r.
  assert (Hr : In r [USER; ADMIN]) by (destruct r; simpl; auto).
  specialize (H r Hr). apply List.existsb_exists in H.
  destruct H as (ro & Hro & He). apply String.eqb_eq in He. exists ro. auto.
Qed.

Lemma sample_store_wf : wf_store sample_store.
Proof. apply check_store_sound. vm_compute. reflexivity. Qed.

Lemma sample_store_seeded : roles_seeded sample_store.
Proof. apply check_seeded_sound. vm_compute. reflexivity. Qed.

(** ** Upcoming birthdays *)

Lemma birthday_match_true (owner a b : Z) (c : Contact) :
  birthday_match owner a b c = true <->
  owner_id c = owner /\
  ((a <= b /\ a <= tm_yday (birthday c) <= b) \/
   (b < a /\ (a <= tm_yday (birthday c) \/ tm_yday (birthday c) <= b))).
Proof.
  unfold birthday_match.
  destruct (Z.leb_spec a b) as [Hab | Hab];
    rewrite ?andb_true_iff, ?orb_true_iff, ?Z.eqb_eq, ?Z.leb_le; lia.
Qed.

(** The addition of days raises exactly when the day count does not fit a
    [timedelta] or the sum leaves the calendar. *)
Lemma add_days_defined (d : date) (n : Z) :
  is_Some (add_days d n) <->
  Z.abs n <= MAX_DELTA_DAYS /\ 0 < ymd2ord d + n <= MAXORDINAL.
Proof.
  unfold add_days.
  destruct (Z.leb_spec (Z.abs n) MAX_DELTA_DAYS),
           (Z.ltb_spec 0 (ymd2ord d + n)),
           (Z.leb_spec (ymd2ord d + n) MAXORDINAL); simpl;
    split; intros Hs; try (eexists; reflexivity); try lia;
    destruct Hs as [x Hx]; discriminate.
Qed.



(** Two contacts of the owner whose birthdays fall on the same day of the
    year, in whatever years, are selected together. *)
Lemma birthday_year_irrelevant
  (s : Store) (today : date) (owner n : Z) (l : list Contact) (c c' : Contact) :
  get_upcoming_birthdays s today owner n = Return l ->
  In c (contacts s) -> In c' (contacts s) ->
  owner_id c = owner_id c' ->
  tm_yday (birthday c) = tm_yday (birthday c') ->
  In c l <-> In c' l.
Proof.
  unfold get_upcoming_birthdays.
  destruct (add_days today n) as [up|]; [| discriminate].
  intros H Hc Hc' Ho Hd. inversion H; subst l; clear H.
  rewrite !filter_In_iff, !birthday_match_true, Ho, Hd. tauto.
Qed.

(** The two windows of the spec: June 1 and seven days stay inside the
    year; December 28 and seven days pass its end and select January 2. *)
Example birthday_window_june :
  get_upcoming_birthdays sample_store (mkdate 2023 6 1) 1 7 = Return [ann] /\
  tm_yday (mkdate 2023 6 1) = 152 /\ tm_yday (mkdate 2023 6 8) = 159.
Proof. vm_compute. repeat split. Qed.

Example birthday_window_december :
  get_upcoming_birthdays sample_store (mkdate 2023 12 28) 1 7
    = Return [ann_lee] /\
  get_upcoming_birthdays sample_store (mkdate 2023 12 28) 2 7 = Return [bob] /\
  tm_yday (mkdate 2023 12 28) = 362 /\ tm_yday (mkdate 2024 1 4) = 4.
Proof. vm_compute. repeat split. Qed.

(** ** Identifier resolution *)

Lemma eq_opt_Z_true (col : Z) (v : option Z) :
  Sql.eq_opt_Z col v = true <-> v = Some col.
Proof.
  destruct v as [n|]; simpl.
  - rewrite Z.eqb_eq. split; intros H; [subst | inversion H]; reflexivity.
  - split; discriminate.
Qed.

Lemma eq_opt_string_true (col : string) (v : option string) :
  Sql.eq_opt_string col v = true <-> v = Some col.
Proof.
  destruct v as [x|]; simpl.
  - rewrite String.eqb_eq. split; intros H; [subst | inversion H]; reflexivity.
  - split; discriminate.
Qed.

(** The condition of the query: the row is the owner's and one of the
    four comparisons holds. *)
Lemma find_match_true (owner : Z) (identifier : string) (c : Contact) :
  find_match owner identifier c = true <->
  owner_id c = owner /\
  (PyInt.int identifier = Some (contact_pk c) \/
   contact_email c = identifier \/
   first_name c = identifier \/
   (first_name c ++ " " ++ last_name c)%string = identifier).
Proof.
  unfold find_match.
  rewrite andb_true_iff, !orb_true_iff, Z.eqb_eq, eq_opt_Z_true,
    !String.eqb_eq.
  tauto.
Qed.

(** A filter keeps two rows in the order of the table. *)
Lemma filter_two {A : Type} (f : A -> bool) (pre mid post : list A) (x y : A) :
  f x = true -> f y = true ->
  (2 <= length (List.filter f (pre ++ x :: mid ++ y :: post)%list))%nat.
Proof.
  intros Hx Hy.
  rewrite List.filter_app, List.length_app. simpl. rewrite Hx. simpl.
  rewrite List.filter_app, List.length_app. simpl. rewrite Hy. simpl. lia.
Qed.

Lemma filter_none {A : Type} (f : A -> bool) (l : list A) :
  (forall x, In x l -> f x = false) -> List.filter f l = [].
Proof.
  induction l as [|a l IH]; intros H; [reflexivity |].
  simpl. rewrite (H a (or_introl eq_refl)). apply IH.
  intros x Hx. apply H. right. exact Hx.
Qed.

(** A filter keeps one row exactly when that row of the table passes and
    the rows before it and after it do not. *)
Lemma filter_one {A : Type} (f : A -> bool) (l : list A) (x : A) :
  List.filter f l = [x] <->
  exists pre post,
    l = (pre ++ x :: post)%list /\ f x = true /\
    forall y, In y (pre ++ post)%list -> f y = false.
Proof.
  split.
  - induction l as [|a l IH]; simpl; [discriminate |].
    destruct (f a) eqn:Ea; intros H.
    + injection H as -> Hl. exists [], l.
      split; [reflexivity |]. split; [exact Ea |].
      simpl. intros y Hy. destruct (f y) eqn:Ey; [| reflexivity].
      assert (Hin : In y (List.filter f l)) by (apply filter_In_iff; auto).
      rewrite Hl in Hin. destruct Hin.
    + destruct (IH H) as (pre & post & -> & Hx & Hn).
      exists (a :: pre), post.
      split; [reflexivity |]. split; [exact Hx |].
      simpl. intros y [<- | Hy]; [exact Ea | apply Hn; exact Hy].
  - intros (pre & post & -> & Hx & Hn).
    rewrite List.filter_app. simpl. rewrite Hx.
    rewrite (filter_none f pre), (filter_none f post); [reflexivity | |];
      intros y Hy; apply Hn, List.in_or_app; auto.
Qed.

(** Two rows that a filter keeps stand at two places of the table. *)
Lemma filter_two_split {A : Type} (f : A -> bool) (l : list A) :
  (2 <= length (List.filter f l))%nat ->
  exists pre mid post x y,
    l = (pre ++ x :: mid ++ y :: post)%list /\ f x = true /\ f y = true.
Proof.
  induction l as [|a l IH]; simpl; [lia |].
  destruct (f a) eqn:Ea; simpl; intros H.
  - destruct (List.filter f l) as [|y r] eqn:El; [simpl in H; lia |].
    assert (Hy : In y (List.filter f l)) by (rewrite El; left; reflexivity).
    apply filter_In_iff in Hy. destruct Hy as [Hy Hfy].
    apply List.in_split in Hy. destruct Hy as (mid & post & ->).
    exists [], mid, post, a, y. auto.
  - destruct (IH H) as (pre & mid & post & x & y & -> & Hx & Hy).
    exists (a :: pre), mid, post, x, y. auto.
Qed.

(** C2 (as amended): the identifier is read as an integer where it parses;
    a contact matches when it is the owner's and its id is that integer,
    or its email, its first name or "first last" is the identifier.  The
    lookup returns [None] exactly when no contact matches, returns a
    contact exactly when that contact is the only row that matches, and
    raises, always [MultipleResultsFound], exactly when two rows match:
    no first match is picked. *)
Theorem find_contact_resolution (s : Store) (owner : Z) (identifier : string) :
  (forall c, find_match owner identifier c = true <->
     owner_id c = owner /\
     (PyInt.int identifier = Some (contact_pk c) \/
      contact_email c = identifier \/
      first_name c = identifier \/
      (first_name c ++ " " ++ last_name c)%string = identifier)) /\
  (find_contact s owner identifier = Return None <->
   forall c, In c (contacts s) -> find_match owner identifier c = false) /\
  (forall c, find_contact s owner identifier = Return (Some c) <->
     exists pre post,
       contacts s = (pre ++ c :: post)%list /\
       find_match owner identifier c = true /\
       forall c', In c' (pre ++ post)%list ->
         find_match owner identifier c' = false) /\
  (forall c, find_contact s owner identifier = Return (Some c) ->
     In c (contacts s) /\ owner_id c = owner /\
     (PyInt.int identifier = Some (contact_pk c) \/
      contact_email c = identifier \/
      first_name c = identifier \/
      (first_name c ++ " " ++ last_name c)%string = identifier) /\
     forall c', In c' (contacts s) ->
       find_match owner identifier c' = true -> c' = c) /\
  (forall e, find_contact s owner identifier = Raise e <->
     e = MultipleResultsFound /\
     exists pre mid post c1 c2,
       contacts s = (pre ++ c1 :: mid ++ c2 :: post)%list /\
       find_match owner identifier c1 = true /\
       find_match owner identifier c2 = true) /\
  (forall (pre mid post : list Contact) (c1 c2 : Contact),
     contacts s = (pre ++ c1 :: mid ++ c2 :: post)%list ->
     find_match owner identifier c1 = true ->
     find_match owner identifier c2 = true ->
     find_contact s owner identifier = Raise MultipleResultsFound).
Proof.
  unfold find_contact.
  split; [intros c; apply find_match_true |].
  split; [| split; [| split; [| split]]].
  - rewrite scalar_one_or_none_None. split.
    + intros H c Hc.
      destruct (find_match owner identifier c) eqn:E; [| reflexivity].
      assert (Hin : In c (List.filter (find_match owner identifier) (contacts s)))
        by (apply filter_In_iff; auto).
      rewrite H in Hin. destruct Hin.
    + apply filter_none.
  - intros c. rewrite scalar_one_or_none_Some. apply filter_one.
  - intros c H. apply scalar_one_or_none_Some in H.
    assert (Hin : In c (List.filter (find_match owner identifier) (contacts s)))
      by (rewrite H; left; reflexivity).
    apply filter_In_iff in Hin. destruct Hin as [Hc Hm].
    apply find_match_true in Hm. destruct Hm as [Ho Hm].
    split; [exact Hc |]. split; [exact Ho |]. split; [exact Hm |].
    intros c' Hc' Hm'.
    assert (Hin : In c' (List.filter (find_match owner identifier) (contacts s)))
      by (apply filter_In_iff; auto).
    rewrite H in Hin. destruct Hin as [-> | []]. reflexivity.
  - intros e. rewrite scalar_one_or_none_Raise. split.
    + intros [-> H]. split; [reflexivity |]. apply filter_two_split, H.
    + intros [-> (pre & mid & post & c1 & c2 & Hs & H1 & H2)].
      split; [reflexivity |]. rewrite Hs. apply filter_two; assumption.
  - intros pre mid post c1 c2 Hs H1 H2.
    apply scalar_one_or_none_Raise. split; [reflexivity |].
    rewrite Hs. apply filter_two; assumption.
Qed.

Lemma find_contact_resolution_witness :
  find_contact sample_store 1 "2" = Return (Some ann_lee) /\
  PyInt.int "2" = Some (contact_pk ann_lee) /\
  find_contact sample_store 1 "Ann Lee" = Raise MultipleResultsFound /\
  forall e, find_contact sample_store 1 "Ann" <> Raise e.
Proof.
  pose proof (find_contact_resolution sample_store 1 "2")
    as (_ & _ & Hone & Hsome & _).
  pose proof (find_contact_resolution sample_store 1 "Ann Lee")
    as (_ & _ & _ & _ & _ & Htwo).
  pose proof (find_contact_resolution sample_store 1 "Ann")
    as (_ & _ & Hann & _).
  assert (H2 : find_contact sample_store 1 "2" = Return (Some ann_lee)).
  { apply Hone. exists [ann], [bob]. split; [reflexivity |].
    split; [vm_compute; reflexivity |].
    intros c' [<- | [<- | []]]; vm_compute; reflexivity. }
  split; [exact H2 |]. split; [| split].
  - destruct (Hsome ann_lee H2) as (_ & _ & [Hid | [He | [He | He]]] & _);
      [exact Hid | discriminate He | discriminate He | discriminate He].
  - apply (Htwo [] [] [bob] ann ann_lee); reflexivity.
  - intros e He.
    assert (H1 : find_contact sample_store 1 "Ann" = Return (Some ann)).
    { apply Hann. exists [], [ann_lee; bob]. split; [reflexivity |].
      split; [vm_compute; reflexivity |].
      intros c' [<- | [<- | []]]; vm_compute; reflexivity. }
    rewrite H1 in He. discriminate He.
Defined.

(** C2 (as stated) fails: "Ann Lee" is the full name of one contact of
    owner 1 and the first name of another; the lookup raises instead of
    returning the first of them. *)
Lemma find_contact_first_match_refuted :
  List.filter (find_match 1 "Ann Lee") (contacts sample_store) = [ann; ann_lee] /\
  find_contact sample_store 1 "Ann Lee" = Raise MultipleResultsFound /\
  find_contact sample_store 1 "Ann Lee" <> Return (Some ann).
Proof.
  assert (H : find_contact sample_store 1 "Ann Lee" = Raise MultipleResultsFound)
    by (vm_compute; reflexivity).
  split; [vm_compute; reflexivity |].
  split; [exact H |]. rewrite H. discriminate.
Qed.

(** The identifier is parsed as [int] parses it: digits of another script
    name the contact of that id, and a separator that only [str.strip]
    drops leaves the identifier a name that no contact has. *)
Example find_contact_parsed_identifier :
  find_contact sample_store 1 "２" = Return (Some ann_lee) /\
  find_contact sample_store 1 "٠٠٢" = Return (Some ann_lee) /\
  find_contact sample_store 1 (String (ascii_of_nat 28) "2") = Return None /\
  find_contact sample_store 1 "2_" = Return None.
Proof. vm_compute. repeat split. Qed.

Example find_contact_examples :
  find_contact sample_store 1 "2" = Return (Some ann_lee) /\
  find_contact sample_store 1 " 2 " = Return (Some ann_lee) /\
  find_contact sample_store 1 "Ann" = Return (Some ann) /\
  find_contact sample_store 1 "al@example.com" = Return (Some ann_lee) /\
  find_contact sample_store 1 "3" = Return None /\
  find_contact sample_store 2 "Bob Ray" = Return (Some bob).
Proof. vm_compute. repeat split. Qed.

(** ** Token service *)

Section TokenProofs.
Context {env : Environment}.

Lemma seconds_mono (a b : Z) : a <= b -> seconds a <= seconds b.
Proof. intros H. unfold seconds. apply Z.div_le_mono; lia. Qed.

Lemma algorithm_allowed : existsb (String.eqb ALGORITHM) [ALGORITHM] = true.
Proof. reflexivity. Qed.

(** Every failure of [jwt_decode] is a [JWTError]. *)
Lemma jwt_decode_raises_JWTError
  (t : token) (key : string) (algs : list string) (now : Z) (e : exn) :
  jwt_decode t key algs now = Raise e -> e = JWTError.
Proof.
  unfold jwt_decode, validate_exp, validate_sub.
  destruct t as [raw | alg payload sig]; [congruence |].
  destruct (negb (existsb (String.eqb alg) algs)); [congruence |].
  destruct (negb (String.eqb sig (hs256 key alg payload))); [congruence |].
  destruct (payload !! "exp") as [v|]; simpl.
  - destruct (claim_int v) as [x|]; simpl; [| congruence].
    destruct (x <? seconds now); simpl; [congruence |].
    destruct (payload !! "sub") as [[?|?]|]; simpl; congruence.
  - destruct (payload !! "sub") as [[?|?]|]; simpl; congruence.
Qed.

(** What a successful [jwt_decode] says about the token. *)
Lemma jwt_decode_Return
  (t : token) (key : string) (algs : list string) (now : Z) (p : claims) :
  jwt_decode t key algs now = Return p <->
  exists alg,
    t = Compact alg p (hs256 key alg p) /\
    existsb (String.eqb alg) algs = true /\
    validate_exp p now = Return tt /\
    validate_sub p = Return tt.
Proof.
  unfold jwt_decode. split.
  - destruct t as [raw | alg payload sig]; [discriminate |].
    destruct (existsb (String.eqb alg) algs) eqn:Ealg; simpl; [| discriminate].
    destruct (String.eqb sig (hs256 key alg payload)) eqn:Esig; simpl;
      [| discriminate].
    apply String.eqb_eq in Esig. subst sig.
    destruct (validate_exp payload now) as [[]|] eqn:Eexp; simpl;
      [| discriminate].
    destruct (validate_sub payload) as [[]|] eqn:Esub; simpl; [| discriminate].
    intros H. inversion H; subst. exists alg. auto.
  - intros (alg & -> & Halg & Hexp & Hsub).
    rewrite Halg, String.eqb_refl, Hexp, Hsub. reflexivity.
Qed.

Lemma validate_exp_expired (p : claims) (now : Z) :
  expired p now -> validate_exp p now = Raise JWTError.
Proof.
  intros (v & e & Hv & He & Hlt). unfold validate_exp. rewrite Hv, He.
  apply Z.ltb_lt in Hlt. rewrite Hlt. reflexivity.
Qed.

Lemma validate_exp_ok (p : claims) (now : Z) :
  validate_exp p now = Return tt -> ~ expired p now.
Proof.
  intros H Hex. rewrite (validate_exp_expired _ _ Hex) in H. discriminate.
Qed.

Lemma get_sub_Some (p : claims) (x : string) :
  get_sub p = Some x <-> p !! "sub" = Some (JStr x).
Proof.
  unfold get_sub. destruct (p !! "sub") as [[?|?]|]; split; congruence.
Qed.

(** The two decoders differ in the wrapping of the subject only. *)
Lemma decode_access_token_eq (now : Z) (t : token) :
  decode_access_token now t =
  match jwt_decode t SECRET_KEY [ALGORITHM] now with
  | Return p => Return (mkTokenData ∘ Some <$> get_sub p)
  | Raise _ => Return None
  end.
Proof.
  unfold decode_access_token.
  destruct (jwt_decode t SECRET_KEY [ALGORITHM] now) as [p | e] eqn:E.
  - destruct (get_sub p); reflexivity.
  - apply jwt_decode_raises_JWTError in E. subst e. reflexivity.
Qed.

Lemma decode_verification_token_eq (now : Z) (t : token) :
  decode_verification_token now t =
  match jwt_decode t SECRET_KEY [ALGORITHM] now with
  | Return p => Return (get_sub p)
  | Raise _ => Return None
  end.
Proof.
  unfold decode_verification_token.
  destruct (jwt_decode t SECRET_KEY [ALGORITHM] now) as [p | e] eqn:E.
  - destruct (get_sub p); reflexivity.
  - apply jwt_decode_raises_JWTError in E. subst e. reflexivity.
Qed.

Lemma decode_access_token_verification (now : Z) (t : token) (x : string) :
  decode_access_token now t = Return (Some (mkTokenData (Some x))) <->
  decode_verification_token now t = Return (Some x).
Proof.
  rewrite decode_access_token_eq, decode_verification_token_eq.
  destruct (jwt_decode t SECRET_KEY [ALGORITHM] now) as [p | e].
  - destruct (get_sub p); simpl; split; congruence.
  - split; discriminate.
Qed.

(** A subject comes out of the decoder exactly for a validly signed token
    that is not expired, whose [exp] is readable and whose [sub] is that
    string. *)
Lemma decode_verification_token_Some (now : Z) (t : token) (x : string) :
  decode_verification_token now t = Return (Some x) <->
  exists p,
    t = Compact ALGORITHM p (hs256 SECRET_KEY ALGORITHM p) /\
    validate_exp p now = Return tt /\
    p !! "sub" = Some (JStr x).
Proof.
  rewrite decode_verification_token_eq.
  destruct (jwt_decode t SECRET_KEY [ALGORITHM] now) as [p | e] eqn:E.
  - apply jwt_decode_Return in E. destruct E as (alg & -> & Halg & Hexp & Hsub).
    simpl in Halg. rewrite orb_false_r in Halg. apply String.eqb_eq in Halg.
    subst alg. split.
    + intros H. exists p. repeat split; auto.
      apply get_sub_Some. congruence.
    + intros (p' & Heq & _ & Hs). inversion Heq; subst p'.
      apply get_sub_Some in Hs. rewrite Hs. reflexivity.
  - split; [discriminate |].
    intros (p & -> & Hexp & Hs).
    assert (Hok : jwt_decode (Compact ALGORITHM p (hs256 SECRET_KEY ALGORITHM p))
                    SECRET_KEY [ALGORITHM] now = Return p).
    { apply jwt_decode_Return. exists ALGORITHM. repeat split; auto.
      unfold validate_sub. rewrite Hs. reflexivity. }
    congruence.
Qed.

(** The claims that [create_access_token] signs. *)
Lemma create_access_token_eq (now : Z) (data : claims) (delta : option Z) :
  0 <> requested_lifetime delta ->
  create_access_token now data delta =
  jwt_encode (<["exp" := exp_claim (now + requested_lifetime delta)]> data)
    SECRET_KEY ALGORITHM.
Proof.
  intros Hd. unfold create_access_token, requested_lifetime in *.
  destruct delta as [d|]; [| reflexivity].
  unfold timedelta_bool. destruct (Z.eqb_spec d 0); [lia | reflexivity].
Qed.

(** C3: an access token issued for subject [S] with a positive lifetime
    and decoded, under the same secret, no later than its expiry gives
    back [S]. *)
Theorem access_token_roundtrip
  (S : string) (now now' : Z) (expires_delta : option Z) :
  0 < requested_lifetime expires_delta ->
  now' <= now + requested_lifetime expires_delta ->
  decode_access_token now'
    (create_access_token now {["sub" := JStr S]} expires_delta)
  = Return (Some (mkTokenData (Some S))).
Proof.
  intros Hpos Hbefore.
  rewrite create_access_token_eq by lia.
  apply decode_access_token_verification, decode_verification_token_Some.
  eexists. split; [reflexivity |]. split.
  - unfold validate_exp, exp_claim. rewrite lookup_insert_eq. simpl.
    apply seconds_mono in Hbefore.
    destruct (Z.ltb_spec (seconds (now + requested_lifetime expires_delta))
                (seconds now')); [lia | reflexivity].
  - rewrite lookup_insert_ne by discriminate. apply lookup_singleton_eq.
Qed.

End TokenProofs.

Lemma access_token_roundtrip_witness :
  0 < requested_lifetime None /\
  1700000060000000 <= 1700000000000000 + requested_lifetime None /\
  @decode_access_token toy_env 1700000060000000
    (@create_access_token toy_env 1700000000000000
       {["sub" := JStr "alice@example.com"]} None)
  = Return (Some (mkTokenData (Some "alice@example.com"))).
Proof.
  split; [reflexivity |]. split; [discriminate |].
  apply (@access_token_roundtrip toy_env "alice@example.com"
           1700000000000000 1700000060000000 None).
  - reflexivity.
  - discriminate.
Defined.

Section TokenFailClosed.
Context {env : Environment}.

Lemma decoders_agree_on_None (now : Z) (t : token) :
  decode_access_token now t = Return None <->
  decode_verification_token now t = Return None.
Proof.
  rewrite decode_access_token_eq, decode_verification_token_eq.
  destruct (jwt_decode t SECRET_KEY [ALGORITHM] now) as [p | e];
    [| tauto].
  destruct (get_sub p); simpl; split; congruence.
Qed.

Lemma decode_verification_token_total (now : Z) (t : token) :
  exists r, decode_verification_token now t = Return r.
Proof.
  rewrite decode_verification_token_eq.
  destruct (jwt_decode t SECRET_KEY [ALGORITHM] now); eexists; reflexivity.
Qed.

Lemma decode_access_token_total (now : Z) (t : token) :
  exists r, decode_access_token now t = Return r.
Proof.
  rewrite decode_access_token_eq.
  destruct (jwt_decode t SECRET_KEY [ALGORITHM] now); eexists; reflexivity.
Qed.

(** Whatever is not a subject is [None]. *)
Lemma decode_verification_token_None (now : Z) (t : token) :
  (forall x, decode_verification_token now t <> Return (Some x)) ->
  decode_verification_token now t = Return None.
Proof.
  intros H. destruct (decode_verification_token_total now t) as [[x|] Hr];
    [exfalso; exact (H x Hr) | exact Hr].
Qed.

Lemma unsigned_token_rejected (now : Z) (t : token) :
  ~ validly_signed t -> decode_verification_token now t = Return None.
Proof.
  intros Hns. apply decode_verification_token_None. intros x Hx.
  apply decode_verification_token_Some in Hx. destruct Hx as (p & -> & _).
  apply Hns. exists p. reflexivity.
Qed.

Lemma expired_token_rejected
  (now : Z) (alg : string) (p : claims) (sig : string) :
  expired p now -> decode_verification_token now (Compact alg p sig) = Return None.
Proof.
  intros Hex. apply decode_verification_token_None. intros x Hx.
  apply decode_verification_token_Some in Hx.
  destruct Hx as (p' & Heq & Hexp & _). inversion Heq; subst.
  exact (validate_exp_ok _ _ Hexp Hex).
Qed.

Lemma subjectless_token_rejected
  (now : Z) (alg : string) (p : claims) (sig : string) :
  p !! "sub" = None -> decode_verification_token now (Compact alg p sig) = Return None.
Proof.
  intros Hs. apply decode_verification_token_None. intros x Hx.
  apply decode_verification_token_Some in Hx.
  destruct Hx as (p' & Heq & _ & Hsub). inversion Heq; subst. congruence.
Qed.

(** A token issued with a lifetime of minus one second or less is
    expired from the moment it is issued. *)
Lemma negative_lifetime_expired (now0 now d : Z) (data : claims) :
  d <= -1000000 -> now0 <= now ->
  expired (<["exp" := exp_claim (now0 + d)]> data) now.
Proof.
  intros Hd Hnow. exists (exp_claim (now0 + d)), (seconds (now0 + d)).
  split; [apply lookup_insert_eq |]. split; [reflexivity |].
  assert (H1 : seconds (now0 + d) <= seconds (now0 + (-1) * 1000000))
    by (apply seconds_mono; lia).
  unfold seconds in H1 at 2. rewrite Z.div_add in H1 by lia.
  pose proof (seconds_mono _ _ Hnow) as H2. unfold seconds in *. lia.
Qed.

(** C4 (as amended): neither decoder raises; a token that is malformed or
    not signed by the service's secret, one without a subject and one
    whose [exp] is before the second of the decoding all give [None]; a
    subject comes out only of a validly signed token that is not expired;
    and a token issued with a lifetime of minus one second or less always
    gives [None]. *)
Theorem decoders_fail_closed (now : Z) (t : token) :
  (exists r, decode_access_token now t = Return r) /\
  (exists r, decode_verification_token now t = Return r) /\
  ((forall raw, t = Malformed raw ->
      decode_access_token now t = Return None /\
      decode_verification_token now t = Return None) /\
   (~ validly_signed t ->
      decode_access_token now t = Return None /\
      decode_verification_token now t = Return None) /\
   (forall alg p sig, t = Compact alg p sig ->
      p !! "sub" = None \/ expired p now ->
      decode_access_token now t = Return None /\
      decode_verification_token now t = Return None)) /\
  (forall x,
     decode_access_token now t = Return (Some (mkTokenData (Some x))) \/
     decode_verification_token now t = Return (Some x) ->
     validly_signed t /\
     exists p sig, t = Compact ALGORITHM p sig /\
                   ~ expired p now /\ p !! "sub" = Some (JStr x)) /\
  (forall td, decode_access_token now t = Return (Some td) ->
     exists x, td = mkTokenData (Some x)) /\
  (forall now0 d data,
     d <= -1000000 -> now0 <= now ->
     decode_access_token now (create_access_token now0 data (Some d))
     = Return None).
Proof.
  assert (Hboth : decode_verification_token now t = Return None ->
                  decode_access_token now t = Return None /\
                  decode_verification_token now t = Return None)
    by (intros H; split; [apply decoders_agree_on_None |]; exact H).
  split; [apply decode_access_token_total |].
  split; [apply decode_verification_token_total |].
  split; [split; [| split] |].
  - intros raw ->. split; reflexivity.
  - intros Hns. apply Hboth, unsigned_token_rejected, Hns.
  - intros alg p sig -> [Hs | Hex]; apply Hboth.
    + apply subjectless_token_rejected, Hs.
    + apply expired_token_rejected, Hex.
  - split; [| split].
    + intros x Hx.
      assert (Hv : decode_verification_token now t = Return (Some x))
        by (destruct Hx as [Hx | Hx];
            [apply decode_access_token_verification in Hx |]; exact Hx).
      apply decode_verification_token_Some in Hv.
      destruct Hv as (p & -> & Hexp & Hsub). split.
      * exists p. reflexivity.
      * exists p, (hs256 SECRET_KEY ALGORITHM p).
        split; [reflexivity |]. split; [| exact Hsub].
        apply validate_exp_ok, Hexp.
    + intros td Htd. rewrite decode_access_token_eq in Htd.
      destruct (jwt_decode t SECRET_KEY [ALGORITHM] now) as [p | e];
        [| discriminate].
      destruct (get_sub p) as [x|]; simpl in Htd; [| discriminate].
      exists x. congruence.
    + intros now0 d data Hd Hnow.
      rewrite (create_access_token_eq now0 data (Some d)) by (simpl; lia).
      apply decoders_agree_on_None. unfold jwt_encode.
      apply expired_token_rejected. simpl.
      apply negative_lifetime_expired; assumption.
Qed.

End TokenFailClosed.

Lemma decoders_fail_closed_witness :
  @decode_access_token toy_env sample_now (Malformed "invalid_token")
    = Return None /\
  @decode_access_token toy_env sample_now
    (@create_access_token toy_env sample_now
       {["sub" := JStr "test_user"]} (Some (- minutes 1)))
    = Return None /\
  @decode_verification_token toy_env sample_now
    (Compact "HS256" {["sub" := JStr "alice@example.com"]} "forged")
    = Return None.
Proof.
  pose proof (@decoders_fail_closed toy_env sample_now
                (Malformed "invalid_token"))
    as (_ & _ & (Hmal & _ & _) & _).
  pose proof (@decoders_fail_closed toy_env sample_now
                (Compact "HS256" {["sub" := JStr "alice@example.com"]} "forged"))
    as (_ & _ & (_ & Hforged & _) & _ & _ & Hneg).
  split; [exact (proj1 (Hmal "invalid_token" eq_refl)) |]. split.
  - apply Hneg; [vm_compute; discriminate | reflexivity].
  - apply Hforged. intros (p & Hp). inversion Hp.
Defined.

(** C4 (as stated) fails for a zero lifetime.  A token asked for with
    [timedelta(0)] decodes to its subject at once (and for the next thirty
    minutes), and so does a token whose [exp] is the very second of the
    decoding. *)
Lemma zero_lifetime_token_accepted :
  @decode_access_token toy_env 1700000000000000
    (@create_access_token toy_env 1700000000000000
       {["sub" := JStr "alice@example.com"]} (Some 0))
  = Return (Some (mkTokenData (Some "alice@example.com"))) /\
  @decode_access_token toy_env 1700001799000000
    (@create_access_token toy_env 1700000000000000
       {["sub" := JStr "alice@example.com"]} (Some 0))
  <> Return None /\
  @decode_verification_token toy_env 1700000000999999
    (@jwt_encode toy_env
       (<["sub" := JStr "alice@example.com"]> {["exp" := JInt 1700000000]})
       "secret" "HS256")
  = Return (Some "alice@example.com").
Proof.
  repeat split; try (vm_compute; reflexivity).
  vm_compute. discriminate.
Qed.

(** ** Lookups by a unique column *)

(** At most one row has a given value in a column without duplicates. *)
Lemma filter_unique_column {A : Type} (col : A -> string) (k : string)
  (l : list A) :
  List.NoDup (map col l) ->
  (List.filter (fun x => String.eqb (col x) k) l = [] /\
   forall x, In x l -> col x <> k) \/
  (exists x, List.filter (fun x => String.eqb (col x) k) l = [x] /\
             In x l /\ col x = k).
Proof.
  induction l as [|a l IH]; intros Hnd.
  - left. split; [reflexivity | intros x []].
  - simpl in Hnd. apply List.NoDup_cons_iff in Hnd. destruct Hnd as [Hna Hnd].
    simpl. destruct (String.eqb_spec (col a) k) as [Heq | Hne].
    + right. exists a. split; [| split; [left; reflexivity | exact Heq]].
      f_equal. apply filter_none. intros x Hx.
      apply String.eqb_neq. intros Hx'. apply Hna.
      rewrite Heq, <- Hx'. apply List.in_map. exact Hx.
    + destruct (IH Hnd) as [[Hf Hall] | (x & Hf & Hx & Hk)].
      * left. split; [exact Hf |]. intros x [<- | Hx]; auto.
      * right. exists x. split; [exact Hf |]. split; [right |]; assumption.
Qed.

Lemma get_user_by_email_unique (s : Store) (e : string) :
  List.NoDup (map email (users s)) ->
  (get_user_by_email s (Some e) = Return None /\
   forall u, In u (users s) -> email u <> e) \/
  (exists u, get_user_by_email s (Some e) = Return (Some u) /\
             In u (users s) /\ email u = e).
Proof.
  intros Hnd. unfold get_user_by_email. simpl.
  destruct (filter_unique_column email e (users s) Hnd)
    as [[Hf Hall] | (u & Hf & Hu & He)]; rewrite Hf.
  - left. split; [reflexivity | exact Hall].
  - right. exists u. split; [reflexivity |]. split; assumption.
Qed.

Lemma get_role_by_name_seeded (s : Store) (r : RoleEnum) :
  List.NoDup (map name (roles s)) -> roles_seeded s ->
  exists ro, get_role_by_name s r = Return (Some ro) /\
             In ro (roles s) /\ name ro = value r.
Proof.
  intros Hnd Hseed. unfold get_role_by_name.
  destruct (filter_unique_column name (value r) (roles s) Hnd)
    as [[Hf Hall] | (ro & Hf & Hro & Hn)]; rewrite Hf.
  - destruct (Hseed r) as (ro & Hro & Hn). exfalso. exact (Hall ro Hro Hn).
  - exists ro. split; [reflexivity |]. split; assumption.
Qed.

Lemma existsb_email_false (l : list User) (e : string) :
  (forall u, In u l -> email u <> e) ->
  existsb (fun u => String.eqb (email u) e) l = false.
Proof.
  intros H. induction l as [|a l IH]; [reflexivity |].
  simpl. destruct (String.eqb_spec (email a) e) as [Heq | _].
  - exfalso. exact (H a (or_introl eq_refl) Heq).
  - apply IH. intros u Hu. apply H. right. exact Hu.
Qed.

(** ** Registration and login *)

Section AccountProofs.
Context {env : Environment}.

(** Registration of a taken address. *)
Lemma register_taken (s : Store) (now : Z) (uc : UserCreate) (u : User) :
  List.NoDup (map email (users s)) ->
  In u (users s) -> email u = uc_email uc ->
  register s now uc = Raise (HTTPException 409 "Email already registered").
Proof.
  intros Hnd Hu He. unfold register.
  destruct (get_user_by_email_unique s (uc_email uc) Hnd)
    as [[_ Hall] | (u' & Hg & _ & _)].
  - exfalso. exact (Hall u Hu He).
  - rewrite Hg. reflexivity.
Qed.

(** Registration of a free address, as far as the user table goes. *)
Lemma register_free (s : Store) (now : Z) (uc : UserCreate) :
  List.NoDup (map email (users s)) ->
  (forall u, In u (users s) -> email u <> uc_email uc) ->
  register s now uc =
  '(user, s') ← create_user s uc;
  Return (user, create_verification_token now (email user), s').
Proof.
  intros Hnd Hfree. unfold register.
  destruct (get_user_by_email_unique s (uc_email uc) Hnd)
    as [[Hg _] | (u' & _ & Hu' & He')].
  - rewrite Hg. reflexivity.
  - exfalso. exact (Hfree u' Hu' He').
Qed.

Lemma register_409_only_if_taken (s : Store) (now : Z) (uc : UserCreate) :
  List.NoDup (map email (users s)) ->
  status_of 201 (register s now uc) = 409 ->
  exists u, In u (users s) /\ email u = uc_email uc.
Proof.
  intros Hnd H409.
  destruct (get_user_by_email_unique s (uc_email uc) Hnd)
    as [[_ Hfree] | (u & _ & Hu & He)]; [| exists u; auto].
  exfalso. rewrite (register_free s now uc Hnd Hfree) in H409.
  unfold create_user in H409.
  destruct (get_role_by_name s (uc_role uc)) as [[ro|] | e] eqn:Er;
    simpl in H409.
  - rewrite (existsb_email_false _ _ Hfree) in H409. simpl in H409. lia.
  - lia.
  - apply scalar_one_or_none_Raise in Er. destruct Er as [-> _].
    simpl in H409. lia.
Qed.

(** C5: on a store that meets the schema's constraints, registration
    answers 409 exactly when a user with the requested email exists, and
    then changes nothing; when none exists (and the role rows are in
    place) it answers 201 and appends the new, inactive user; registering
    the same email again then answers 409 and adds no second user. *)
Theorem register_conflict_iff_email_exists
  (clk : clock) (s : Store) (uc : UserCreate) :
  wf_store s ->
  (fst (serve clk (PostRegister uc) s) = 409 <->
   exists u, In u (users s) /\ email u = uc_email uc) /\
  (fst (serve clk (PostRegister uc) s) = 409 ->
   register s (utc_now clk) uc
     = Raise (HTTPException 409 "Email already registered") /\
   snd (serve clk (PostRegister uc) s) = s) /\
  (roles_seeded s ->
   (forall u, In u (users s) -> email u <> uc_email uc) ->
   exists u tok,
     register s (utc_now clk) uc
       = Return (u, tok, snd (serve clk (PostRegister uc) s)) /\
     fst (serve clk (PostRegister uc) s) = 201 /\
     users (snd (serve clk (PostRegister uc) s)) = (users s ++ [u])%list /\
     email u = uc_email uc /\ username u = uc_username uc /\
     is_active u = false /\
     forall clk' uc',
       uc_email uc' = uc_email uc ->
       serve clk' (PostRegister uc') (snd (serve clk (PostRegister uc) s))
       = (409, snd (serve clk (PostRegister uc) s))).
Proof.
  intros Hwf. pose proof (wf_user_email s Hwf) as Hnd.
  assert (Htaken : (exists u, In u (users s) /\ email u = uc_email uc) ->
            register s (utc_now clk) uc
              = Raise (HTTPException 409 "Email already registered")).
  { intros (u & Hu & He). exact (register_taken s _ uc u Hnd Hu He). }
  split; [split |]; [| | split].
  - apply register_409_only_if_taken. exact Hnd.
  - intros Hex. simpl. rewrite (Htaken Hex). reflexivity.
  - intros H409. simpl in H409.
    pose proof (register_409_only_if_taken s _ uc Hnd H409) as Hex.
    simpl. rewrite (Htaken Hex). split; reflexivity.
  - intros Hseed Hfree. simpl.
    rewrite (register_free s _ uc Hnd Hfree). unfold create_user.
    destruct (get_role_by_name_seeded s (uc_role uc) (wf_role_name s Hwf) Hseed)
      as (ro & Hro & _ & _).
    rewrite Hro. simpl. rewrite (existsb_email_false _ _ Hfree). simpl.
    eexists _, _. split; [reflexivity |].
    do 5 (split; [reflexivity |]).
    intros clk' uc' He'. simpl.
    erewrite register_taken; [reflexivity | | | ].
    + simpl. rewrite List.map_app. simpl.
      apply List.NoDup_app; [exact Hnd | repeat constructor; intros [] |].
      intros e He [<- | []]. apply List.in_map_iff in He.
      destruct He as (u & Hue & Hu). exact (Hfree u Hu Hue).
    + simpl. apply List.in_or_app. right. left. reflexivity.
    + simpl. symmetry. exact He'.
Qed.

End AccountProofs.

Lemma register_conflict_iff_email_exists_witness :
  wf_store sample_store /\
  fst (@serve toy_env (mkClock 1700000000000000 (mkdate 2023 11 14))
         (PostRegister (mkUserCreate "al" "alice@example.com" "pw" USER))
         sample_store) = 409 /\
  fst (@serve toy_env (mkClock 1700000000000000 (mkdate 2023 11 14))
         (PostRegister (mkUserCreate "carol" "carol@example.com" "pw" USER))
         sample_store) = 201.
Proof.
  split; [exact sample_store_wf |].
  pose proof (@register_conflict_iff_email_exists toy_env
                (mkClock 1700000000000000 (mkdate 2023 11 14)) sample_store
                (mkUserCreate "al" "alice@example.com" "pw" USER)
                sample_store_wf) as [[_ Hconflict] _].
  pose proof (@register_conflict_iff_email_exists toy_env
                (mkClock 1700000000000000 (mkdate 2023 11 14)) sample_store
                (mkUserCreate "carol" "carol@example.com" "pw" USER)
                sample_store_wf) as [_ [_ Hcreated]].
  split.
  - apply Hconflict. exists alice. split; [left |]; reflexivity.
  - destruct (Hcreated sample_store_seeded) as (u & tok & _ & H201 & _).
    + intros u [<- | [<- | []]]; simpl; discriminate.
    + exact H201.
Defined.

Section LoginProofs.
Context {env : Environment}.

Lemma filter_map_commute {A : Type} (p : A -> bool) (g : A -> A) (l : list A) :
  (forall x, p (g x) = p x) ->
  List.filter p (map g l) = map g (List.filter p l).
Proof.
  intros H. induction l as [|a l IH]; [reflexivity |].
  simpl. rewrite H. destruct (p a); simpl; rewrite IH; reflexivity.
Qed.

(** The user lookup of a store with other activation flags finds the same
    row, its flag apart. *)
Lemma get_user_by_email_with_flags
  (f : User -> bool) (s : Store) (e : option string) :
  get_user_by_email (with_flags f s) e =
  match get_user_by_email s e with
  | Return o => Return ((fun u => set_is_active (f u) u) <$> o)
  | Raise x => Raise x
  end.
Proof.
  unfold get_user_by_email, with_flags. simpl.
  rewrite filter_map_commute by reflexivity.
  destruct (List.filter (fun u => Sql.eq_opt_string (email u) e) (users s))
    as [|a [|b l]]; reflexivity.
Qed.

(** C10: login never reads [is_active].  It answers 401 exactly when no
    user has the given email or the password does not verify against the
    stored hash; a user with the right password gets an access and a
    refresh token for their email whatever the flag; and changing the
    flags of the store changes nothing in the answer. *)
Theorem login_ignores_is_active
  (s : Store) (now : Z) (form_username form_password : string) :
  wf_store s ->
  (status_of 201 (login_for_token s now form_username form_password) = 401 <->
   (forall u, In u (users s) -> email u <> form_username) \/
   (exists u, In u (users s) /\ email u = form_username /\
              verify_password form_password (hashed_password u) = false)) /\
  (forall u, In u (users s) -> email u = form_username ->
     verify_password form_password (hashed_password u) = true ->
     login_for_token s now form_username form_password
     = Return (create_access_token now {["sub" := JStr (email u)]} None,
               create_refresh_token now {["sub" := JStr (email u)]} None) /\
     status_of 201 (login_for_token s now form_username form_password) = 201) /\
  (forall f : User -> bool,
     login_for_token (with_flags f s) now form_username form_password
     = login_for_token s now form_username form_password).
Proof.
  intros Hwf. pose proof (wf_user_email s Hwf) as Hnd.
  assert (Hemail_inj : forall u u', In u (users s) -> In u' (users s) ->
            email u = email u' -> u = u').
  { clear -Hnd. induction (users s) as [|a l IH]; intros u u' Hu Hu' He;
      [destruct Hu |].
    simpl in Hnd. apply List.NoDup_cons_iff in Hnd. destruct Hnd as [Hna Hnd].
    destruct Hu as [<- | Hu], Hu' as [<- | Hu']; auto.
    - exfalso. apply Hna. rewrite He. apply List.in_map. exact Hu'.
    - exfalso. apply Hna. rewrite <- He. apply List.in_map. exact Hu.
  }
  split; [| split].
  - unfold login_for_token.
    destruct (get_user_by_email_unique s form_username Hnd)
      as [[Hg Hfree] | (u & Hg & Hu & He)]; rewrite Hg; simpl.
    + split; [intros _; left; exact Hfree | reflexivity].
    + destruct (verify_password form_password (hashed_password u)) eqn:Ev;
        simpl; split.
      * discriminate.
      * intros [Hfree | (u' & Hu' & He' & Hv')].
        -- exfalso. exact (Hfree u Hu He).
        -- assert (u' = u) by (apply Hemail_inj; congruence). subst u'.
           congruence.
      * intros _. right. exists u. auto.
      * reflexivity.
  - intros u Hu He Hv. unfold login_for_token.
    destruct (get_user_by_email_unique s form_username Hnd)
      as [[Hg Hfree] | (u' & Hg & Hu' & He')]; rewrite Hg; simpl.
    + exfalso. exact (Hfree u Hu He).
    + assert (u' = u) by (apply Hemail_inj; congruence). subst u'.
      rewrite Hv. simpl. split; reflexivity.
  - intros f. unfold login_for_token.
    rewrite get_user_by_email_with_flags.
    destruct (get_user_by_email s (Some form_username)) as [[u|] | e];
      reflexivity.
Qed.

End LoginProofs.

(** The inactive sample user logs in. *)
Lemma login_ignores_is_active_witness :
  wf_store sample_store /\
  is_active alice = false /\
  status_of 201 (@login_for_token toy_env sample_store 1700000000000000
                   "alice@example.com" "wonderland") = 201.
Proof.
  split; [exact sample_store_wf |]. split; [reflexivity |].
  pose proof (@login_ignores_is_active toy_env sample_store 1700000000000000
                "alice@example.com" "wonderland" sample_store_wf)
    as [_ [Hlogin _]].
  apply (Hlogin alice).
  - left. reflexivity.
  - reflexivity.
  - reflexivity.
Defined.

(** ** Role checks *)

(** Under the schema's constraints every stored user has a role row. *)
Lemma role_defined (s : Store) (u : User) :
  wf_store s -> In u (users s) ->
  exists r, role s u = Some r /\ In r (roles s) /\ role_pk r = role_id u.
Proof.
  intros Hwf Hu. destruct (wf_user_role s Hwf u Hu) as (r & Hr & Hpk).
  unfold role.
  destruct (List.find (fun ro => role_pk ro =? role_id u) (roles s))
    as [r'|] eqn:E.
  - apply List.find_some in E. destruct E as [Hr' Hpk'].
    apply Z.eqb_eq in Hpk'. exists r'. auto.
  - exfalso. apply (List.find_none _ _ E) in Hr.
    apply Z.eqb_neq in Hr. contradiction.
Qed.

Section RoleProofs.
Context {env : Environment}.

(** C7: for an authenticated user whose role is [r], the checker returns
    the user when the name of [r] is among the allowed names and raises
    the 403 exactly when it is not; a user whose role is not admin gets a
    403 from the all-contacts and the delete endpoints, which leave the
    store as it was. *)
Theorem RoleChecker_allow_list
  (s : Store) (now : Z) (t : token) (allowed : list RoleEnum)
  (user : User) (r : Role) :
  get_current_user s now t = Return user ->
  role s user = Some r ->
  (In (name r) (map value allowed) ->
   RoleChecker allowed s now t = Return user) /\
  (~ In (name r) (map value allowed) ->
   RoleChecker allowed s now t = Raise forbidden) /\
  (status_of 200 (RoleChecker allowed s now t) = 403 <->
   ~ In (name r) (map value allowed)) /\
  (name r <> value ADMIN ->
   forall (clk : clock) (limit offset : nat) (contact_id : Z),
     utc_now clk = now ->
     serve clk (GetContactsAll t limit offset) s = (403, s) /\
     serve clk (DeleteContact t contact_id) s = (403, s)).
Proof.
  intros Hauth Hrole.
  assert (Hin : In (name r) (map value allowed) ->
                RoleChecker allowed s now t = Return user).
  { intros H. unfold RoleChecker. rewrite Hauth. simpl. rewrite Hrole.
    apply existsb_eqb_In in H. rewrite H. reflexivity. }
  assert (Hout : ~ In (name r) (map value allowed) ->
                 RoleChecker allowed s now t = Raise forbidden).
  { intros H. unfold RoleChecker. rewrite Hauth. simpl. rewrite Hrole.
    destruct (existsb (String.eqb (name r)) (map value allowed)) eqn:E;
      [| reflexivity].
    apply existsb_eqb_In in E. contradiction. }
  split; [exact Hin |]. split; [exact Hout |]. split.
  - split.
    + intros H403 Hmem. rewrite (Hin Hmem) in H403. discriminate.
    + intros Hmem. rewrite (Hout Hmem). reflexivity.
  - intros Hna clk limit offset contact_id <-.
    assert (Hadm : RoleChecker [ADMIN] s (utc_now clk) t = Raise forbidden).
    { unfold RoleChecker. rewrite Hauth. simpl. rewrite Hrole.
      destruct (String.eqb_spec (name r) "admin") as [He | _];
        [contradiction | reflexivity]. }
    simpl. unfold get_contacts_all_route, delete_contact_route.
    rewrite Hadm. split; reflexivity.
Qed.

End RoleProofs.

Lemma RoleChecker_allow_list_witness :
  @get_current_user toy_env sample_store sample_now alice_token = Return alice /\
  role sample_store alice = Some (mkRole 1 "user") /\
  @RoleChecker toy_env [USER; ADMIN] sample_store sample_now alice_token
    = Return alice /\
  @serve toy_env sample_clock (GetContactsAll alice_token 10 0) sample_store
    = (403, sample_store) /\
  @serve toy_env sample_clock (DeleteContact alice_token 1) sample_store
    = (403, sample_store).
Proof.
  assert (Hauth : @get_current_user toy_env sample_store sample_now alice_token
                  = Return alice) by (vm_compute; reflexivity).
  assert (Hrole : role sample_store alice = Some (mkRole 1 "user"))
    by reflexivity.
  split; [exact Hauth |]. split; [exact Hrole |].
  pose proof (@RoleChecker_allow_list toy_env sample_store sample_now
                alice_token [USER; ADMIN] alice (mkRole 1 "user") Hauth Hrole)
    as (Hallowed & _ & _ & Hadmin).
  split.
  - apply Hallowed. simpl. left. reflexivity.
  - apply (Hadmin ltac:(discriminate) sample_clock 10%nat 0%nat 1).
    reflexivity.
Defined.

Example admin_passes_role_check :
  @serve toy_env sample_clock (GetContactsAll root_token 10 0) sample_store
    = (200, sample_store) /\
  fst (@serve toy_env sample_clock (DeleteContact root_token 3) sample_store)
    = 200 /\
  contacts (snd (@serve toy_env sample_clock (DeleteContact root_token 3)
                   sample_store)) = [ann; ann_lee].
Proof. vm_compute. repeat split. Qed.

(** ** Contact update with a taken address *)

Section UpdateProofs.
Context {env : Environment}.

(** The repository refuses the update with a [ValueError]; the router
    has no handler for it. *)
Lemma update_contact_taken_email
  (s : Store) (identifier : string) (owner : Z) (cu : ContactsCreate)
  (target other : Contact) :
  List.NoDup (map contact_email (contacts s)) ->
  find_contact s owner identifier = Return (Some target) ->
  In other (contacts s) ->
  contact_email other = cc_email cu ->
  contact_pk other <> contact_pk target ->
  cc_email cu <> "" ->
  update_contact s identifier owner cu
  = Raise (ValueError "Email already in use").
Proof.
  intros Hnd Hfind Hother Hemail Hpk Hnonempty.
  unfold update_contact. rewrite Hfind. simpl.
  unfold truthy. destruct (String.eqb_spec (cc_email cu) "") as [|_];
    [contradiction |]. simpl.
  destruct (filter_unique_column contact_email (cc_email cu) (contacts s) Hnd)
    as [[_ Hall] | (x & Hf & Hx & Hxe)].
  - exfalso. exact (Hall other Hother Hemail).
  - rewrite Hf. simpl.
    assert (x = other).
    { clear -Hnd Hx Hother Hxe Hemail.
      induction (contacts s) as [|a l IH]; [destruct Hx |].
      simpl in Hnd. apply List.NoDup_cons_iff in Hnd.
      destruct Hnd as [Hna Hnd].
      destruct Hx as [<- | Hx], Hother as [<- | Hother]; auto.
      - exfalso. apply Hna. rewrite Hxe, <- Hemail.
        apply List.in_map. exact Hother.
      - exfalso. apply Hna. rewrite Hemail, <- Hxe.
        apply List.in_map. exact Hx. }
    subst x. destruct (Z.eqb_spec (contact_pk other) (contact_pk target));
      [contradiction | reflexivity].
Qed.

Lemma update_contact_route_taken_email
  (clk : clock) (s : Store) (t : token) (identifier : string)
  (cu : ContactsCreate) (user : User) (target other : Contact) :
  List.NoDup (map contact_email (contacts s)) ->
  get_current_user s (utc_now clk) t = Return user ->
  find_contact s (user_pk user) identifier = Return (Some target) ->
  In other (contacts s) ->
  contact_email other = cc_email cu ->
  contact_pk other <> contact_pk target ->
  cc_email cu <> "" ->
  serve clk (PutContact t identifier cu) s = (500, s).
Proof.
  intros Hnd Hauth Hfind Hother Hemail Hpk Hne. simpl.
  unfold update_contact_route. rewrite Hauth. simpl.
  rewrite (update_contact_taken_email s identifier (user_pk user) cu
             target other Hnd Hfind Hother Hemail Hpk Hne).
  reflexivity.
Qed.

End UpdateProofs.

(** C9 (the code at the failing request): contact 1 is asked to take the
    address of contact 2.  The repository raises [ValueError], the
    response is a 500 and not a 409, and the store is unchanged. *)
Theorem put_contact_taken_email_is_500 :
  update_contact sample_store "1" 1 taken_email_update
    = Raise (ValueError "Email already in use") /\
  @serve toy_env sample_clock (PutContact alice_token "1" taken_email_update)
    sample_store = (500, sample_store).
Proof.
  split.
  - vm_compute. reflexivity.
  - apply (@update_contact_route_taken_email toy_env sample_clock sample_store
             alice_token "1" taken_email_update alice ann ann_lee).
    + apply (wf_contact_email _ sample_store_wf).
    + vm_compute. reflexivity.
    + vm_compute. reflexivity.
    + simpl. auto.
    + reflexivity.
    + discriminate.
    + discriminate.
Qed.

Example put_contact_examples :
  fst (@serve toy_env sample_clock
         (PutContact alice_token "Ann"
            (mkContactsCreate "Anne" "Lee" "anne@example.com" "555-0101"
               (mkdate 1990 6 3) (Some "moved")))
         sample_store) = 200 /\
  fst (@serve toy_env sample_clock
         (PutContact alice_token "Zed" taken_email_update) sample_store) = 404 /\
  fst (@serve toy_env sample_clock
         (PutContact alice_token "Ann Lee" taken_email_update) sample_store)
    = 500.
Proof. vm_compute. repeat split. Qed.

(** ** Activation *)

Lemma get_user_by_email_Some (s : Store) (e : option string) (u : User) :
  get_user_by_email s e = Return (Some u) ->
  In u (users s) /\ e = Some (email u).
Proof.
  unfold get_user_by_email. intros H. apply scalar_one_or_none_Some in H.
  assert (Hin : In u (List.filter (fun u => Sql.eq_opt_string (email u) e)
                        (users s))) by (rewrite H; left; reflexivity).
  apply filter_In_iff in Hin. destruct Hin as [Hu He].
  apply eq_opt_string_true in He. auto.
Qed.

(** A row after a write-back is an old row, changed if it has the key. *)
Lemma flush_user_In (f : User -> User) (pk : Z) (s : Store) (u' : User) :
  In u' (users (flush_user f pk s)) ->
  exists u, In u (users s) /\
            (u' = u \/ (user_pk u = pk /\ u' = f u)).
Proof.
  unfold flush_user. simpl. intros H. apply List.in_map_iff in H.
  destruct H as (u & Hu' & Hu). exists u. split; [exact Hu |].
  destruct (Z.eqb_spec (user_pk u) pk); [right | left]; auto.
Qed.

Section ActivationProofs.
Context {env : Environment}.

Lemma register_creates_inactive
  (s : Store) (now : Z) (uc : UserCreate) (u : User) (tok : token) (s' : Store) :
  register s now uc = Return (u, tok, s') ->
  is_active u = false /\ users s' = (users s ++ [u])%list.
Proof.
  unfold register, create_user.
  destruct (get_user_by_email s (Some (uc_email uc))) as [[x|] | e]; simpl;
    try discriminate.
  destruct (get_role_by_name s (uc_role uc)) as [[ro|] | e]; simpl;
    try discriminate.
  destruct (existsb _ (users s)); simpl; [discriminate |].
  intros H. inversion H; subst. split; reflexivity.
Qed.

(** The requests that do not write to the user table. *)
Lemma commit_contacts_users {A : Type} (s : Store) (r : result (A * Store)) :
  (forall a s', r = Return (a, s') -> users s' = users s) ->
  users (commit s r) = users s.
Proof.
  intros H. destruct r as [[a s'] | e]; simpl; [| reflexivity].
  apply (H a s'). reflexivity.
Qed.

Lemma create_contacts_route_users
  (s : Store) (now : Z) (t : token) (c : ContactsCreate) (x : Contact)
  (s' : Store) :
  create_contacts_route s now t c = Return (x, s') -> users s' = users s.
Proof.
  unfold create_contacts_route, create_contacts.
  destruct (RoleChecker [USER; ADMIN] s now t); simpl; [| discriminate].
  destruct (get_current_user s now t); simpl; [| discriminate].
  destruct (existsb _ (contacts s)); [discriminate |].
  intros H. inversion H; subst. reflexivity.
Qed.

Lemma delete_contact_route_users
  (s : Store) (now : Z) (t : token) (i : Z) (m : string) (s' : Store) :
  delete_contact_route s now t i = Return (m, s') -> users s' = users s.
Proof.
  unfold delete_contact_route.
  destruct (RoleChecker [ADMIN] s now t); simpl; [| discriminate].
  destruct (get_contact_by_id s i) as [[c|] | e]; simpl; try discriminate.
  intros H. inversion H; subst. reflexivity.
Qed.

Lemma update_contact_users
  (s : Store) (identifier : string) (owner : Z) (cu : ContactsCreate)
  (o : option Contact) (s' : Store) :
  update_contact s identifier owner cu = Return (o, s') -> users s' = users s.
Proof.
  unfold update_contact.
  destruct (find_contact s owner identifier) as [[c|] | e]; simpl;
    try discriminate.
  - match goal with
    | |- (_ ← ?guard; _) = _ -> _ => destruct guard as [[] | e]
    end; simpl; [| discriminate].
    destruct (existsb _ (contacts s)); [discriminate |].
    intros H. inversion H; subst. reflexivity.
  - intros H. inversion H; subst. reflexivity.
Qed.

Lemma update_contact_route_users
  (s : Store) (now : Z) (t : token) (i : string) (cu : ContactsCreate)
  (c : Contact) (s' : Store) :
  update_contact_route s now t i cu = Return (c, s') -> users s' = users s.
Proof.
  unfold update_contact_route.
  destruct (get_current_user s now t) as [user | e]; simpl; [| discriminate].
  destruct (update_contact s i (user_pk user) cu) as [[o s''] | e] eqn:E;
    simpl; [| discriminate].
  destruct o as [c'|]; [| discriminate].
  intros H. inversion H; subst.
  exact (update_contact_users _ _ _ _ _ _ E).
Qed.

(** What a request does to the rows of [users]: a row after it is a row
    before it with the same key and email, and as active as before, unless
    the request is an email verification that activated it. *)
Lemma user_row_after_request
  (clk : clock) (req : request) (s : Store) (u' : User) :
  In u' (users (snd (serve clk req s))) -> is_active u' = true ->
  (exists u, In u (users s) /\ user_pk u = user_pk u' /\
             email u = email u' /\ is_active u = true)
  \/
  (exists t e target u,
     req = GetVerifyEmail t /\
     decode_verification_token (utc_now clk) t = Return (Some e) /\
     In target (users s) /\ email target = e /\
     In u (users s) /\ user_pk u = user_pk target /\
     u' = set_is_active true u).
Proof.
  intros Hin Hact.
  assert (Hsame : In u' (users s) ->
            exists u, In u (users s) /\ user_pk u = user_pk u' /\
                      email u = email u' /\ is_active u = true)
    by (intros H; exists u'; auto).
  destruct req; simpl in Hin.
  - (* register *)
    destruct (register s (utc_now clk) user_create) as [[[u tok] s'] | e]
      eqn:E; [| left; auto].
    apply register_creates_inactive in E. destruct E as [Hi Hu].
    rewrite Hu in Hin. apply List.in_app_or in Hin.
    destruct Hin as [Hin | [<- | []]]; [left; auto | congruence].
  - (* verify-email *)
    unfold verify_email in Hin.
    destruct (decode_verification_token (utc_now clk) t) as [e | x] eqn:Ed;
      simpl in Hin; [| left; auto].
    destruct (get_user_by_email s e) as [[target|] | x] eqn:Eg;
      simpl in Hin; try (left; auto; fail).
    apply get_user_by_email_Some in Eg. destruct Eg as [Ht ->].
    unfold activate_user in Hin. apply flush_user_In in Hin.
    destruct Hin as (u & Hu & [-> | [Hpk ->]]); [left; auto |].
    right. exists t, (email target), target, u. auto 10.
  - left; auto.
  - left; auto.
  - (* avatar *)
    unfold update_avatar_user, update_avatar in Hin.
    destruct (get_current_user s (utc_now clk) t) as [cu | x];
      simpl in Hin; [| left; auto].
    destruct upload as [[url|] | x]; simpl in Hin; try (left; auto; fail).
    destruct (truthy url); simpl in Hin; [| left; auto].
    destruct (get_user_by_email s (Some (email cu))) as [[target|] | x];
      simpl in Hin; try (left; auto; fail).
    apply flush_user_In in Hin.
    destruct Hin as (u & Hu & [-> | [Hpk ->]]); [left; auto |].
    left. exists u. auto.
  - rewrite commit_contacts_users in Hin; [left; auto |].
    intros a s'. apply create_contacts_route_users.
  - left; auto.
  - left; auto.
  - left; auto.
  - rewrite commit_contacts_users in Hin; [left; auto |].
    intros a s'. apply delete_contact_route_users.
  - left; auto.
  - rewrite commit_contacts_users in Hin; [left; auto |].
    intros a s'. apply update_contact_route_users.
  - left; auto.
Qed.

(** A token that the service signs over a subject and an expiry decodes
    to the subject up to the expiry. *)
Lemma issued_token_decodes (x : string) (expire now' : Z) (payload : claims) :
  payload !! "sub" = Some (JStr x) ->
  payload !! "exp" = Some (exp_claim expire) ->
  now' <= expire ->
  decode_verification_token now' (jwt_encode payload SECRET_KEY ALGORITHM)
  = Return (Some x).
Proof.
  intros Hsub Hexp Hle. apply decode_verification_token_Some.
  exists payload. split; [reflexivity |]. split; [| exact Hsub].
  unfold validate_exp. rewrite Hexp. simpl.
  apply seconds_mono in Hle.
  destruct (Z.ltb_spec (seconds expire) (seconds now')); [lia | reflexivity].
Qed.

Lemma login_access_token_decodes (x : string) (now now' : Z) :
  now' <= now + minutes ACCESS_TOKEN_EXPIRE_MINUTES ->
  decode_verification_token now'
    (create_access_token now {["sub" := JStr x]} None) = Return (Some x).
Proof.
  intros Hle. unfold create_access_token.
  apply (issued_token_decodes x (now + minutes ACCESS_TOKEN_EXPIRE_MINUTES));
    [| apply lookup_insert_eq | exact Hle].
  rewrite lookup_insert_ne by discriminate. apply lookup_singleton_eq.
Qed.

Lemma login_refresh_token_decodes (x : string) (now now' : Z) :
  now' <= now + days REFRESH_TOKEN_EXPIRE_DAYS ->
  decode_verification_token now'
    (create_refresh_token now {["sub" := JStr x]} None) = Return (Some x).
Proof.
  intros Hle. unfold create_refresh_token.
  apply (issued_token_decodes x (now + days REFRESH_TOKEN_EXPIRE_DAYS));
    [| apply lookup_insert_eq | exact Hle].
  rewrite lookup_insert_ne by discriminate. apply lookup_singleton_eq.
Qed.

Lemma verification_token_decodes (x : string) (now now' : Z) :
  now' <= now + hours VERIFICATION_TOKEN_HOUSE ->
  decode_verification_token now' (create_verification_token now x)
  = Return (Some x).
Proof.
  intros Hle. unfold create_verification_token.
  apply (issued_token_decodes x (now + hours VERIFICATION_TOKEN_HOUSE));
    [apply lookup_insert_eq | | exact Hle].
  rewrite lookup_insert_ne by discriminate. apply lookup_singleton_eq.
Qed.

(** C6 (as amended): a user created by registration is inactive, and a
    request leaves an active user only if that user was active before it,
    or the request is an email verification whose token the decoder
    accepts, that is a token signed with the service's secret under HS256,
    not expired, whose [sub] is the email of an existing user, of whom the
    active row is the activated copy.  The class of the token plays no
    part: up to its expiry the decoder accepts the access token and the
    refresh token of a login as it accepts the token that registration
    mails. *)
Theorem activation_only_by_verification
  (clk : clock) (req : request) (s : Store) :
  (forall uc u tok s',
     register s (utc_now clk) uc = Return (u, tok, s') ->
     is_active u = false /\ In u (users s')) /\
  (forall u',
     In u' (users (snd (serve clk req s))) -> is_active u' = true ->
     (exists u, In u (users s) /\ user_pk u = user_pk u' /\ is_active u = true)
     \/
     (exists t e target u,
        req = GetVerifyEmail t /\
        decode_verification_token (utc_now clk) t = Return (Some e) /\
        (exists p,
           t = Compact ALGORITHM p (hs256 SECRET_KEY ALGORITHM p) /\
           validate_exp p (utc_now clk) = Return tt /\
           p !! "sub" = Some (JStr e)) /\
        In target (users s) /\ email target = e /\
        In u (users s) /\ user_pk u = user_pk target /\
        u' = set_is_active true u)) /\
  (forall now e,
     (utc_now clk <= now + hours VERIFICATION_TOKEN_HOUSE ->
      decode_verification_token (utc_now clk) (create_verification_token now e)
      = Return (Some e)) /\
     (utc_now clk <= now + minutes ACCESS_TOKEN_EXPIRE_MINUTES ->
      decode_verification_token (utc_now clk)
        (create_access_token now {["sub" := JStr e]} None)
      = Return (Some e)) /\
     (utc_now clk <= now + days REFRESH_TOKEN_EXPIRE_DAYS ->
      decode_verification_token (utc_now clk)
        (create_refresh_token now {["sub" := JStr e]} None)
      = Return (Some e))).
Proof.
  split; [| split].
  - intros uc u tok s' H. apply register_creates_inactive in H.
    destruct H as [Hi Hu]. split; [exact Hi |]. rewrite Hu.
    apply List.in_or_app. right. left. reflexivity.
  - intros u' Hin Hact.
    destruct (user_row_after_request clk req s u' Hin Hact)
      as [(u & Hu & Hpk & _ & Ha)
         | (t & e & target & u & Hreq & Hdec & Hrest)];
      [left; exists u; auto |].
    right. exists t, e, target, u.
    split; [exact Hreq |]. split; [exact Hdec |]. split; [| exact Hrest].
    apply decode_verification_token_Some. exact Hdec.
  - intros now e. split; [| split].
    + apply verification_token_decodes.
    + apply login_access_token_decodes.
    + apply login_refresh_token_decodes.
Qed.

End ActivationProofs.

Lemma activation_only_by_verification_witness :
  In (set_is_active true alice)
    (users (snd (@serve toy_env sample_clock
                   (GetVerifyEmail alice_verification_token) sample_store))) /\
  exists t e target u,
    GetVerifyEmail alice_verification_token = GetVerifyEmail t /\
    @decode_verification_token toy_env sample_now t = Return (Some e) /\
    (exists p,
       t = Compact ALGORITHM p (@hs256 toy_env (@SECRET_KEY toy_env) ALGORITHM p) /\
       validate_exp p sample_now = Return tt /\
       p !! "sub" = Some (JStr e)) /\
    In target (users sample_store) /\ email target = e /\
    In u (users sample_store) /\ user_pk u = user_pk target /\
    set_is_active true alice = set_is_active true u.
Proof.
  assert (Hin : In (set_is_active true alice)
            (users (snd (@serve toy_env sample_clock
                           (GetVerifyEmail alice_verification_token)
                           sample_store))))
    by (vm_compute; left; reflexivity).
  split; [exact Hin |].
  destruct (@activation_only_by_verification toy_env sample_clock
              (GetVerifyEmail alice_verification_token) sample_store)
    as (_ & Hstep & _).
  destruct (Hstep (set_is_active true alice) Hin eq_refl)
    as [(u & Hu & Hpk & Ha) | Hver]; [| exact Hver].
  exfalso. destruct Hu as [<- | [<- | []]]; simpl in Hpk, Ha;
    discriminate.
Defined.

(** C6 (as stated) fails: the sample user has never been verified and
    logs in; the access token of that login, which no registration mailed
    and which is not the verification token of the moment, is accepted by
    the verification endpoint and activates the account. *)
Lemma login_token_activates_unverified_user :
  In alice (users sample_store) /\ is_active alice = false /\
  (exists refresh_token,
     @login_for_token toy_env sample_store sample_now
       "alice@example.com" "wonderland"
     = Return (alice_token, refresh_token)) /\
  alice_token
  = @create_access_token toy_env sample_now
      {["sub" := JStr "alice@example.com"]} None /\
  alice_token <> alice_verification_token /\
  @serve toy_env sample_clock (GetVerifyEmail alice_token) sample_store
  = (200, activate_user sample_store alice) /\
  users (activate_user sample_store alice) = [set_is_active true alice; root] /\
  is_active (set_is_active true alice) = true.
Proof.
  split; [left; reflexivity |]. split; [reflexivity |].
  split.
  { exists (@create_refresh_token toy_env sample_now
              {["sub" := JStr "alice@example.com"]} None).
    vm_compute. reflexivity. }
  split; [reflexivity |].
  split.
  - intros H.
    apply (f_equal (fun t => match t with
                             | Compact _ _ sig => sig
                             | Malformed raw => raw
                             end)) in H.
    vm_compute in H. discriminate H.
  - split; [vm_compute; reflexivity |].
    split; [vm_compute; reflexivity | reflexivity].
Qed.

(** Registration, then the mailed token: the new user is inactive after
    the first request and active after the second. *)
Example register_then_verify :
  match @register toy_env sample_store sample_now
          (mkUserCreate "carol" "carol@example.com" "pw" USER) with
  | Return (u, tok, s1) =>
      is_active u = false /\
      fst (@serve toy_env sample_clock (GetVerifyEmail tok) s1) = 200 /\
      users (snd (@serve toy_env sample_clock (GetVerifyEmail tok) s1))
      = [alice; root; set_is_active true u]
  | Raise _ => False
  end.
Proof. vm_compute. repeat split. Qed.

(** The decoder of verification tokens does not tell the token classes
    apart: the access token that login gives the inactive sample user
    passes the verification. *)
Example access_token_verifies_email :
  match @login_for_token toy_env sample_store sample_now
          "alice@example.com" "wonderland" with
  | Return (access_token, _) =>
      @decode_verification_token toy_env sample_now access_token
        = Return (Some "alice@example.com") /\
      users (snd (@serve toy_env sample_clock (GetVerifyEmail access_token)
                    sample_store))
        = [set_is_active true alice; root]
  | Raise _ => False
  end.
Proof. vm_compute. repeat split. Qed.

Example verify_email_bad_token :
  @serve toy_env sample_clock (GetVerifyEmail (Malformed "x.y.z")) sample_store
  = (404, sample_store).
Proof. vm_compute. reflexivity. Qed.

(** ** Search *)

Ltac each_ascii c := destruct c as [[] [] [] [] [] [] [] []].

(** The equations of [like], by the kind of the first pattern character. *)
Lemma like_percent (p s : list ascii) :
  Sql.like ("%"%char :: p) s =
  Sql.like p s
  || match s with [] => false | _ :: s' => Sql.like ("%"%char :: p) s' end.
Proof. destruct s; reflexivity. Qed.

Lemma like_literal (c : ascii) (p s : list ascii) :
  is_wildcard c = false ->
  Sql.like (c :: p) s =
  match s with [] => false | c' :: s' => Ascii.eqb c c' && Sql.like p s' end.
Proof.
  intros Hc. each_ascii c; try discriminate Hc; destruct s; reflexivity.
Qed.

Lemma like_percent_true (p s : list ascii) :
  Sql.like ("%"%char :: p) s = true <->
  exists a b, s = (a ++ b)%list /\ Sql.like p b = true.
Proof.
  induction s as [|c s IH]; rewrite like_percent, orb_true_iff.
  - split.
    + intros [H | H]; [| discriminate]. exists [], []. auto.
    + intros (a & b & Hs & Hb). left.
      symmetry in Hs. apply List.app_eq_nil in Hs. destruct Hs as [_ ->].
      exact Hb.
  - rewrite IH. split.
    + intros [H | (a & b & -> & Hb)].
      * exists [], (c :: s). auto.
      * exists (c :: a), b. auto.
    + intros ([|x a] & b & Hs & Hb).
      * left. simpl in Hs. subst b. exact Hb.
      * right. simpl in Hs. inversion Hs; subst. exists a, b. auto.
Qed.

(** A run of ordinary characters matches itself and nothing else. *)
Lemma like_literals_true (q p s : list ascii) :
  forallb (fun c => negb (is_wildcard c)) q = true ->
  Sql.like (q ++ p) s = true <->
  exists b, s = (q ++ b)%list /\ Sql.like p b = true.
Proof.
  revert s. induction q as [|c q IH]; intros s Hq.
  - simpl. split; [intros H; exists s; auto | intros (b & -> & Hb); exact Hb].
  - simpl in Hq. apply andb_true_iff in Hq. destruct Hq as [Hc Hq].
    apply negb_true_iff in Hc.
    rewrite <- List.app_comm_cons, (like_literal c _ s Hc).
    destruct s as [|c' s].
    + split; [discriminate | intros (b & Hb & _); discriminate].
    + rewrite andb_true_iff, (IH s Hq). split.
      * intros [Hcc (b & -> & Hb)]. apply Ascii.eqb_eq in Hcc. subst c'.
        exists b. auto.
      * intros (b & Hs & Hb). inversion Hs; subst.
        split; [apply Ascii.eqb_refl | exists b; auto].
Qed.

Lemma like_any (s : list ascii) : Sql.like ["%"%char] s = true.
Proof. apply like_percent_true. exists s, []. rewrite List.app_nil_r. auto. Qed.

(** The pattern that the search builds from an ordinary query matches
    the strings that contain it. *)
Lemma like_infix (q s : list ascii) :
  forallb (fun c => negb (is_wildcard c)) q = true ->
  Sql.like ("%"%char :: q ++ ["%"%char]) s = true <->
  exists a b, s = (a ++ q ++ b)%list.
Proof.
  intros Hq. rewrite like_percent_true. split.
  - intros (a & b & -> & Hb). apply (like_literals_true q) in Hb; [| exact Hq].
    destruct Hb as (b' & -> & _). exists a, b'. reflexivity.
  - intros (a & b & ->). exists a, (q ++ b)%list. split; [reflexivity |].
    apply like_literals_true; [exact Hq |]. exists b. split; [reflexivity |].
    apply like_any.
Qed.

Lemma is_prefix_true (q s : list ascii) :
  is_prefix q s = true <-> exists b, s = (q ++ b)%list.
Proof.
  revert s. induction q as [|c q IH]; intros s; simpl.
  - split; [intros _; exists s; reflexivity | reflexivity].
  - destruct s as [|c' s].
    + split; [discriminate | intros (b & Hb); discriminate].
    + rewrite andb_true_iff, IH. split.
      * intros [Hc (b & ->)]. apply Ascii.eqb_eq in Hc. subst. exists b.
        reflexivity.
      * intros (b & Hb). inversion Hb; subst.
        split; [apply Ascii.eqb_refl | exists b; reflexivity].
Qed.

(** [contains] decides the occurrence of [q] inside [s]. *)
Lemma contains_true (q s : list ascii) :
  contains q s = true <-> exists a b, s = (a ++ q ++ b)%list.
Proof.
  induction s as [|c s IH]; simpl; rewrite orb_true_iff, is_prefix_true.
  - split.
    + intros [(b & Hb) | H]; [| discriminate]. exists [], b. exact Hb.
    + intros ([|x a] & b & Hs); [| discriminate]. left. exists b. exact Hs.
  - rewrite IH. split.
    + intros [(b & Hb) | (a & b & ->)].
      * exists [], b. exact Hb.
      * exists (c :: a), b. reflexivity.
    + intros ([|x a] & b & Hs).
      * left. exists b. exact Hs.
      * right. inversion Hs; subst. exists a, b. reflexivity.
Qed.

Lemma list_ascii_of_string_app (a b : string) :
  list_ascii_of_string (a ++ b)%string
  = (list_ascii_of_string a ++ list_ascii_of_string b)%list.
Proof. induction a as [|c a IH]; simpl; [| rewrite IH]; reflexivity. Qed.

Lemma search_pattern (query : string) :
  map Sql.lower (list_ascii_of_string ("%" ++ query ++ "%")%string)
  = "%"%char :: (map Sql.lower (list_ascii_of_string query) ++ ["%"%char])%list.
Proof.
  rewrite !list_ascii_of_string_app, !List.map_app. reflexivity.
Qed.

Lemma is_wildcard_lower (c : ascii) :
  is_wildcard (Sql.lower c) = is_wildcard c.
Proof. each_ascii c; reflexivity. Qed.

Lemma no_wildcards_lower (query : string) :
  no_wildcards query = true ->
  forallb (fun c => negb (is_wildcard c))
    (map Sql.lower (list_ascii_of_string query)) = true.
Proof.
  unfold no_wildcards. induction (list_ascii_of_string query) as [|c l IH];
    [reflexivity |].
  simpl. rewrite is_wildcard_lower, !andb_true_iff. intros [Hc Hl]. auto.
Qed.

(** For a query without [%], [_] and backslash, the [ILIKE] of the search
    is the substring test, letter case apart. *)
Lemma ilike_icontains (query field : string) :
  no_wildcards query = true ->
  Sql.ilike field ("%" ++ query ++ "%")%string = icontains query field.
Proof.
  intros Hq. apply Bool.eq_iff_eq_true. unfold Sql.ilike, icontains.
  rewrite search_pattern, like_infix, contains_true;
    [reflexivity | apply no_wildcards_lower, Hq].
Qed.

(** The pattern of a search never ends inside a quotation. *)
Lemma dangling_escape_cons (c : ascii) (p : list ascii) :
  Sql.dangling_escape (c :: p) =
  if Ascii.eqb c "\" then
    match p with [] => true | _ :: p' => Sql.dangling_escape p' end
  else Sql.dangling_escape p.
Proof. each_ascii c; destruct p; reflexivity. Qed.

Lemma search_pattern_well_formed (query : string) :
  Sql.dangling_escape
    (map Sql.lower (list_ascii_of_string ("%" ++ query ++ "%")%string)) = false.
Proof.
  rewrite search_pattern, dangling_escape_cons. simpl.
  generalize (map Sql.lower (list_ascii_of_string query)). intros q.
  assert (H : forall n (q : list ascii), (length q <= n)%nat ->
            Sql.dangling_escape (q ++ ["%"%char]) = false).
  { clear q. induction n as [|n IH]; intros q Hlen.
    - destruct q; [reflexivity | simpl in Hlen; lia].
    - destruct q as [|c q]; [reflexivity |].
      rewrite <- List.app_comm_cons, dangling_escape_cons.
      destruct (Ascii.eqb c "\").
      + destruct q as [|d q]; simpl; [reflexivity |].
        apply IH. simpl in Hlen. lia.
      + apply IH. simpl in Hlen. lia. }
  apply (H (length q)). lia.
Qed.

Example like_examples :
  Sql.ilike "Johnson" "%hns%" = true /\
  Sql.ilike "Johnson" "%HNS%" = true /\
  Sql.ilike "Johnson" "j_hn%" = true /\
  Sql.ilike "Johnson" "%j_n%" = false /\
  Sql.ilike "50%" "%0\%%" = true /\
  Sql.ilike "505" "%0\%%" = false /\
  Sql.ilike "" "%%" = true.
Proof. vm_compute. repeat split. Qed.

Lemma search_match_owner (owner : Z) (query : string) (c : Contact) :
  search_match owner query c = true -> owner_id c = owner.
Proof.
  unfold search_match. rewrite andb_true_iff, Z.eqb_eq. tauto.
Qed.

(** C8 (as amended): the search returns exactly the contacts of the
    caller whose first name, last name or email matches [%query%] under
    [ILIKE]; no contact of another owner is returned, whatever the query;
    and for a query without the characters [%], [_] and backslash the
    match is the occurrence of the query as a substring, letter case
    apart. *)
Theorem search_contacts_scoped_substring
  (s : Store) (owner : Z) (query : string) :
  (forall c, In c (search_contacts s owner query) <->
     In c (contacts s) /\ owner_id c = owner /\
     (Sql.ilike (first_name c) ("%" ++ query ++ "%")%string = true \/
      Sql.ilike (last_name c) ("%" ++ query ++ "%")%string = true \/
      Sql.ilike (contact_email c) ("%" ++ query ++ "%")%string = true)) /\
  (forall c, In c (search_contacts s owner query) -> owner_id c = owner) /\
  (no_wildcards query = true ->
   forall c, In c (search_contacts s owner query) <->
     In c (contacts s) /\ owner_id c = owner /\
     (icontains query (first_name c) = true \/
      icontains query (last_name c) = true \/
      icontains query (contact_email c) = true)).
Proof.
  assert (Hchar : forall c, In c (search_contacts s owner query) <->
     In c (contacts s) /\ owner_id c = owner /\
     (Sql.ilike (first_name c) ("%" ++ query ++ "%")%string = true \/
      Sql.ilike (last_name c) ("%" ++ query ++ "%")%string = true \/
      Sql.ilike (contact_email c) ("%" ++ query ++ "%")%string = true)).
  { intros c. unfold search_contacts, search_match.
    rewrite filter_In_iff, andb_true_iff, !orb_true_iff, Z.eqb_eq. tauto. }
  split; [exact Hchar |]. split.
  - intros c Hc. apply Hchar in Hc. tauto.
  - intros Hq c. rewrite Hchar, !(ilike_icontains query _ Hq). reflexivity.
Qed.

Lemma search_contacts_scoped_substring_witness :
  no_wildcards "LEE" = true /\
  forall c, In c (search_contacts sample_store 1 "LEE") <->
    In c (contacts sample_store) /\ owner_id c = 1 /\
    (icontains "LEE" (first_name c) = true \/
     icontains "LEE" (last_name c) = true \/
     icontains "LEE" (contact_email c) = true).
Proof.
  split; [reflexivity |].
  apply (search_contacts_scoped_substring sample_store 1 "LEE").
  reflexivity.
Defined.

(** C8 (as stated) fails: the query "_" is no substring of Bob's fields,
    and the search of owner 2 returns Bob. *)
Lemma search_contacts_wildcard_refuted :
  search_contacts sample_store 2 "_" = [bob] /\
  icontains "_" (first_name bob) = false /\
  icontains "_" (last_name bob) = false /\
  icontains "_" (contact_email bob) = false /\
  search_contacts sample_store 1 "a%e" = [ann; ann_lee] /\
  icontains "a%e" (first_name ann) = false /\
  icontains "a%e" (last_name ann) = false /\
  icontains "a%e" (contact_email ann) = false.
Proof. vm_compute. repeat split. Qed.

Example search_contacts_examples :
  search_contacts sample_store 1 "LEE" = [ann; ann_lee] /\
  search_contacts sample_store 1 "bob" = [] /\
  search_contacts sample_store 2 "EXAMPLE.com" = [bob] /\
  search_contacts sample_store 1 "" = [ann; ann_lee] /\
  search_contacts sample_store 1 "al@" = [ann_lee].
Proof. vm_compute. repeat split. Qed.

(** ** The schema's constraints are kept by every request *)

Lemma NoDup_map_filter {A B : Type} (f : A -> B) (p : A -> bool) (l : list A) :
  List.NoDup (map f l) -> List.NoDup (map f (List.filter p l)).
Proof.
  induction l as [|a l IH]; intros Hnd; [exact Hnd |].
  simpl in Hnd. apply List.NoDup_cons_iff in Hnd. destruct Hnd as [Hna Hnd].
  simpl. destruct (p a); [| exact (IH Hnd)].
  simpl. apply List.NoDup_cons; [| exact (IH Hnd)].
  intros Hin. apply Hna. apply List.in_map_iff in Hin.
  destruct Hin as (x & Hx & Hxin). apply filter_In_iff in Hxin.
  rewrite <- Hx. apply List.in_map. tauto.
Qed.

Lemma NoDup_snoc {B : Type} (l : list B) (x : B) :
  List.NoDup l -> ~ In x l -> List.NoDup (l ++ [x]).
Proof.
  intros Hnd Hx. apply List.NoDup_app; [exact Hnd | | ].
  - apply List.NoDup_cons; [intros [] | apply List.NoDup_nil].
  - intros y Hy [<- | []]. exact (Hx Hy).
Qed.

Lemma map_column_kept {A B : Type} (col : A -> B) (g : A -> A) (l : list A) :
  (forall x, col (g x) = col x) -> map col (map g l) = map col l.
Proof.
  intros H. rewrite List.map_map. apply List.map_ext. exact H.
Qed.

Lemma existsb_false_forall {A : Type} (p : A -> bool) (l : list A) :
  existsb p l = false -> forall x, In x l -> p x = false.
Proof.
  intros H x Hx. destruct (p x) eqn:E; [| reflexivity].
  assert (existsb p l = true) by (apply List.existsb_exists; eauto).
  congruence.
Qed.

(** Writing a new value into the unique column of the row with key [k],
    when no other row has that value. *)
Lemma NoDup_update_column {A : Type} (key : A -> Z) (col : A -> string)
  (g : A -> A) (k : Z) (e : string) (l : list A) :
  (forall x, key (g x) = key x) ->
  (forall x, col (g x) = e) ->
  List.NoDup (map key l) -> List.NoDup (map col l) ->
  (forall x, In x l -> key x <> k -> col x <> e) ->
  List.NoDup (map col (map (fun x => if key x =? k then g x else x) l)).
Proof.
  intros Hkey Hcol. induction l as [|a l IH]; intros Hk Hc Hfree;
    [apply List.NoDup_nil |].
  simpl in Hk, Hc. apply List.NoDup_cons_iff in Hk, Hc.
  destruct Hk as [Hka Hk], Hc as [Hca Hc]. simpl.
  assert (IHl := IH Hk Hc (fun x Hx => Hfree x (or_intror Hx))).
  apply List.NoDup_cons; [| exact IHl].
  intros Hin. apply List.in_map_iff in Hin. destruct Hin as (y & Hy & Hyin).
  apply List.in_map_iff in Hyin. destruct Hyin as (x & <- & Hx).
  destruct (Z.eqb_spec (key a) k) as [Ha | Ha],
           (Z.eqb_spec (key x) k) as [Hxk | Hxk].
  - apply Hka. rewrite Ha, <- Hxk. apply List.in_map. exact Hx.
  - rewrite Hcol in Hy. exact (Hfree x (or_intror Hx) Hxk Hy).
  - rewrite Hcol in Hy. symmetry in Hy.
    exact (Hfree a (or_introl eq_refl) Ha Hy).
  - apply Hca. rewrite <- Hy. apply List.in_map. exact Hx.
Qed.

Lemma flush_user_wf (f : User -> User) (pk : Z) (s : Store) :
  (forall u, user_pk (f u) = user_pk u) ->
  (forall u, email (f u) = email u) ->
  (forall u, role_id (f u) = role_id u) ->
  wf_store s -> wf_store (flush_user f pk s).
Proof.
  intros Hpk Hem Hro Hwf. destruct Hwf. unfold flush_user.
  set (g := fun r => if user_pk r =? pk then f r else r).
  assert (Gpk : forall u, user_pk (g u) = user_pk u)
    by (intros u; unfold g; destruct (user_pk u =? pk); auto).
  assert (Gem : forall u, email (g u) = email u)
    by (intros u; unfold g; destruct (user_pk u =? pk); auto).
  assert (Gro : forall u, role_id (g u) = role_id u)
    by (intros u; unfold g; destruct (user_pk u =? pk); auto).
  constructor; simpl; auto.
  - rewrite (map_column_kept user_pk g _ Gpk). assumption.
  - rewrite (map_column_kept email g _ Gem). assumption.
  - intros u Hu. apply List.in_map_iff in Hu. destruct Hu as (x & <- & Hx).
    rewrite Gpk. auto.
  - intros u Hu. apply List.in_map_iff in Hu. destruct Hu as (x & <- & Hx).
    rewrite Gro. auto.
Qed.

Lemma fresh_key (l : list Z) (bound : Z) :
  (forall x, In x l -> x <= bound) -> ~ In (bound + 1) l.
Proof. intros H Hin. apply H in Hin. lia. Qed.

Lemma delete_contact_wf (s : Store) (i : Z) :
  wf_store s -> wf_store (delete_contact s i).
Proof.
  intros Hwf. destruct Hwf. unfold delete_contact.
  constructor; simpl; auto using NoDup_map_filter.
  intros c Hc. apply filter_In_iff in Hc. destruct Hc as [Hc _]. auto.
Qed.

Lemma create_contacts_wf
  (s : Store) (cc : ContactsCreate) (owner : Z) (c : Contact) (s' : Store) :
  wf_store s -> create_contacts s cc owner = Return (c, s') -> wf_store s'.
Proof.
  intros Hwf. destruct Hwf. unfold create_contacts.
  destruct (existsb _ (contacts s)) eqn:E; [discriminate |].
  intros H. inversion H; subst; clear H.
  pose proof (existsb_false_forall _ _ E) as Hfree.
  constructor; simpl; auto.
  - rewrite List.map_app. apply NoDup_snoc; [assumption |].
    apply fresh_key. intros x Hx. apply List.in_map_iff in Hx.
    destruct Hx as (y & <- & Hy). auto.
  - rewrite List.map_app. apply NoDup_snoc; [assumption |].
    intros Hin. apply List.in_map_iff in Hin. destruct Hin as (y & Hy & Hyin).
    apply Hfree in Hyin. apply String.eqb_neq in Hyin. auto.
  - intros x Hx. apply List.in_app_or in Hx.
    destruct Hx as [Hx | [<- | []]]; simpl; [| lia].
    specialize (wf_contact_seq0 x Hx). lia.
Qed.

Lemma update_contact_wf
  (s : Store) (identifier : string) (owner : Z) (cu : ContactsCreate)
  (o : option Contact) (s' : Store) :
  wf_store s -> update_contact s identifier owner cu = Return (o, s') ->
  wf_store s'.
Proof.
  intros Hwf. unfold update_contact.
  destruct (find_contact s owner identifier) as [[c|] | e]; simpl;
    try discriminate.
  2: { intros H. inversion H; subst. exact Hwf. }
  match goal with
  | |- (_ ← ?guard; _) = _ -> _ => destruct guard as [[] | e]
  end; simpl; [| discriminate].
  destruct (existsb _ (contacts s)) eqn:E; [discriminate |].
  intros H. inversion H; subst; clear H.
  pose proof (existsb_false_forall _ _ E) as Hfree. simpl in Hfree.
  destruct Hwf. constructor; simpl; auto.
  - rewrite map_column_kept; [assumption |].
    intros x. destruct (contact_pk x =? contact_pk c); reflexivity.
  - apply (NoDup_update_column contact_pk contact_email (apply_update cu)
             (contact_pk c) (cc_email cu)); auto.
    intros x Hx Hk He. specialize (Hfree x Hx).
    apply andb_false_iff in Hfree. destruct Hfree as [Hf | Hf].
    + apply negb_false_iff, Z.eqb_eq in Hf. contradiction.
    + apply String.eqb_neq in Hf. contradiction.
  - intros x Hx. apply List.in_map_iff in Hx. destruct Hx as (y & <- & Hy).
    specialize (wf_contact_seq0 y Hy).
    destruct (contact_pk y =? contact_pk c); simpl; lia.
Qed.

Section InvariantProofs.
Context {env : Environment}.

Lemma create_user_wf (s : Store) (uc : UserCreate) (u : User) (s' : Store) :
  wf_store s -> create_user s uc = Return (u, s') -> wf_store s'.
Proof.
  intros Hwf. unfold create_user.
  destruct (get_role_by_name s (uc_role uc)) as [[ro|] | e] eqn:Er; simpl;
    try discriminate.
  destruct (existsb _ (users s)) eqn:E; [discriminate |].
  intros H. inversion H; subst; clear H.
  pose proof (existsb_false_forall _ _ E) as Hfree.
  assert (Hro : In ro (roles s)).
  { unfold get_role_by_name in Er. apply scalar_one_or_none_Some in Er.
    assert (Hin : In ro (List.filter
                           (fun ro => String.eqb (name ro) (value (uc_role uc)))
                           (roles s))) by (rewrite Er; left; reflexivity).
    apply filter_In_iff in Hin. tauto. }
  destruct Hwf. constructor; simpl; auto.
  - rewrite List.map_app. apply NoDup_snoc; [assumption |].
    apply fresh_key. intros x Hx. apply List.in_map_iff in Hx.
    destruct Hx as (y & <- & Hy). auto.
  - rewrite List.map_app. apply NoDup_snoc; [assumption |].
    intros Hin. apply List.in_map_iff in Hin. destruct Hin as (y & Hy & Hyin).
    apply Hfree in Hyin. apply String.eqb_neq in Hyin. auto.
  - intros x Hx. apply List.in_app_or in Hx.
    destruct Hx as [Hx | [<- | []]]; simpl; [| lia].
    specialize (wf_user_seq0 x Hx). lia.
  - intros x Hx. apply List.in_app_or in Hx.
    destruct Hx as [Hx | [<- | []]]; simpl; [auto |].
    exists ro. auto.
Qed.

(** The constraints of the schema hold after every request. *)
Theorem serve_preserves_wf (clk : clock) (req : request) (s : Store) :
  wf_store s -> wf_store (snd (serve clk req s)).
Proof.
  intros Hwf. destruct req; simpl; try exact Hwf.
  - unfold register.
    destruct (get_user_by_email s (Some (uc_email user_create)))
      as [[x|] | e]; simpl; try exact Hwf.
    destruct (create_user s user_create) as [[u s'] | e] eqn:E; simpl;
      [| exact Hwf].
    exact (create_user_wf _ _ _ _ Hwf E).
  - unfold verify_email.
    destruct (decode_verification_token (utc_now clk) t) as [e | x]; simpl;
      [| exact Hwf].
    destruct (get_user_by_email s e) as [[u|] | x]; simpl; try exact Hwf.
    apply flush_user_wf; auto.
  - unfold update_avatar_user, update_avatar.
    destruct (get_current_user s (utc_now clk) t) as [cu | x]; simpl;
      [| exact Hwf].
    destruct upload as [[url|] | x]; simpl; try exact Hwf.
    destruct (truthy url); simpl; [| exact Hwf].
    destruct (get_user_by_email s (Some (email cu))) as [[u|] | x]; simpl;
      try exact Hwf.
    apply flush_user_wf; auto.
  - unfold create_contacts_route.
    destruct (RoleChecker [USER; ADMIN] s (utc_now clk) t); simpl;
      [| exact Hwf].
    destruct (get_current_user s (utc_now clk) t) as [cu | x]; simpl;
      [| exact Hwf].
    destruct (create_contacts s contact (user_pk cu)) as [[c s'] | e] eqn:E;
      simpl; [| exact Hwf].
    exact (create_contacts_wf _ _ _ _ _ Hwf E).
  - unfold delete_contact_route.
    destruct (RoleChecker [ADMIN] s (utc_now clk) t); simpl; [| exact Hwf].
    destruct (get_contact_by_id s contact_id) as [[c|] | e]; simpl;
      try exact Hwf.
    apply delete_contact_wf, Hwf.
  - unfold update_contact_route.
    destruct (get_current_user s (utc_now clk) t) as [cu | x]; simpl;
      [| exact Hwf].
    destruct (update_contact s identifier (user_pk cu) contact_update)
      as [[o s'] | e] eqn:E; simpl; [| exact Hwf].
    destruct o as [c|]; simpl; [| exact Hwf].
    exact (update_contact_wf _ _ _ _ _ _ Hwf E).
Qed.

End InvariantProofs.

(** ** Activation over a sequence of requests *)

Section TraceProofs.
Context {env : Environment}.

(** X25: whoever is active after a sequence of requests was active
    before it or is the subject of a verification token that one of the
    requests presented and the decoder accepted. *)
Theorem active_users_were_verified
  (trace : list (clock * request)) (s : Store) (u' : User) :
  wf_store s ->
  In u' (users (run trace s)) -> is_active u' = true ->
  (exists u, In u (users s) /\ user_pk u = user_pk u' /\
             email u = email u' /\ is_active u = true)
  \/
  (exists clk t,
     In (clk, GetVerifyEmail t) trace /\
     decode_verification_token (utc_now clk) t = Return (Some (email u'))).
Proof.
  revert s. induction trace as [|[clk req] trace IH]; intros s Hwf Hin Hact.
  - left. exists u'. auto.
  - simpl in Hin.
    destruct (IH _ (serve_preserves_wf clk req s Hwf) Hin Hact)
      as [(u1 & Hu1 & Hpk1 & Hem1 & Ha1) | (clk' & t & Ht & Hd)].
    + destruct (user_row_after_request clk req s u1 Hu1 Ha1)
        as [(u & Hu & Hpk & Hem & Ha)
           | (t & e & target & u & -> & Hd & Htgt & He & Hu & Hpk & ->)].
      * left. exists u. repeat split; congruence || assumption.
      * right. exists clk, t. split; [left; reflexivity |].
        assert (u = target)
          by (apply (NoDup_key_inj user_pk (users s));
              auto using wf_user_pk).
        subst u. simpl in Hem1. rewrite <- Hem1, He. exact Hd.
    + right. exists clk', t. split; [right; exact Ht | exact Hd].
Qed.

End TraceProofs.


(** * Further properties of the service *)

(** ** Authentication *)

Lemma NoDup_column_inj {A : Type} (col : A -> string) (l : list A) (x y : A) :
  List.NoDup (map col l) -> In x l -> In y l -> col x = col y -> x = y.
Proof.
  induction l as [|a l IH]; intros Hnd Hx Hy Hk; [destruct Hx |].
  simpl in Hnd. apply List.NoDup_cons_iff in Hnd. destruct Hnd as [Hna Hnd].
  destruct Hx as [<- | Hx], Hy as [<- | Hy]; auto.
  - exfalso. apply Hna. rewrite Hk. apply List.in_map. exact Hy.
  - exfalso. apply Hna. rewrite <- Hk. apply List.in_map. exact Hx.
Qed.

(** The lookup by the email of a stored user finds that user. *)
Lemma get_user_by_email_member (s : Store) (u : User) :
  List.NoDup (map email (users s)) -> In u (users s) ->
  get_user_by_email s (Some (email u)) = Return (Some u).
Proof.
  intros Hnd Hu.
  destruct (get_user_by_email_unique s (email u) Hnd)
    as [[_ Hfree] | (u' & Hg & Hu' & He)].
  - exfalso. exact (Hfree u Hu eq_refl).
  - rewrite Hg. do 2 f_equal.
    exact (NoDup_column_inj email (users s) u' u Hnd Hu' Hu He).
Qed.

Lemma get_user_by_email_absent (s : Store) (x : string) :
  (forall u, In u (users s) -> email u <> x) ->
  get_user_by_email s (Some x) = Return None.
Proof.
  intros Hfree. unfold get_user_by_email.
  rewrite filter_none; [reflexivity |].
  intros u Hu. simpl. apply String.eqb_neq. exact (Hfree u Hu).
Qed.

(** No row has a null email: the lookup of [None] finds nobody. *)
Lemma get_user_by_email_null (s : Store) :
  get_user_by_email s None = Return None.
Proof.
  unfold get_user_by_email. rewrite filter_none; [reflexivity |].
  intros u _. reflexivity.
Qed.

Section AuthFlows.
Context {env : Environment}.

(** A token that decodes to the email of a stored user authenticates
    that user. *)
Lemma get_current_user_of_subject (s : Store) (now : Z) (t : token) (u : User) :
  List.NoDup (map email (users s)) -> In u (users s) ->
  decode_verification_token now t = Return (Some (email u)) ->
  get_current_user s now t = Return u.
Proof.
  intros Hnd Hu Hd. apply decode_access_token_verification in Hd.
  unfold get_current_user. rewrite Hd. simpl.
  rewrite (get_user_by_email_member s u Hnd Hu). reflexivity.
Qed.

Lemma get_current_user_rejected (s : Store) (now : Z) (t : token) :
  decode_access_token now t = Return None ->
  get_current_user s now t = Raise credentials_exception.
Proof. intros Hd. unfold get_current_user. rewrite Hd. reflexivity. Qed.

Lemma get_current_user_unknown (s : Store) (now : Z) (t : token) (x : string) :
  decode_access_token now t = Return (Some (mkTokenData (Some x))) ->
  (forall u, In u (users s) -> email u <> x) ->
  get_current_user s now t = Raise credentials_exception.
Proof.
  intros Hd Hfree. unfold get_current_user. rewrite Hd. simpl.
  rewrite (get_user_by_email_absent s x Hfree). reflexivity.
Qed.

(** What a login returns. *)
Lemma login_for_token_Return
  (s : Store) (now : Z) (e p : string) (a r : token) :
  login_for_token s now e p = Return (a, r) ->
  exists u, In u (users s) /\ email u = e /\
            verify_password p (hashed_password u) = true /\
            a = create_access_token now {["sub" := JStr (email u)]} None /\
            r = create_refresh_token now {["sub" := JStr (email u)]} None.
Proof.
  unfold login_for_token.
  destruct (get_user_by_email s (Some e)) as [[u|] | x] eqn:Eg; simpl;
    try discriminate.
  destruct (verify_password p (hashed_password u)) eqn:Ev; simpl;
    [| discriminate].
  intros H. inversion H; subst; clear H.
  apply get_user_by_email_Some in Eg. destruct Eg as [Hu He].
  inversion He; subst. exists u. auto.
Qed.

(** X1: a user whom [get_current_user] returns is a stored user, and
    the token is signed by the service's secret, not expired, and has the
    user's email as its subject. *)
Theorem get_current_user_sound (s : Store) (now : Z) (t : token) (u : User) :
  get_current_user s now t = Return u ->
  In u (users s) /\
  validly_signed t /\
  exists p sig,
    t = Compact ALGORITHM p sig /\
    p !! "sub" = Some (JStr (email u)) /\ ~ expired p now.
Proof.
  unfold get_current_user.
  destruct (decode_access_token now t) as [[[o]|] | x] eqn:Ed; simpl;
    try discriminate.
  destruct (get_user_by_email s o) as [[u'|] | x] eqn:Eg; simpl;
    try discriminate.
  intros H. inversion H; subst u'; clear H.
  apply get_user_by_email_Some in Eg. destruct Eg as [Hu ->].
  apply decode_access_token_verification, decode_verification_token_Some in Ed.
  destruct Ed as (p & -> & Hexp & Hsub).
  split; [exact Hu |]. split; [exists p; reflexivity |].
  exists p, (hs256 SECRET_KEY ALGORITHM p).
  split; [reflexivity |]. split; [exact Hsub |].
  apply validate_exp_ok, Hexp.
Qed.

(** X2: a request on an authenticated route whose token the decoder
    rejects, or whose subject is no stored email, is answered 401 and
    leaves the store as it was. *)
Theorem unauthenticated_request_401
  (clk : clock) (req : request) (s : Store) (t : token) :
  bearer req = Some t ->
  decode_access_token (utc_now clk) t = Return None \/
  (exists x,
     decode_access_token (utc_now clk) t = Return (Some (mkTokenData (Some x)))
     /\ forall u, In u (users s) -> email u <> x) ->
  serve clk req s = (401, s).
Proof.
  intros Hb Hrej.
  assert (Hcu : get_current_user s (utc_now clk) t = Raise credentials_exception).
  { destruct Hrej as [Hd | (x & Hd & Hfree)].
    - apply get_current_user_rejected, Hd.
    - exact (get_current_user_unknown s _ t x Hd Hfree). }
  assert (Hrc : forall allowed,
            RoleChecker allowed s (utc_now clk) t = Raise credentials_exception)
    by (intros allowed; unfold RoleChecker; rewrite Hcu; reflexivity).
  destruct req; simpl in Hb; inversion Hb; subst; simpl;
    unfold update_avatar_user, create_contacts_route, get_contacts_route,
      get_contacts_all_route, search_contacts_route, delete_contact_route,
      get_upcoming_birthdays_route, update_contact_route;
    rewrite ?Hrc, ?Hcu; reflexivity.
Qed.

(** X3: both tokens of a login authenticate the user who logged in: the
    access token for thirty minutes, and the refresh token, which
    [get_current_user] takes as well, for seven days. *)
Theorem login_tokens_authenticate
  (s : Store) (now : Z) (e p : string) (a r : token) :
  wf_store s ->
  login_for_token s now e p = Return (a, r) ->
  exists u,
    In u (users s) /\ email u = e /\
    (forall now', now' <= now + minutes ACCESS_TOKEN_EXPIRE_MINUTES ->
       get_current_user s now' a = Return u) /\
    (forall now', now' <= now + days REFRESH_TOKEN_EXPIRE_DAYS ->
       get_current_user s now' r = Return u).
Proof.
  intros Hwf Hlogin. pose proof (wf_user_email s Hwf) as Hnd.
  apply login_for_token_Return in Hlogin.
  destruct Hlogin as (u & Hu & He & _ & -> & ->).
  exists u. split; [exact Hu |]. split; [exact He |]. split; intros now' Hle.
  - apply get_current_user_of_subject; auto.
    apply login_access_token_decodes, Hle.
  - apply get_current_user_of_subject; auto.
    apply login_refresh_token_decodes, Hle.
Qed.

End AuthFlows.

(** ** Registration, verification and login, end to end *)

Section AccountFlows.
Context {env : Environment}.

(** What a successful registration returns. *)
Lemma register_Return
  (s : Store) (now : Z) (uc : UserCreate) (u : User) (tok : token) (s1 : Store) :
  register s now uc = Return (u, tok, s1) ->
  exists ro,
    In ro (roles s) /\ name ro = value (uc_role uc) /\
    u = mkUser (user_seq s + 1) (uc_username uc) (uc_email uc)
          (pwd_hash (uc_password uc)) false None (role_pk ro) /\
    tok = create_verification_token now (uc_email uc) /\
    s1 = mkStore (roles s) (users s ++ [u]) (contacts s)
           (user_seq s + 1) (contact_seq s) /\
    create_user s uc = Return (u, s1).
Proof.
  unfold register.
  destruct (get_user_by_email s (Some (uc_email uc))) as [[x|] | e]; simpl;
    try discriminate.
  destruct (create_user s uc) as [[u' s'] | e] eqn:Ec; simpl; [| discriminate].
  intros H. inversion H; subst; clear H.
  unfold create_user in Ec.
  destruct (get_role_by_name s (uc_role uc)) as [[ro|] | e] eqn:Er;
    simpl in Ec; try discriminate.
  destruct (existsb _ (users s)); [discriminate |].
  inversion Ec; subst; clear Ec. exists ro.
  unfold get_role_by_name in Er. apply scalar_one_or_none_Some in Er.
  assert (Hin : In ro (List.filter
                         (fun ro => String.eqb (name ro) (value (uc_role uc)))
                         (roles s))) by (rewrite Er; left; reflexivity).
  apply filter_In_iff in Hin. destruct Hin as [Hro Hname].
  apply String.eqb_eq in Hname. simpl.
  repeat split; try reflexivity; assumption.
Qed.

(** Activating the row that registration appended. *)
Lemma activate_appended (s : Store) (u : User) :
  (forall x, In x (users s) -> user_pk x <> user_pk u) ->
  users (activate_user
           (mkStore (roles s) (users s ++ [u]) (contacts s)
              (user_pk u) (contact_seq s)) u)
  = (users s ++ [set_is_active true u])%list.
Proof.
  intros Hfresh. unfold activate_user, flush_user. simpl.
  rewrite List.map_app. simpl. rewrite Z.eqb_refl. f_equal.
  rewrite <- (List.map_id (users s)) at 2. apply List.map_ext_in.
  intros x Hx. destruct (Z.eqb_spec (user_pk x) (user_pk u)); [| reflexivity].
  exfalso. exact (Hfresh x Hx e).
Qed.

(** X4: the token that registration mails activates the new account,
    at any time within twenty-four hours: the verification answers 200
    and the user table is the old one followed by the new user, now
    active. *)
Theorem registration_token_activates
  (clk : clock) (s : Store) (now : Z) (uc : UserCreate)
  (u : User) (tok : token) (s1 : Store) :
  wf_store s ->
  register s now uc = Return (u, tok, s1) ->
  utc_now clk <= now + hours VERIFICATION_TOKEN_HOUSE ->
  fst (serve clk (GetVerifyEmail tok) s1) = 200 /\
  users (snd (serve clk (GetVerifyEmail tok) s1))
  = (users s ++ [set_is_active true u])%list /\
  contacts (snd (serve clk (GetVerifyEmail tok) s1)) = contacts s.
Proof.
  intros Hwf Hreg Hle.
  destruct (register_Return _ _ _ _ _ _ Hreg) as (ro & _ & _ & Hu & -> & Hs1 & Hc).
  pose proof (create_user_wf _ _ _ _ Hwf Hc) as Hwf1.
  assert (Hin : In u (users s1))
    by (rewrite Hs1; simpl; apply List.in_or_app; right; left; reflexivity).
  assert (Hemail : email u = uc_email uc) by (rewrite Hu; reflexivity).
  simpl. unfold verify_email.
  rewrite <- Hemail, (verification_token_decodes (email u) now _ Hle). simpl.
  rewrite (get_user_by_email_member s1 u (wf_user_email _ Hwf1) Hin). simpl.
  assert (Hpk : user_pk u = user_seq s + 1) by (rewrite Hu; reflexivity).
  rewrite Hs1, <- Hpk. split; [reflexivity |]. split; [| reflexivity].
  apply activate_appended. intros x Hx.
  pose proof (wf_user_seq s Hwf x Hx). lia.
Qed.

(** X5: the verification endpoint answers 404 and changes nothing when
    the decoder rejects the token or the token's subject is no stored
    email. *)
Theorem verify_email_rejects (clk : clock) (s : Store) (t : token) :
  decode_verification_token (utc_now clk) t = Return None \/
  (exists x,
     decode_verification_token (utc_now clk) t = Return (Some x) /\
     forall u, In u (users s) -> email u <> x) ->
  serve clk (GetVerifyEmail t) s = (404, s).
Proof.
  intros [Hd | (x & Hd & Hfree)]; simpl; unfold verify_email; rewrite Hd; simpl.
  - rewrite get_user_by_email_null. reflexivity.
  - rewrite (get_user_by_email_absent s x Hfree). reflexivity.
Qed.

(** X6: the verification endpoint does not tell an access token from a
    verification token: the access token of a login, presented within its
    thirty minutes, activates the account that logged in. *)
Theorem login_token_passes_verification
  (clk : clock) (s : Store) (now : Z) (e p : string) (a r : token) :
  wf_store s ->
  login_for_token s now e p = Return (a, r) ->
  utc_now clk <= now + minutes ACCESS_TOKEN_EXPIRE_MINUTES ->
  exists u,
    In u (users s) /\ email u = e /\
    serve clk (GetVerifyEmail a) s = (200, activate_user s u) /\
    In (set_is_active true u) (users (activate_user s u)).
Proof.
  intros Hwf Hlogin Hle. pose proof (wf_user_email s Hwf) as Hnd.
  apply login_for_token_Return in Hlogin.
  destruct Hlogin as (u & Hu & He & _ & -> & _).
  exists u. split; [exact Hu |]. split; [exact He |]. split.
  - simpl. unfold verify_email.
    rewrite (login_access_token_decodes (email u) now _ Hle). simpl.
    rewrite (get_user_by_email_member s u Hnd Hu). reflexivity.
  - unfold activate_user, flush_user. simpl. apply List.in_map_iff.
    exists u. rewrite Z.eqb_refl. auto.
Qed.

(** X7: verifying twice is verifying once: a second verification with
    the same token, at the same clock, is answered in the same way and
    leaves the store of the first. *)
Theorem verify_email_idempotent
  (s : Store) (now : Z) (t : token) (m : string) (s1 : Store) :
  wf_store s ->
  verify_email s now t = Return (m, s1) ->
  verify_email s1 now t = Return (m, s1).
Proof.
  intros Hwf. pose proof (wf_user_email s Hwf) as Hnd.
  unfold verify_email.
  destruct (decode_verification_token now t) as [o | x]; simpl;
    [| discriminate].
  destruct (get_user_by_email s o) as [[u|] | x] eqn:Eg; simpl;
    try discriminate.
  intros H. inversion H; subst; clear H.
  apply get_user_by_email_Some in Eg. destruct Eg as [Hu ->].
  assert (Hwf1 : wf_store (activate_user s u))
    by (apply flush_user_wf; auto).
  assert (Hin : In (set_is_active true u) (users (activate_user s u))).
  { unfold activate_user, flush_user. simpl. apply List.in_map_iff.
    exists u. rewrite Z.eqb_refl. auto. }
  change (Some (email u)) with (Some (email (set_is_active true u))).
  rewrite (get_user_by_email_member (activate_user s u) _
             (wf_user_email _ Hwf1) Hin). simpl.
  do 2 f_equal. unfold activate_user, flush_user. simpl. f_equal.
  rewrite List.map_map. apply List.map_ext. intros x.
  destruct (Z.eqb_spec (user_pk x) (user_pk u)) as [Hx | Hx]; simpl.
  - rewrite Hx, Z.eqb_refl. reflexivity.
  - destruct (Z.eqb_spec (user_pk x) (user_pk u)); [contradiction | reflexivity].
Qed.

(** X8: a user who has just registered can log in at once with the
    registration password, although inactive, provided the password
    context verifies a password against its own hash; a password that
    does not verify against that hash is answered 401. *)
Theorem register_then_login
  (s : Store) (now now' : Z) (uc : UserCreate)
  (u : User) (tok : token) (s1 : Store) :
  wf_store s ->
  register s now uc = Return (u, tok, s1) ->
  is_active u = false /\
  (pwd_verify (uc_password uc) (pwd_hash (uc_password uc)) = true ->
   login_for_token s1 now' (uc_email uc) (uc_password uc)
   = Return (create_access_token now' {["sub" := JStr (uc_email uc)]} None,
             create_refresh_token now' {["sub" := JStr (uc_email uc)]} None)) /\
  (forall p',
     pwd_verify p' (pwd_hash (uc_password uc)) = false ->
     status_of 201 (login_for_token s1 now' (uc_email uc) p') = 401).
Proof.
  intros Hwf Hreg.
  destruct (register_Return _ _ _ _ _ _ Hreg) as (ro & _ & _ & Hu & _ & Hs1 & Hc).
  pose proof (create_user_wf _ _ _ _ Hwf Hc) as Hwf1.
  assert (Hin : In u (users s1))
    by (rewrite Hs1; simpl; apply List.in_or_app; right; left; reflexivity).
  assert (Hemail : email u = uc_email uc) by (rewrite Hu; reflexivity).
  assert (Hhash : hashed_password u = pwd_hash (uc_password uc))
    by (rewrite Hu; reflexivity).
  assert (Hg : get_user_by_email s1 (Some (uc_email uc)) = Return (Some u))
    by (rewrite <- Hemail;
        apply get_user_by_email_member; [apply wf_user_email |]; assumption).
  split; [rewrite Hu; reflexivity |]. split.
  - intros Hv. unfold login_for_token, verify_password.
    rewrite Hg. simpl. rewrite Hhash, Hv, Hemail. reflexivity.
  - intros p' Hv. unfold login_for_token, verify_password.
    rewrite Hg. simpl. rewrite Hhash, Hv. reflexivity.
Qed.

End AccountFlows.

(** ** Pages of contacts *)

Lemma In_page {A : Type} (limit offset : nat) (rows : list A) (x : A) :
  In x (page limit offset rows) -> In x rows.
Proof.
  unfold page. intros H.
  rewrite <- (List.firstn_skipn offset rows). apply List.in_or_app. right.
  rewrite <- (List.firstn_skipn limit (drop offset rows)).
  apply List.in_or_app. left. exact H.
Qed.

Lemma page_app {A : Type} (a b k : nat) (rows : list A) :
  (page a k rows ++ page b (k + a) rows)%list = page (a + b) k rows.
Proof.
  unfold page. rewrite <- (drop_drop rows a k). apply take_take_drop.
Qed.

Lemma get_contacts_page (s : Store) (owner : Z) (limit offset : nat) :
  get_contacts s owner limit offset
  = page limit offset (owned_contacts s owner).
Proof. reflexivity. Qed.

(** X9: a page of the owner's contacts holds at most [limit] rows, all
    of them contacts of the owner; consecutive pages put together are the
    larger page, so that paging with a fixed limit lists every contact of
    the owner once, in table order; and a page that starts at or after the
    number of the owner's contacts is empty.  The same holds for the pages
    of all contacts. *)
Theorem contacts_pagination (s : Store) (owner : Z) (a b k : nat) :
  (length (get_contacts s owner a k) <= a)%nat /\
  (forall c, In c (get_contacts s owner a k) ->
     In c (contacts s) /\ owner_id c = owner) /\
  (get_contacts s owner a k ++ get_contacts s owner b (k + a))%list
    = get_contacts s owner (a + b) k /\
  ((length (owned_contacts s owner) <= k)%nat ->
   get_contacts s owner a k = []) /\
  get_contacts s owner (length (owned_contacts s owner)) 0
    = owned_contacts s owner /\
  (length (get_contacts_all s a k) <= a)%nat /\
  (get_contacts_all s a k ++ get_contacts_all s b (k + a))%list
    = get_contacts_all s (a + b) k /\
  get_contacts_all s (length (contacts s)) 0 = contacts s.
Proof.
  rewrite !get_contacts_page.
  change (get_contacts_all s) with (fun l o => page l o (contacts s)).
  cbv beta. repeat split.
  - unfold page. rewrite length_take. lia.
  - apply In_page in H. apply filter_In_iff in H. tauto.
  - apply In_page in H. apply filter_In_iff in H. destruct H as [_ H].
    apply Z.eqb_eq in H. exact H.
  - apply page_app.
  - intros Hk. unfold page. rewrite drop_ge by exact Hk. apply take_nil.
  - unfold page. simpl. apply take_ge. lia.
  - unfold page. rewrite length_take. lia.
  - apply page_app.
  - unfold page. simpl. apply take_ge. lia.
Qed.

(** ** Creating, finding and deleting a contact *)

Lemma filter_filter_andb {A : Type} (f g : A -> bool) (l : list A) :
  List.filter f (List.filter g l) = List.filter (fun x => g x && f x) l.
Proof.
  induction l as [|a l IH]; [reflexivity |].
  simpl. destruct (g a); simpl; [destruct (f a) |]; rewrite IH; reflexivity.
Qed.

(** The lookup by the key of a stored row finds that row. *)
Lemma filter_key_member {A : Type} (key : A -> Z) (l : list A) (x : A) :
  List.NoDup (map key l) -> In x l ->
  List.filter (fun y => key y =? key x) l = [x].
Proof.
  induction l as [|a l IH]; intros Hnd Hx; [destruct Hx |].
  simpl in Hnd. apply List.NoDup_cons_iff in Hnd. destruct Hnd as [Hna Hnd].
  simpl. destruct Hx as [-> | Hx].
  - rewrite Z.eqb_refl. f_equal. apply filter_none. intros y Hy.
    apply Z.eqb_neq. intros He. apply Hna. rewrite <- He.
    apply List.in_map. exact Hy.
  - destruct (Z.eqb_spec (key a) (key x)) as [He | _]; [| exact (IH Hnd Hx)].
    exfalso. apply Hna. rewrite He. apply List.in_map. exact Hx.
Qed.

Lemma get_contact_by_id_member (s : Store) (c : Contact) :
  List.NoDup (map contact_pk (contacts s)) -> In c (contacts s) ->
  get_contact_by_id s (contact_pk c) = Return (Some c).
Proof.
  intros Hnd Hc. unfold get_contact_by_id.
  rewrite (filter_key_member contact_pk _ c Hnd Hc). reflexivity.
Qed.

Lemma get_contact_by_id_absent (s : Store) (i : Z) :
  (forall c, In c (contacts s) -> contact_pk c <> i) ->
  get_contact_by_id s i = Return None.
Proof.
  intros H. unfold get_contact_by_id. rewrite filter_none; [reflexivity |].
  intros c Hc. apply Z.eqb_neq. exact (H c Hc).
Qed.

Lemma create_contacts_Return
  (s : Store) (cc : ContactsCreate) (owner : Z) (c : Contact) (s' : Store) :
  create_contacts s cc owner = Return (c, s') ->
  c = mkContact (contact_seq s + 1) owner (cc_first_name cc) (cc_last_name cc)
        (cc_email cc) (cc_phone_number cc) (cc_birthday cc)
        (cc_additional_info cc) /\
  s' = mkStore (roles s) (users s) (contacts s ++ [c]) (user_seq s)
         (contact_seq s + 1).
Proof.
  unfold create_contacts. destruct (existsb _ (contacts s)); [discriminate |].
  intros H. inversion H; subst. split; reflexivity.
Qed.

(** X10: a contact that [create_contacts] returns carries the fields of
    the request, belongs to the given owner and is appended to the table;
    the lookups by its id find it, the lookup by id and owner finds it for
    its owner only, and the lookups of the other ids answer as before. *)
Theorem created_contact_is_found
  (s : Store) (cc : ContactsCreate) (owner : Z) (c : Contact) (s' : Store) :
  wf_store s ->
  create_contacts s cc owner = Return (c, s') ->
  contacts s' = (contacts s ++ [c])%list /\
  owner_id c = owner /\ contact_email c = cc_email cc /\
  first_name c = cc_first_name cc /\ last_name c = cc_last_name cc /\
  birthday c = cc_birthday cc /\
  get_contact_by_id s' (contact_pk c) = Return (Some c) /\
  get_contact_by_id_and_owner s' owner (contact_pk c) = Return (Some c) /\
  (forall o, o <> owner ->
     get_contact_by_id_and_owner s' o (contact_pk c) = Return None) /\
  (forall i, i <> contact_pk c ->
     get_contact_by_id s' i = get_contact_by_id s i).
Proof.
  intros Hwf Hc. pose proof (create_contacts_wf _ _ _ _ _ Hwf Hc) as Hwf'.
  destruct (create_contacts_Return _ _ _ _ _ Hc) as [Hcv Hs'].
  assert (Hrows : contacts s' = (contacts s ++ [c])%list)
    by (rewrite Hs'; reflexivity).
  assert (Hin : In c (contacts s'))
    by (rewrite Hrows; apply List.in_or_app; right; left; reflexivity).
  assert (Hown : owner_id c = owner) by (rewrite Hcv; reflexivity).
  pose proof (filter_key_member contact_pk _ c (wf_contact_pk _ Hwf') Hin)
    as Hkey.
  split; [exact Hrows |]. split; [exact Hown |].
  do 4 (split; [rewrite Hcv; reflexivity |]).
  split; [apply get_contact_by_id_member; [apply wf_contact_pk |]; assumption |].
  split; [| split].
  - unfold get_contact_by_id_and_owner.
    rewrite (List.filter_ext _ (fun x => (contact_pk x =? contact_pk c)
                                         && (owner_id x =? owner)))
      by (intros x; apply andb_comm).
    rewrite <- filter_filter_andb. rewrite Hkey. simpl.
    rewrite Hown, Z.eqb_refl. reflexivity.
  - intros o Ho. unfold get_contact_by_id_and_owner.
    rewrite (List.filter_ext _ (fun x => (contact_pk x =? contact_pk c)
                                         && (owner_id x =? o)))
      by (intros x; apply andb_comm).
    rewrite <- filter_filter_andb. rewrite Hkey. simpl.
    rewrite Hown. destruct (Z.eqb_spec owner o); [congruence | reflexivity].
  - intros i Hi. unfold get_contact_by_id. rewrite Hrows, List.filter_app.
    simpl. destruct (Z.eqb_spec (contact_pk c) i); [congruence |].
    rewrite List.app_nil_r. reflexivity.
Qed.

(** X11: after [delete_contact] the lookup of the deleted id finds
    nothing and the lookups of the other ids answer as before; deleting an
    id that no contact has changes nothing; and deleting the contact that
    [create_contacts] just created gives back the table from before the
    creation. *)
Theorem deleted_contact_is_gone (s : Store) (i : Z) :
  get_contact_by_id (delete_contact s i) i = Return None /\
  (forall j, j <> i ->
     get_contact_by_id (delete_contact s i) j = get_contact_by_id s j) /\
  users (delete_contact s i) = users s /\
  ((forall c, In c (contacts s) -> contact_pk c <> i) ->
   delete_contact s i = s) /\
  (wf_store s ->
   forall cc owner c s',
     create_contacts s cc owner = Return (c, s') ->
     contacts (delete_contact s' (contact_pk c)) = contacts s).
Proof.
  split; [| split; [| split; [reflexivity | split]]].
  - apply get_contact_by_id_absent. intros c Hc. simpl in Hc.
    apply filter_In_iff in Hc. destruct Hc as [_ Hc].
    apply negb_true_iff, Z.eqb_neq in Hc. exact Hc.
  - intros j Hj. unfold get_contact_by_id, delete_contact. simpl.
    rewrite filter_filter_andb. f_equal. apply List.filter_ext.
    intros c. destruct (Z.eqb_spec (contact_pk c) j) as [-> | _];
      [| apply andb_false_r].
    destruct (Z.eqb_spec j i); [contradiction | reflexivity].
  - intros Hno. unfold delete_contact. destruct s as [ro us cs useq cseq].
    simpl in *. f_equal.
    induction cs as [|c cs IH]; [reflexivity |].
    simpl. destruct (Z.eqb_spec (contact_pk c) i) as [He | _].
    + exfalso. exact (Hno c (or_introl eq_refl) He).
    + simpl. f_equal. apply IH. intros x Hx. apply Hno. right. exact Hx.
  - intros Hwf cc owner c s' Hc.
    destruct (create_contacts_Return _ _ _ _ _ Hc) as [Hcv Hs'].
    rewrite Hs'. unfold delete_contact. simpl.
    rewrite List.filter_app. simpl. rewrite Z.eqb_refl. simpl.
    rewrite List.app_nil_r.
    assert (Hfresh : forall x, In x (contacts s) ->
              negb (contact_pk x =? contact_pk c) = true).
    { intros x Hx. apply negb_true_iff, Z.eqb_neq.
      pose proof (wf_contact_seq s Hwf x Hx). rewrite Hcv. simpl. lia. }
    clear -Hfresh. induction (contacts s) as [|x l IH]; [reflexivity |].
    simpl. rewrite (Hfresh x (or_introl eq_refl)). f_equal.
    apply IH. intros y Hy. apply Hfresh. right. exact Hy.
Qed.

(** ** Updating a contact *)

Lemma find_contact_Some (s : Store) (owner : Z) (identifier : string)
  (c : Contact) :
  find_contact s owner identifier = Return (Some c) ->
  In c (contacts s) /\ owner_id c = owner.
Proof.
  unfold find_contact. intros H. apply scalar_one_or_none_Some in H.
  assert (Hin : In c (List.filter (find_match owner identifier) (contacts s)))
    by (rewrite H; left; reflexivity).
  apply filter_In_iff in Hin. destruct Hin as [Hc Hm].
  apply find_match_true in Hm. tauto.
Qed.

(** What a returning [update_contact] did. *)
Lemma update_contact_Return
  (s : Store) (identifier : string) (owner : Z) (cu : ContactsCreate)
  (o : option Contact) (s' : Store) :
  update_contact s identifier owner cu = Return (o, s') ->
  (find_contact s owner identifier = Return None /\ o = None /\ s' = s) \/
  (exists target,
     find_contact s owner identifier = Return (Some target) /\
     o = Some (apply_update cu target) /\
     s' = mkStore (roles s) (users s)
            (updated_rows cu (contact_pk target) (contacts s))
            (user_seq s) (contact_seq s)).
Proof.
  unfold update_contact.
  destruct (find_contact s owner identifier) as [[c|] | e]; simpl;
    try discriminate.
  - match goal with
    | |- (_ ← ?guard; _) = _ -> _ => destruct guard as [[] | e]
    end; simpl; [| discriminate].
    destruct (existsb _ (contacts s)); [discriminate |].
    intros H. inversion H; subst. right. exists c. auto.
  - intros H. inversion H; subst. left. auto.
Qed.

Lemma updated_rows_In (cu : ContactsCreate) (pk : Z) (l : list Contact)
  (c : Contact) :
  In c l -> contact_pk c <> pk -> In c (updated_rows cu pk l).
Proof.
  intros Hc Hpk. unfold updated_rows. apply List.in_map_iff. exists c.
  destruct (Z.eqb_spec (contact_pk c) pk); [contradiction | auto].
Qed.

(** X12: an update that succeeds rewrites the row that [find_contact]
    resolved, a contact of the caller, and keeps that row's id and owner;
    every other row, and so every contact of another owner, is in the
    table as before; the user table is untouched; and the lookup by id
    then returns the updated contact. *)
Theorem update_contact_effect
  (s : Store) (identifier : string) (owner : Z) (cu : ContactsCreate)
  (c' : Contact) (s' : Store) :
  wf_store s ->
  update_contact s identifier owner cu = Return (Some c', s') ->
  exists target,
    In target (contacts s) /\ owner_id target = owner /\
    c' = apply_update cu target /\
    contact_pk c' = contact_pk target /\ owner_id c' = owner /\
    contact_email c' = cc_email cu /\
    contacts s' = updated_rows cu (contact_pk target) (contacts s) /\
    users s' = users s /\
    (forall c, In c (contacts s) -> contact_pk c <> contact_pk target ->
       In c (contacts s')) /\
    (forall c, In c (contacts s) -> owner_id c <> owner ->
       In c (contacts s')) /\
    get_contact_by_id s' (contact_pk target) = Return (Some c').
Proof.
  intros Hwf Hup. pose proof (update_contact_wf _ _ _ _ _ _ Hwf Hup) as Hwf'.
  destruct (update_contact_Return _ _ _ _ _ _ Hup)
    as [(_ & Ho & _) | (target & Hfind & Ho & Hs')]; [discriminate |].
  inversion Ho; subst c'; clear Ho.
  destruct (find_contact_Some _ _ _ _ Hfind) as [Ht Hown].
  assert (Hrows : contacts s' = updated_rows cu (contact_pk target) (contacts s))
    by (rewrite Hs'; reflexivity).
  assert (Hin' : In (apply_update cu target) (contacts s')).
  { rewrite Hrows. unfold updated_rows. apply List.in_map_iff.
    exists target. rewrite Z.eqb_refl. auto. }
  exists target. split; [exact Ht |]. split; [exact Hown |].
  split; [reflexivity |]. split; [reflexivity |]. split; [exact Hown |].
  split; [reflexivity |]. split; [exact Hrows |].
  split; [rewrite Hs'; reflexivity |]. split; [| split].
  - intros c Hc Hpk. rewrite Hrows. apply updated_rows_In; assumption.
  - intros c Hc Ho. rewrite Hrows. apply updated_rows_In; [exact Hc |].
    intros Hpk. apply Ho. rewrite <- Hown. f_equal.
    exact (NoDup_key_inj contact_pk (contacts s) c target
             (wf_contact_pk s Hwf) Hc Ht Hpk).
  - exact (get_contact_by_id_member s' (apply_update cu target)
             (wf_contact_pk s' Hwf') Hin').
Qed.

Lemma existsb_other_email_false
  (l : list Contact) (pk : Z) (e : string) :
  (forall c, In c l -> contact_email c = e -> contact_pk c = pk) ->
  existsb (fun c => negb (contact_pk c =? pk) && String.eqb (contact_email c) e)
    l = false.
Proof.
  intros H. induction l as [|a l IH]; [reflexivity |].
  simpl. rewrite IH by (intros c Hc; apply H; right; exact Hc).
  rewrite orb_false_r.
  destruct (String.eqb_spec (contact_email a) e) as [He | _];
    [| apply andb_false_r].
  rewrite (H a (or_introl eq_refl) He), Z.eqb_refl. reflexivity.
Qed.

(** X13: when no other contact has the requested email, and so when
    the request keeps the contact's own email, the update of a resolved
    contact succeeds: it returns the contact with the requested fields
    and writes it over the resolved row. *)
Theorem update_contact_free_email_succeeds
  (s : Store) (identifier : string) (owner : Z) (cu : ContactsCreate)
  (target : Contact) :
  wf_store s ->
  find_contact s owner identifier = Return (Some target) ->
  (forall c, In c (contacts s) -> contact_email c = cc_email cu ->
     contact_pk c = contact_pk target) \/
  cc_email cu = contact_email target ->
  update_contact s identifier owner cu
  = Return (Some (apply_update cu target),
            mkStore (roles s) (users s)
              (updated_rows cu (contact_pk target) (contacts s))
              (user_seq s) (contact_seq s)).
Proof.
  intros Hwf Hfind Hfree.
  destruct (find_contact_Some _ _ _ _ Hfind) as [Ht _].
  pose proof (wf_contact_email s Hwf) as Hnd.
  assert (Hother : forall c, In c (contacts s) ->
            contact_email c = cc_email cu -> contact_pk c = contact_pk target).
  { destruct Hfree as [H | He]; [exact H |].
    intros c Hc Hce. f_equal.
    apply (NoDup_column_inj contact_email (contacts s)); congruence. }
  unfold update_contact. rewrite Hfind. simpl.
  assert (Hguard :
    (if truthy (cc_email cu) then
       existing_contact ←
         Sql.scalar_one_or_none
           (List.filter
              (fun c => String.eqb (contact_email c) (cc_email cu))
              (contacts s));
       match existing_contact with
       | Some e =>
           if negb (contact_pk e =? contact_pk target)
           then Raise (ValueError "Email already in use")
           else Return tt
       | None => Return tt
       end
     else Return tt) = Return tt).
  { destruct (truthy (cc_email cu)); [| reflexivity].
    destruct (filter_unique_column contact_email (cc_email cu) (contacts s) Hnd)
      as [[Hf _] | (x & Hf & Hx & Hxe)]; rewrite Hf; simpl; [reflexivity |].
    rewrite (Hother x Hx Hxe), Z.eqb_refl. reflexivity. }
  rewrite Hguard. simpl.
  rewrite (existsb_other_email_false _ _ _ Hother). reflexivity.
Qed.

Section UpdateRouteProofs.
Context {env : Environment}.

(** X14: a PUT by an authenticated user never changes a contact of
    another owner, whatever the identifier and the body, and is answered
    404 with the store unchanged when the identifier resolves to none of
    the caller's contacts. *)
Theorem put_contact_scoped_to_caller
  (clk : clock) (s : Store) (t : token) (identifier : string)
  (cu : ContactsCreate) (u : User) :
  wf_store s ->
  get_current_user s (utc_now clk) t = Return u ->
  (forall c, In c (contacts s) -> owner_id c <> user_pk u ->
     In c (contacts (snd (serve clk (PutContact t identifier cu) s)))) /\
  users (snd (serve clk (PutContact t identifier cu) s)) = users s /\
  (find_contact s (user_pk u) identifier = Return None ->
   serve clk (PutContact t identifier cu) s = (404, s)).
Proof.
  intros Hwf Hcu. simpl. unfold update_contact_route. rewrite Hcu. simpl.
  split; [| split].
  - intros c Hc Ho.
    destruct (update_contact s identifier (user_pk u) cu) as [[o s'] | e] eqn:E;
      simpl; [| exact Hc].
    destruct o as [c'|]; simpl; [| exact Hc].
    destruct (update_contact_Return _ _ _ _ _ _ E)
      as [(_ & Hn & _) | (target & Hfind & _ & ->)]; [discriminate |].
    destruct (find_contact_Some _ _ _ _ Hfind) as [Ht Hown].
    simpl. apply updated_rows_In; [exact Hc |].
    intros Hpk. apply Ho. rewrite <- Hown. f_equal.
    exact (NoDup_key_inj contact_pk (contacts s) c target
             (wf_contact_pk s Hwf) Hc Ht Hpk).
  - destruct (update_contact s identifier (user_pk u) cu) as [[o s'] | e] eqn:E;
      simpl; [| reflexivity].
    destruct o as [c'|]; simpl; [| reflexivity].
    exact (update_contact_users _ _ _ _ _ _ E).
  - intros Hnone. unfold update_contact. rewrite Hnone. reflexivity.
Qed.

End UpdateRouteProofs.

(** ** Search: the empty query and letter case *)

Lemma lower_idempotent (c : ascii) : Sql.lower (Sql.lower c) = Sql.lower c.
Proof. each_ascii c; reflexivity. Qed.

Lemma ilike_everything (field : string) : Sql.ilike field "%%" = true.
Proof.
  unfold Sql.ilike.
  change (map Sql.lower (list_ascii_of_string "%%")) with ["%"%char; "%"%char].
  apply like_percent_true.
  exists (map Sql.lower (list_ascii_of_string field)), [].
  rewrite List.app_nil_r. split; [reflexivity | apply like_any].
Qed.

Lemma search_pattern_lower (query : string) :
  map Sql.lower (list_ascii_of_string ("%" ++ lower_string query ++ "%")%string)
  = map Sql.lower (list_ascii_of_string ("%" ++ query ++ "%")%string).
Proof.
  rewrite !search_pattern. unfold lower_string.
  rewrite list_ascii_of_string_of_list_ascii, List.map_map.
  do 2 f_equal. apply List.map_ext. exact lower_idempotent.
Qed.

(** X15: the empty query returns all the contacts of the caller, and a
    query returns what its lower-case form returns. *)
Theorem search_contacts_empty_and_case (s : Store) (owner : Z) (query : string) :
  search_contacts s owner "" = owned_contacts s owner /\
  search_contacts s owner query = search_contacts s owner (lower_string query).
Proof.
  split.
  - unfold search_contacts, owned_contacts. apply List.filter_ext. intros c.
    unfold search_match.
    change ("%" ++ "" ++ "%")%string with "%%".
    rewrite !ilike_everything. apply andb_true_r.
  - unfold search_contacts. apply List.filter_ext. intros c.
    unfold search_match, Sql.ilike. rewrite !search_pattern_lower. reflexivity.
Qed.

(** ** Upcoming birthdays: the window in days *)

Lemma ymd2ord_yday (d : date) :
  ymd2ord d = days_before_year (year d) + tm_yday d.
Proof. unfold ymd2ord, tm_yday. lia. Qed.

Lemma days_before_year_succ (y : Z) :
  days_before_year (y + 1) = days_before_year y + year_length y.
Proof.
  unfold days_before_year, year_length.
  replace (y + 1 - 1) with y by lia.
  destruct (is_leap y) eqn:E.
  - apply is_leap_true in E. Z.div_mod_to_equations. lia.
  - assert (H : ~ (y mod 4 = 0 /\ (y mod 100 <> 0 \/ y mod 400 = 0)))
      by (rewrite <- is_leap_true, E; discriminate).
    Z.div_mod_to_equations. lia.
Qed.

Lemma get_upcoming_birthdays_Return
  (s : Store) (today upcoming : date) (owner n : Z) :
  add_days today n = Some upcoming ->
  get_upcoming_birthdays s today owner n
  = Return (List.filter
              (birthday_match owner (tm_yday today) (tm_yday upcoming))
              (contacts s)).
Proof. intros H. unfold get_upcoming_birthdays. rewrite H. reflexivity. Qed.

(** X16: when today plus [n] days is a day of the current year, the
    later day of the year is today's plus [n].  For [n >= 0] the call
    returns the owner's contacts whose birthday falls on one of the [n + 1]
    days from today on.  For a negative [n] the comparison of the two days
    of the year takes the wrap-around branch: the call returns all the
    owner's contacts but those whose birthday lies strictly between the
    two days. *)
Theorem upcoming_birthdays_within_year
  (s : Store) (today upcoming : date) (owner n : Z) :
  add_days today n = Some upcoming ->
  year upcoming = year today ->
  tm_yday upcoming = tm_yday today + n /\
  exists l,
    get_upcoming_birthdays s today owner n = Return l /\
    (0 <= n ->
     forall c, In c l <->
       In c (contacts s) /\ owner_id c = owner /\
       tm_yday today <= tm_yday (birthday c) <= tm_yday today + n) /\
    (n < 0 ->
     forall c, In c l <->
       In c (contacts s) /\ owner_id c = owner /\
       ~ (tm_yday today + n < tm_yday (birthday c) < tm_yday today)).
Proof.
  intros Hadd Hyear.
  destruct (add_days_ordinal _ _ _ Hadd) as [_ Hord].
  rewrite !ymd2ord_yday, Hyear in Hord.
  assert (Hy : tm_yday upcoming = tm_yday today + n) by lia.
  split; [exact Hy |].
  rewrite (get_upcoming_birthdays_Return _ _ _ _ _ Hadd).
  eexists. split; [reflexivity |].
  split; intros Hn c; rewrite filter_In_iff, birthday_match_true, Hy;
    intuition lia.
Qed.

(** X17: when today plus [n] days, for [0 <= n < 365], is a day of the
    next year, its day of the year is today's plus [n] less the length of
    the current year, which is before today's; the call then returns the
    owner's contacts whose birthday is on or after today's day of the
    year, or on or before that day of the next year. *)
Theorem upcoming_birthdays_into_next_year
  (s : Store) (today upcoming : date) (owner n : Z) :
  add_days today n = Some upcoming ->
  year upcoming = year today + 1 ->
  0 <= n < 365 ->
  tm_yday upcoming = tm_yday today + n - year_length (year today) /\
  tm_yday upcoming < tm_yday today /\
  exists l,
    get_upcoming_birthdays s today owner n = Return l /\
    forall c, In c l <->
      In c (contacts s) /\ owner_id c = owner /\
      (tm_yday today <= tm_yday (birthday c) \/
       tm_yday (birthday c)
         <= tm_yday today + n - year_length (year today)).
Proof.
  intros Hadd Hyear Hn.
  destruct (add_days_ordinal _ _ _ Hadd) as [_ Hord].
  rewrite !ymd2ord_yday, Hyear, days_before_year_succ in Hord.
  assert (Hy : tm_yday upcoming
               = tm_yday today + n - year_length (year today)) by lia.
  assert (Hlen : 365 <= year_length (year today))
    by (unfold year_length; destruct (is_leap (year today)); lia).
  split; [exact Hy |]. split; [lia |].
  rewrite (get_upcoming_birthdays_Return _ _ _ _ _ Hadd).
  eexists. split; [reflexivity |].
  intros c. rewrite filter_In_iff, birthday_match_true, Hy. intuition lia.
Qed.

Section BirthdayRouteProofs.
Context {env : Environment}.

(** X18: the call raises [OverflowError] exactly when the day count does
    not fit a [timedelta] or the sum leaves the calendar of the years 1 to
    9999; the endpoint has no bound on [days], and answers such a request
    of an authenticated user with a 500. *)
Theorem upcoming_birthdays_overflow
  (clk : clock) (s : Store) (t : token) (owner n : Z) :
  (get_upcoming_birthdays s (today clk) owner n = Raise OverflowError <->
   ~ (Z.abs n <= MAX_DELTA_DAYS /\
      0 < ymd2ord (today clk) + n <= MAXORDINAL)) /\
  (forall u,
     get_current_user s (utc_now clk) t = Return u ->
     ~ (Z.abs n <= MAX_DELTA_DAYS /\
        0 < ymd2ord (today clk) + n <= MAXORDINAL) ->
     serve clk (GetUpcomingBirthdays t n) s = (500, s)).
Proof.
  assert (Hiff : forall o,
            get_upcoming_birthdays s (today clk) o n = Raise OverflowError <->
            ~ (Z.abs n <= MAX_DELTA_DAYS /\
               0 < ymd2ord (today clk) + n <= MAXORDINAL)).
  { intros o. rewrite <- add_days_defined. unfold get_upcoming_birthdays.
    destruct (add_days (today clk) n) as [d|]; split.
    - discriminate.
    - intros H. exfalso. apply H. eexists. reflexivity.
    - intros _ [x Hx]. discriminate.
    - reflexivity. }
  split; [apply Hiff |].
  intros u Hcu Hout. simpl. unfold get_upcoming_birthdays_route.
  rewrite Hcu. simpl. rewrite (proj2 (Hiff (user_pk u)) Hout). reflexivity.
Qed.

End BirthdayRouteProofs.

(** ** The routes act for the caller *)

Section RouteProofs.
Context {env : Environment}.

(** Under the schema's constraints the only failure of the
    authentication is the 401. *)
Lemma get_current_user_Raise (s : Store) (now : Z) (t : token) (e : exn) :
  List.NoDup (map email (users s)) ->
  get_current_user s now t = Raise e -> e = credentials_exception.
Proof.
  intros Hnd. unfold get_current_user.
  destruct (decode_access_token_total now t) as [[[o]|] ->]; simpl;
    [| congruence].
  destruct o as [x|].
  - destruct (get_user_by_email_unique s x Hnd)
      as [[Hg _] | (u & Hg & _)]; rewrite Hg; simpl; congruence.
  - rewrite get_user_by_email_null. simpl. congruence.
Qed.

(** X19: the listing, the search and the birthday query answer with
    contacts of the user whom the token authenticates and of nobody else,
    and a contact created through the API belongs to that user. *)
Theorem routes_scoped_to_caller (s : Store) (now : Z) (t : token) :
  (forall limit offset cs,
     get_contacts_route s now t limit offset = Return cs ->
     exists u, get_current_user s now t = Return u /\
               forall c, In c cs -> In c (contacts s) /\ owner_id c = user_pk u)
  /\
  (forall query cs,
     search_contacts_route s now t query = Return cs ->
     exists u, get_current_user s now t = Return u /\
               forall c, In c cs -> In c (contacts s) /\ owner_id c = user_pk u)
  /\
  (forall day n cs,
     get_upcoming_birthdays_route s now day t n = Return cs ->
     exists u, get_current_user s now t = Return u /\
               forall c, In c cs -> In c (contacts s) /\ owner_id c = user_pk u)
  /\
  (forall cc c s',
     create_contacts_route s now t cc = Return (c, s') ->
     exists u, get_current_user s now t = Return u /\
               owner_id c = user_pk u /\
               contacts s' = (contacts s ++ [c])%list).
Proof.
  split; [| split; [| split]].
  - intros limit offset cs. unfold get_contacts_route.
    destruct (RoleChecker [USER; ADMIN] s now t); simpl; [| discriminate].
    destruct (get_current_user s now t) as [u | e]; simpl; [| discriminate].
    intros H. inversion H; subst. exists u. split; [reflexivity |].
    intros c Hc. rewrite get_contacts_page in Hc. apply In_page in Hc.
    apply filter_In_iff in Hc. rewrite Z.eqb_eq in Hc. exact Hc.
  - intros query cs. unfold search_contacts_route.
    destruct (RoleChecker [USER; ADMIN] s now t); simpl; [| discriminate].
    destruct (get_current_user s now t) as [u | e]; simpl; [| discriminate].
    intros H. inversion H; subst. exists u. split; [reflexivity |].
    intros c Hc. apply filter_In_iff in Hc. destruct Hc as [Hc Hm].
    split; [exact Hc | exact (search_match_owner _ _ _ Hm)].
  - intros day n cs. unfold get_upcoming_birthdays_route.
    destruct (get_current_user s now t) as [u | e]; simpl; [| discriminate].
    unfold get_upcoming_birthdays.
    destruct (add_days day n) as [up|]; [| discriminate].
    intros H. inversion H; subst. exists u. split; [reflexivity |].
    intros c Hc. apply filter_In_iff in Hc. destruct Hc as [Hc Hm].
    apply birthday_match_true in Hm. tauto.
  - intros cc c s'. unfold create_contacts_route.
    destruct (RoleChecker [USER; ADMIN] s now t); simpl; [| discriminate].
    destruct (get_current_user s now t) as [u | e]; simpl; [| discriminate].
    intros H. exists u. split; [reflexivity |].
    destruct (create_contacts_Return _ _ _ _ _ H) as [-> ->].
    split; reflexivity.
Qed.

(** X20: for a caller who passes the admin check, the delete endpoint
    removes the contact with the given id whoever owns it, answers 200
    and keeps every other contact; when no contact has the id it answers
    404 and changes nothing. *)
Theorem admin_deletes_any_contact
  (clk : clock) (s : Store) (t : token) (admin : User) (i : Z) :
  wf_store s ->
  RoleChecker [ADMIN] s (utc_now clk) t = Return admin ->
  (forall c, In c (contacts s) -> contact_pk c = i ->
     serve clk (DeleteContact t i) s = (200, delete_contact s i) /\
     ~ In c (contacts (delete_contact s i)) /\
     forall c', In c' (contacts s) -> c' <> c ->
                In c' (contacts (delete_contact s i))) /\
  ((forall c, In c (contacts s) -> contact_pk c <> i) ->
   serve clk (DeleteContact t i) s = (404, s)).
Proof.
  intros Hwf Hrc. split.
  - intros c Hc Hpk. subst i. split; [| split].
    + simpl. unfold delete_contact_route. rewrite Hrc. simpl.
      rewrite (get_contact_by_id_member s c (wf_contact_pk s Hwf) Hc).
      reflexivity.
    + simpl. intros Hin. apply filter_In_iff in Hin. destruct Hin as [_ Hn].
      rewrite Z.eqb_refl in Hn. discriminate.
    + intros c' Hc' Hne. simpl. apply filter_In_iff. split; [exact Hc' |].
      apply negb_true_iff, Z.eqb_neq. intros Hk. apply Hne.
      exact (NoDup_key_inj contact_pk (contacts s) c' c
               (wf_contact_pk s Hwf) Hc' Hc Hk).
  - intros Hno. simpl. unfold delete_contact_route. rewrite Hrc. simpl.
    rewrite (get_contact_by_id_absent s i Hno). reflexivity.
Qed.

(** X21: the avatar endpoint answers 200, 401 or 500 and nothing else.
    On a 200 the image host returned a non-empty URL, which is now the
    avatar of the authenticated user; that user's other columns, the other
    users and the contacts are as before.  On any other answer the store
    is unchanged. *)
Theorem update_avatar_user_effect
  (clk : clock) (s : Store) (t : token) (upload : result (option string)) :
  wf_store s ->
  (fst (serve clk (PatchAvatar t upload) s) = 200 \/
   fst (serve clk (PatchAvatar t upload) s) = 401 \/
   fst (serve clk (PatchAvatar t upload) s) = 500) /\
  (fst (serve clk (PatchAvatar t upload) s) <> 200 ->
   snd (serve clk (PatchAvatar t upload) s) = s) /\
  (fst (serve clk (PatchAvatar t upload) s) = 200 ->
   exists u url,
     get_current_user s (utc_now clk) t = Return u /\
     upload = Return (Some url) /\ url <> "" /\
     update_avatar_user s (utc_now clk) t upload
       = Return (set_avatar url u, snd (serve clk (PatchAvatar t upload) s)) /\
     users (snd (serve clk (PatchAvatar t upload) s))
       = map (fun r => if user_pk r =? user_pk u then set_avatar url r else r)
           (users s) /\
     In (set_avatar url u) (users (snd (serve clk (PatchAvatar t upload) s))) /\
     is_active (set_avatar url u) = is_active u /\
     contacts (snd (serve clk (PatchAvatar t upload) s)) = contacts s).
Proof.
  intros Hwf. pose proof (wf_user_email s Hwf) as Hnd. simpl.
  unfold update_avatar_user.
  destruct (get_current_user s (utc_now clk) t) as [u | e] eqn:Ecu; simpl.
  2: { apply (get_current_user_Raise s _ t e Hnd) in Ecu. subst e. simpl.
       split; [auto |]. split; [reflexivity | discriminate]. }
  assert (Hu : In u (users s)).
  { unfold get_current_user in Ecu.
    destruct (decode_access_token (utc_now clk) t) as [[[o]|] | x]; simpl in Ecu;
      try discriminate.
    destruct (get_user_by_email s o) as [[u'|] | x] eqn:Eg; simpl in Ecu;
      try discriminate.
    inversion Ecu; subst. apply get_user_by_email_Some in Eg. tauto. }
  destruct upload as [[url|] | x]; simpl;
    try (split; [auto |]; split; [reflexivity | discriminate]).
  unfold truthy. destruct (String.eqb_spec url "") as [-> | Hurl]; simpl;
    [split; [auto |]; split; [reflexivity | discriminate] |].
  unfold update_avatar. rewrite (get_user_by_email_member s u Hnd Hu). simpl.
  split; [auto |]. split; [congruence |]. intros _.
  exists u, url. repeat split; try reflexivity; try assumption.
  apply List.in_map_iff. exists u. rewrite Z.eqb_refl. auto.
Qed.

End RouteProofs.

(** ** Expiry, login failures and invariants over sequences of requests *)

Section MoreAuthProofs.
Context {env : Environment}.

(** A token that the service signs with an expiry is rejected from the
    second after the expiry on. *)
Lemma issued_token_expires (expire now' : Z) (payload : claims) :
  payload !! "exp" = Some (exp_claim expire) ->
  expire + 1000000 <= now' ->
  decode_verification_token now' (jwt_encode payload SECRET_KEY ALGORITHM)
  = Return None.
Proof.
  intros Hexp Hle. unfold jwt_encode. apply expired_token_rejected.
  exists (exp_claim expire), (seconds expire).
  split; [exact Hexp |]. split; [reflexivity |].
  apply seconds_mono in Hle. unfold seconds in *.
  replace (expire + 1000000) with (expire + 1 * 1000000) in Hle by lia.
  rewrite Z.div_add in Hle by lia. lia.
Qed.

(** X22: the tokens of the service expire: one second after its
    lifetime, thirty minutes for the access token of a login, seven days
    for its refresh token and twenty-four hours for the token that
    registration mails, the token authenticates nobody and verifies no
    address. *)
Theorem issued_tokens_expire (s : Store) (x : string) (now : Z) (clk : clock) :
  (now + minutes ACCESS_TOKEN_EXPIRE_MINUTES + 1000000 <= utc_now clk ->
   get_current_user s (utc_now clk)
     (create_access_token now {["sub" := JStr x]} None)
   = Raise credentials_exception) /\
  (now + days REFRESH_TOKEN_EXPIRE_DAYS + 1000000 <= utc_now clk ->
   get_current_user s (utc_now clk)
     (create_refresh_token now {["sub" := JStr x]} None)
   = Raise credentials_exception) /\
  (now + hours VERIFICATION_TOKEN_HOUSE + 1000000 <= utc_now clk ->
   serve clk (GetVerifyEmail (create_verification_token now x)) s = (404, s)).
Proof.
  split; [| split]; intros Hle.
  - apply get_current_user_rejected, decoders_agree_on_None.
    unfold create_access_token.
    apply (issued_token_expires (now + minutes ACCESS_TOKEN_EXPIRE_MINUTES));
      [apply lookup_insert_eq | exact Hle].
  - apply get_current_user_rejected, decoders_agree_on_None.
    unfold create_refresh_token.
    apply (issued_token_expires (now + days REFRESH_TOKEN_EXPIRE_DAYS));
      [apply lookup_insert_eq | exact Hle].
  - simpl. unfold verify_email, create_verification_token.
    rewrite (issued_token_expires (now + hours VERIFICATION_TOKEN_HOUSE));
      [| rewrite lookup_insert_ne by discriminate; apply lookup_singleton_eq
       | exact Hle].
    simpl. rewrite get_user_by_email_null. reflexivity.
Qed.

(** X23: a login that fails says the same whatever failed: on a store
    that meets the schema's constraints the only exception of
    [login_for_token] is the 401 with the one detail text, for an unknown
    email as for a wrong password. *)
Theorem login_failures_indistinguishable
  (s : Store) (now : Z) (e p : string) (x : exn) :
  wf_store s ->
  login_for_token s now e p = Raise x ->
  x = HTTPException 401 "Incorrect email or password" /\
  ((forall u, In u (users s) -> email u <> e) \/
   (exists u, In u (users s) /\ email u = e /\
              verify_password p (hashed_password u) = false)).
Proof.
  intros Hwf. pose proof (wf_user_email s Hwf) as Hnd. unfold login_for_token.
  destruct (get_user_by_email_unique s e Hnd)
    as [[Hg Hfree] | (u & Hg & Hu & He)]; rewrite Hg; simpl.
  - intros H. inversion H. split; [reflexivity | left; exact Hfree].
  - destruct (verify_password p (hashed_password u)) eqn:Ev; simpl;
      [discriminate |].
    intros H. inversion H. split; [reflexivity |]. right. exists u. auto.
Qed.

(** X24: the constraints of the schema, unique keys and emails, keys
    drawn from the sequences and a role row for every user, hold after any
    sequence of requests on a store where they hold. *)
Theorem run_preserves_wf (trace : list (clock * request)) (s : Store) :
  wf_store s -> wf_store (run trace s).
Proof.
  revert s. induction trace as [|[clk req] trace IH]; intros s Hwf;
    [exact Hwf |].
  simpl. apply IH. apply serve_preserves_wf. exact Hwf.
Qed.

End MoreAuthProofs.

Section RegisterRoleProofs.
Context {env : Environment}.

(** X26: registration resolves the requested role by name.  When no
    role row has that name, the registration of a free email fails on
    [user_role.id], is answered 500 and stores nothing; when it succeeds,
    the new user's [role_id] is the id of a role row with the requested
    name, the stored password is the hash of the requested one and the
    avatar is empty. *)
Theorem register_resolves_role (clk : clock) (s : Store) (uc : UserCreate) :
  ((forall u, In u (users s) -> email u <> uc_email uc) ->
   (forall ro, In ro (roles s) -> name ro <> value (uc_role uc)) ->
   register s (utc_now clk) uc = Raise AttributeError /\
   serve clk (PostRegister uc) s = (500, s)) /\
  (forall u tok s1,
     register s (utc_now clk) uc = Return (u, tok, s1) ->
     exists ro,
       In ro (roles s) /\ name ro = value (uc_role uc) /\
       role_id u = role_pk ro /\
       hashed_password u = get_password_hash (uc_password uc) /\
       avatar u = None /\ roles s1 = roles s).
Proof.
  split.
  - intros Hfree Hnorole.
    assert (Hreg : register s (utc_now clk) uc = Raise AttributeError).
    { unfold register. rewrite (get_user_by_email_absent s _ Hfree). simpl.
      unfold create_user, get_role_by_name.
      rewrite filter_none; [reflexivity |].
      intros ro Hro. apply String.eqb_neq. exact (Hnorole ro Hro). }
    split; [exact Hreg |]. simpl. rewrite Hreg. reflexivity.
  - intros u tok s1 Hreg.
    destruct (register_Return _ _ _ _ _ _ Hreg)
      as (ro & Hro & Hname & Hu & _ & Hs1 & _).
    exists ro. split; [exact Hro |]. split; [exact Hname |].
    rewrite Hu, Hs1. repeat split.
Qed.

End RegisterRoleProofs.

(** ** The properties above on the sample store *)

Lemma get_current_user_sound_witness :
  @get_current_user toy_env sample_store sample_now alice_token = Return alice /\
  In alice (users sample_store) /\
  @validly_signed toy_env alice_token.
Proof.
  assert (H : @get_current_user toy_env sample_store sample_now alice_token
              = Return alice) by (vm_compute; reflexivity).
  split; [exact H |].
  destruct (@get_current_user_sound toy_env sample_store sample_now
              alice_token alice H) as (Hin & Hsig & _).
  split; [exact Hin | exact Hsig].
Defined.

Lemma unauthenticated_request_401_witness :
  bearer (PutContact (Malformed "x.y.z") "1" taken_email_update)
    = Some (Malformed "x.y.z") /\
  @decode_access_token toy_env (utc_now sample_clock) (Malformed "x.y.z")
    = Return None /\
  @serve toy_env sample_clock
    (PutContact (Malformed "x.y.z") "1" taken_email_update) sample_store
  = (401, sample_store).
Proof.
  split; [reflexivity |]. split; [reflexivity |].
  apply (@unauthenticated_request_401 toy_env sample_clock
           (PutContact (Malformed "x.y.z") "1" taken_email_update)
           sample_store (Malformed "x.y.z")).
  - reflexivity.
  - left. reflexivity.
Defined.

Lemma login_tokens_authenticate_witness :
  wf_store sample_store /\
  @login_for_token toy_env sample_store sample_now
    "alice@example.com" "wonderland"
  = Return (alice_token, alice_refresh_token) /\
  exists u,
    In u (users sample_store) /\ email u = "alice@example.com" /\
    @get_current_user toy_env sample_store (sample_now + minutes 30)
      alice_token = Return u /\
    @get_current_user toy_env sample_store (sample_now + days 7)
      alice_refresh_token = Return u.
Proof.
  assert (H : @login_for_token toy_env sample_store sample_now
                "alice@example.com" "wonderland"
              = Return (alice_token, alice_refresh_token))
    by (vm_compute; reflexivity).
  split; [exact sample_store_wf |]. split; [exact H |].
  destruct (@login_tokens_authenticate toy_env sample_store sample_now
              "alice@example.com" "wonderland" alice_token alice_refresh_token
              sample_store_wf H) as (u & Hu & He & Ha & Hr).
  exists u. split; [exact Hu |]. split; [exact He |]. split.
  - apply Ha. apply Z.le_refl.
  - apply Hr. apply Z.le_refl.
Defined.

Lemma registration_token_activates_witness :
  wf_store sample_store /\
  @register toy_env sample_store sample_now carol_create
    = Return (carol, carol_verification_token, store_with_carol) /\
  utc_now (mkClock (sample_now + hours 23) (mkdate 2023 11 15))
    <= sample_now + hours VERIFICATION_TOKEN_HOUSE /\
  users (snd (@serve toy_env
                (mkClock (sample_now + hours 23) (mkdate 2023 11 15))
                (GetVerifyEmail carol_verification_token) store_with_carol))
  = [alice; root; set_is_active true carol].
Proof.
  assert (H : @register toy_env sample_store sample_now carol_create
              = Return (carol, carol_verification_token, store_with_carol))
    by (vm_compute; reflexivity).
  assert (Hle : utc_now (mkClock (sample_now + hours 23) (mkdate 2023 11 15))
                <= sample_now + hours VERIFICATION_TOKEN_HOUSE)
    by (vm_compute; discriminate).
  split; [exact sample_store_wf |]. split; [exact H |]. split; [exact Hle |].
  exact (proj1 (proj2
    (@registration_token_activates toy_env
       (mkClock (sample_now + hours 23) (mkdate 2023 11 15))
       sample_store sample_now carol_create carol carol_verification_token
       store_with_carol sample_store_wf H Hle))).
Defined.

Lemma verify_email_rejects_witness :
  @decode_verification_token toy_env (utc_now sample_clock)
    (Compact "none" {["sub" := JStr "alice@example.com"]} "")
  = Return None /\
  @serve toy_env sample_clock
    (GetVerifyEmail (Compact "none" {["sub" := JStr "alice@example.com"]} ""))
    sample_store
  = (404, sample_store).
Proof.
  assert (H : @decode_verification_token toy_env (utc_now sample_clock)
                (Compact "none" {["sub" := JStr "alice@example.com"]} "")
              = Return None) by (vm_compute; reflexivity).
  split; [exact H |].
  apply (@verify_email_rejects toy_env sample_clock sample_store). left. exact H.
Defined.

Lemma login_token_passes_verification_witness :
  wf_store sample_store /\
  is_active alice = false /\
  @login_for_token toy_env sample_store sample_now
    "alice@example.com" "wonderland"
  = Return (alice_token, alice_refresh_token) /\
  exists u,
    In u (users sample_store) /\ email u = "alice@example.com" /\
    @serve toy_env sample_clock (GetVerifyEmail alice_token) sample_store
    = (200, activate_user sample_store u) /\
    In (set_is_active true u) (users (activate_user sample_store u)).
Proof.
  assert (H : @login_for_token toy_env sample_store sample_now
                "alice@example.com" "wonderland"
              = Return (alice_token, alice_refresh_token))
    by (vm_compute; reflexivity).
  split; [exact sample_store_wf |]. split; [reflexivity |]. split; [exact H |].
  apply (@login_token_passes_verification toy_env sample_clock sample_store
           sample_now "alice@example.com" "wonderland" alice_token
           alice_refresh_token sample_store_wf H).
  vm_compute. discriminate.
Defined.

Lemma verify_email_idempotent_witness :
  wf_store sample_store /\
  @verify_email toy_env sample_store sample_now alice_verification_token
    = Return ("Email verified successfully", activate_user sample_store alice) /\
  @verify_email toy_env (activate_user sample_store alice) sample_now
    alice_verification_token
    = Return ("Email verified successfully", activate_user sample_store alice).
Proof.
  assert (H : @verify_email toy_env sample_store sample_now
                alice_verification_token
              = Return ("Email verified successfully",
                        activate_user sample_store alice))
    by (vm_compute; reflexivity).
  split; [exact sample_store_wf |]. split; [exact H |].
  exact (@verify_email_idempotent toy_env sample_store sample_now
           alice_verification_token _ _ sample_store_wf H).
Defined.

Lemma register_then_login_witness :
  wf_store sample_store /\
  @register toy_env sample_store sample_now carol_create
    = Return (carol, carol_verification_token, store_with_carol) /\
  is_active carol = false /\
  status_of 201
    (@login_for_token toy_env store_with_carol (sample_now + minutes 1)
       "carol@example.com" "pw") = 201 /\
  status_of 201
    (@login_for_token toy_env store_with_carol (sample_now + minutes 1)
       "carol@example.com" "pwd") = 401.
Proof.
  assert (H : @register toy_env sample_store sample_now carol_create
              = Return (carol, carol_verification_token, store_with_carol))
    by (vm_compute; reflexivity).
  split; [exact sample_store_wf |]. split; [exact H |].
  destruct (@register_then_login toy_env sample_store sample_now
              (sample_now + minutes 1) carol_create carol
              carol_verification_token store_with_carol sample_store_wf H)
    as (Hinactive & Hok & Hbad).
  split; [exact Hinactive |]. split.
  - change "carol@example.com" with (uc_email carol_create).
    change "pw" with (uc_password carol_create).
    rewrite Hok; reflexivity.
  - apply (Hbad "pwd"). reflexivity.
Defined.

Lemma created_contact_is_found_witness :
  wf_store sample_store /\
  create_contacts sample_store dan_create 1 = Return (dan, store_with_dan) /\
  get_contact_by_id store_with_dan 4 = Return (Some dan) /\
  get_contact_by_id_and_owner store_with_dan 2 4 = Return None.
Proof.
  assert (H : create_contacts sample_store dan_create 1
              = Return (dan, store_with_dan)) by (vm_compute; reflexivity).
  split; [exact sample_store_wf |]. split; [exact H |].
  destruct (created_contact_is_found sample_store dan_create 1 dan
              store_with_dan sample_store_wf H)
    as (_ & _ & _ & _ & _ & _ & Hid & _ & Hother & _).
  split; [exact Hid |]. apply (Hother 2). discriminate.
Defined.

Lemma update_contact_effect_witness :
  wf_store sample_store /\
  update_contact sample_store "Ann" 1 ann_update
    = Return (Some anne, store_with_anne) /\
  exists target,
    In target (contacts sample_store) /\ owner_id target = 1 /\
    anne = apply_update ann_update target /\
    get_contact_by_id store_with_anne (contact_pk target) = Return (Some anne).
Proof.
  assert (H : update_contact sample_store "Ann" 1 ann_update
              = Return (Some anne, store_with_anne))
    by (vm_compute; reflexivity).
  split; [exact sample_store_wf |]. split; [exact H |].
  destruct (update_contact_effect sample_store "Ann" 1 ann_update anne
              store_with_anne sample_store_wf H)
    as (target & Ht & Ho & Ha & _ & _ & _ & _ & _ & _ & _ & Hid).
  exists target. auto.
Defined.

Lemma update_contact_free_email_succeeds_witness :
  wf_store sample_store /\
  find_contact sample_store 1 "1" = Return (Some ann) /\
  cc_email ann_update = contact_email ann /\
  update_contact sample_store "1" 1 ann_update
  = Return (Some (apply_update ann_update ann),
            mkStore (roles sample_store) (users sample_store)
              (updated_rows ann_update (contact_pk ann) (contacts sample_store))
              (user_seq sample_store) (contact_seq sample_store)).
Proof.
  assert (H : find_contact sample_store 1 "1" = Return (Some ann))
    by (vm_compute; reflexivity).
  split; [exact sample_store_wf |]. split; [exact H |].
  split; [reflexivity |].
  apply (update_contact_free_email_succeeds sample_store "1" 1 ann_update ann
           sample_store_wf H).
  right. reflexivity.
Defined.

Lemma put_contact_scoped_to_caller_witness :
  wf_store sample_store /\
  @get_current_user toy_env sample_store (utc_now sample_clock) alice_token
    = Return alice /\
  In bob (contacts (snd (@serve toy_env sample_clock
                           (PutContact alice_token "3" ann_update)
                           sample_store))) /\
  @serve toy_env sample_clock (PutContact alice_token "3" ann_update)
    sample_store = (404, sample_store).
Proof.
  assert (H : @get_current_user toy_env sample_store (utc_now sample_clock)
                alice_token = Return alice) by (vm_compute; reflexivity).
  split; [exact sample_store_wf |]. split; [exact H |].
  destruct (@put_contact_scoped_to_caller toy_env sample_clock sample_store
              alice_token "3" ann_update alice sample_store_wf H)
    as (Hkeep & _ & Hnone).
  split.
  - apply Hkeep; [simpl; auto | discriminate].
  - apply Hnone. vm_compute. reflexivity.
Defined.

Lemma upcoming_birthdays_within_year_witness :
  add_days (mkdate 2023 6 10) (-3) = Some (mkdate 2023 6 7) /\
  year (mkdate 2023 6 7) = year (mkdate 2023 6 10) /\
  tm_yday (mkdate 2023 6 7) = tm_yday (mkdate 2023 6 10) + -3 /\
  get_upcoming_birthdays sample_store (mkdate 2023 6 10) 1 (-3)
    = Return [ann; ann_lee].
Proof.
  split; [reflexivity |]. split; [reflexivity |].
  split; [| vm_compute; reflexivity].
  exact (proj1 (upcoming_birthdays_within_year sample_store (mkdate 2023 6 10)
                  (mkdate 2023 6 7) 1 (-3) eq_refl eq_refl)).
Defined.

Lemma upcoming_birthdays_into_next_year_witness :
  add_days (mkdate 2023 12 28) 7 = Some (mkdate 2024 1 4) /\
  year (mkdate 2024 1 4) = year (mkdate 2023 12 28) + 1 /\
  0 <= 7 < 365 /\
  tm_yday (mkdate 2024 1 4)
    = tm_yday (mkdate 2023 12 28) + 7 - year_length (year (mkdate 2023 12 28)) /\
  tm_yday (mkdate 2024 1 4) < tm_yday (mkdate 2023 12 28).
Proof.
  split; [reflexivity |]. split; [reflexivity |]. split; [lia |].
  destruct (upcoming_birthdays_into_next_year sample_store (mkdate 2023 12 28)
              (mkdate 2024 1 4) 1 7 eq_refl eq_refl ltac:(lia))
    as (Hy & Hlt & _).
  split; [exact Hy | exact Hlt].
Defined.

Lemma admin_deletes_any_contact_witness :
  wf_store sample_store /\
  @RoleChecker toy_env [ADMIN] sample_store (utc_now sample_clock) root_token
    = Return root /\
  owner_id ann = 1 /\ user_pk root = 2 /\
  @serve toy_env sample_clock (DeleteContact root_token 1) sample_store
    = (200, delete_contact sample_store 1) /\
  @serve toy_env sample_clock (DeleteContact root_token 9) sample_store
    = (404, sample_store).
Proof.
  assert (H : @RoleChecker toy_env [ADMIN] sample_store (utc_now sample_clock)
                root_token = Return root) by (vm_compute; reflexivity).
  split; [exact sample_store_wf |]. split; [exact H |].
  split; [reflexivity |]. split; [reflexivity |].
  destruct (@admin_deletes_any_contact toy_env sample_clock sample_store
              root_token root 1 sample_store_wf H) as [Hdel _].
  destruct (@admin_deletes_any_contact toy_env sample_clock sample_store
              root_token root 9 sample_store_wf H) as [_ Hmiss].
  split.
  - exact (proj1 (Hdel ann (or_introl eq_refl) eq_refl)).
  - apply Hmiss. intros c [<- | [<- | [<- | []]]]; discriminate.
Defined.

Lemma update_avatar_user_effect_witness :
  wf_store sample_store /\
  fst (@serve toy_env sample_clock
         (PatchAvatar alice_token (Return (Some "https://img.example/a.png")))
         sample_store) = 200 /\
  users (snd (@serve toy_env sample_clock
                (PatchAvatar alice_token
                   (Return (Some "https://img.example/a.png")))
                sample_store))
  = [set_avatar "https://img.example/a.png" alice; root].
Proof.
  assert (H : fst (@serve toy_env sample_clock
                     (PatchAvatar alice_token
                        (Return (Some "https://img.example/a.png")))
                     sample_store) = 200) by (vm_compute; reflexivity).
  split; [exact sample_store_wf |]. split; [exact H |].
  destruct (@update_avatar_user_effect toy_env sample_clock sample_store
              alice_token (Return (Some "https://img.example/a.png"))
              sample_store_wf) as (_ & _ & Hok).
  destruct (Hok H) as (u & url & Hcu & Hup & _ & _ & Hrows & _).
  assert (Ha : @get_current_user toy_env sample_store (utc_now sample_clock)
                 alice_token = Return alice) by (vm_compute; reflexivity).
  rewrite Ha in Hcu. inversion Hcu; subst u. inversion Hup; subst url.
  rewrite Hrows. reflexivity.
Defined.

Lemma login_failures_indistinguishable_witness :
  wf_store sample_store /\
  @login_for_token toy_env sample_store sample_now "alice@example.com" "guess"
    = Raise (HTTPException 401 "Incorrect email or password") /\
  @login_for_token toy_env sample_store sample_now "nobody@example.com" "guess"
    = Raise (HTTPException 401 "Incorrect email or password").
Proof.
  split; [exact sample_store_wf |].
  destruct (@login_for_token toy_env sample_store sample_now
              "alice@example.com" "guess") as [r1 | x1] eqn:H1;
    [vm_compute in H1; discriminate |].
  destruct (@login_for_token toy_env sample_store sample_now
              "nobody@example.com" "guess") as [r2 | x2] eqn:H2;
    [vm_compute in H2; discriminate |].
  destruct (@login_failures_indistinguishable toy_env sample_store sample_now
              "alice@example.com" "guess" x1 sample_store_wf H1) as [-> _].
  destruct (@login_failures_indistinguishable toy_env sample_store sample_now
              "nobody@example.com" "guess" x2 sample_store_wf H2) as [-> _].
  split; reflexivity.
Defined.

Lemma run_preserves_wf_witness :
  wf_store sample_store /\
  wf_store
    (@run toy_env
       [(sample_clock, PostRegister carol_create);
        (sample_clock, GetVerifyEmail carol_verification_token);
        (sample_clock, PostContacts alice_token dan_create);
        (sample_clock, PutContact alice_token "Dan" ann_update);
        (sample_clock, DeleteContact root_token 2)]
       sample_store).
Proof.
  split; [exact sample_store_wf |].
  apply (@run_preserves_wf toy_env). exact sample_store_wf.
Defined.

Lemma active_users_were_verified_witness :
  wf_store sample_store /\
  In (set_is_active true alice)
    (users (@run toy_env
              [(sample_clock, GetVerifyEmail alice_verification_token)]
              sample_store)) /\
  exists clk t,
    In (clk, GetVerifyEmail t)
      [(sample_clock, GetVerifyEmail alice_verification_token)] /\
    @decode_verification_token toy_env (utc_now clk) t
    = Return (Some (email (set_is_active true alice))).
Proof.
  assert (Hin : In (set_is_active true alice)
            (users (@run toy_env
                      [(sample_clock, GetVerifyEmail alice_verification_token)]
                      sample_store)))
    by (vm_compute; left; reflexivity).
  split; [exact sample_store_wf |]. split; [exact Hin |].
  destruct (@active_users_were_verified toy_env
              [(sample_clock, GetVerifyEmail alice_verification_token)]
              sample_store (set_is_active true alice) sample_store_wf Hin
              eq_refl)
    as [(u & Hu & Hpk & _ & Ha) | Hver]; [| exact Hver].
  exfalso. destruct Hu as [<- | [<- | []]]; simpl in Hpk, Ha; discriminate.
Defined.
